(** * Regional proxies and rebalancing of cement inventories

    A shallow embedding of [rmnd_lca/cement.py] (class [Cement]) and a
    verification of its behaviour: fetching regional proxies, supplier
    shares, fuel exchanges, pollutant rescaling, relinking and the
    adjustment of the clinker-to-cement ratio.

    Conventions of the embedding
    - a wurst dataset (a Python dict) is a record, one field per key
      that the code reads or writes; a key that may be missing or hold
      [None] is an [option];
    - Python floats are exact rationals ([Q]); [nan] in a numpy array is
      [None] in a list of [option Q];
    - a Python exception is a value of [exn] carried by [res];
    - a Python dict whose iteration order matters is an association list
      in insertion order ([dict]);
    - [copy.deepcopy] is the identity (values are immutable here);
      [uuid.uuid4().hex] draws from a supply [uuid4 : nat -> string]. *)

From Stdlib Require Import String List Bool Arith ZArith QArith Qminmax Qround Lia Lqa.
Import ListNotations.

Open Scope string_scope.
Open Scope list_scope.

(* ------------------------------------------------------------------ *)
(** ** Exceptions *)

Inductive exn : Type :=
| NoResults          (* wurst.searching.NoResults *)
| MultipleResults    (* wurst.searching.MultipleResults *)
| KeyError
| TypeError
| ValueError
| IndexError
| ZeroDivisionError.

Inductive res (A : Type) : Type :=
| Ok (a : A)
| Raise (e : exn).

Arguments Ok {A} a.
Arguments Raise {A} e.

Definition bind {A B : Type} (m : res A) (k : A -> res B) : res B :=
  match m with
  | Ok a => k a
  | Raise e => Raise e
  end.

Notation "x <- m ;; k" := (bind m (fun x => k))
  (at level 61, m at next level, right associativity).

(** The outcome of running a loop with a bound on the number of passes. *)
Inductive outcome (A : Type) : Type :=
| Done (a : A)            (* the loop was left normally *)
| Failed (e : exn)        (* an exception was raised *)
| Running.                (* the bound was reached, the loop still running *)

Arguments Done {A} a.
Arguments Failed {A} e.
Arguments Running {A}.

(* ------------------------------------------------------------------ *)
(** ** Insertion-ordered dictionaries *)

Section Dict.
Context {K V : Type}.
Variable eqb : K -> K -> bool.

Definition dict : Type := list (K * V).

(** [d[k] = v] : overwrite in place, or append a new key. *)
Fixpoint dict_set (k : K) (v : V) (d : dict) : dict :=
  match d with
  | [] => [(k, v)]
  | (k', v') :: t =>
      if eqb k' k then (k', v) :: t else (k', v') :: dict_set k v t
  end.

Fixpoint dict_get (k : K) (d : dict) : option V :=
  match d with
  | [] => None
  | (k', v') :: t => if eqb k' k then Some v' else dict_get k t
  end.

(** [d.get(k, default)] *)
Definition dict_get_default (k : K) (default : V) (d : dict) : V :=
  match dict_get k d with
  | Some v => v
  | None => default
  end.

Definition keys (d : dict) : list K := map fst d.
Definition values (d : dict) : list V := map snd d.
End Dict.

Arguments dict : clear implicits.

(* ------------------------------------------------------------------ *)
(** ** Datasets and exchanges *)

(** An exchange.  ['product'] and ['location'] are read with [.get] or
    are absent on biosphere flows; ['production volume'] is absent on
    most technosphere flows. *)
Record Exchange : Type := mkExchange {
  e_type : string;                     (* 'type' *)
  e_name : string;                     (* 'name' *)
  e_product : option string;           (* 'product' *)
  e_location : option string;          (* 'location' *)
  e_unit : string;                     (* 'unit' *)
  e_amount : Q;                        (* 'amount' *)
  e_production_volume : option Q;      (* 'production volume' *)
  e_uncertainty_type : Z;              (* 'uncertainty type' *)
  e_loc : option Q;                    (* 'loc' *)
  e_uncertainty_fields : list (string * Q)
                                       (* 'scale', 'shape', 'minimum', 'maximum' *)
}.

Record Activity : Type := mkActivity {
  a_name : string;                     (* 'name' *)
  a_reference_product : string;        (* 'reference product' *)
  a_location : string;                 (* 'location' *)
  a_unit : string;                     (* 'unit' *)
  a_code : string;                     (* 'code' *)
  a_exchanges : list Exchange          (* 'exchanges' *)
}.

Definition set_e_location (l : option string) (e : Exchange) : Exchange :=
  mkExchange (e_type e) (e_name e) (e_product e) l (e_unit e) (e_amount e)
             (e_production_volume e) (e_uncertainty_type e) (e_loc e)
             (e_uncertainty_fields e).

Definition set_e_amount (q : Q) (e : Exchange) : Exchange :=
  mkExchange (e_type e) (e_name e) (e_product e) (e_location e) (e_unit e) q
             (e_production_volume e) (e_uncertainty_type e) (e_loc e)
             (e_uncertainty_fields e).

Definition set_a_exchanges (l : list Exchange) (a : Activity) : Activity :=
  mkActivity (a_name a) (a_reference_product a) (a_location a) (a_unit a)
             (a_code a) l.

(** The identity of a dataset in the logs and in the uniqueness invariant. *)
Definition triple (a : Activity) : string * string * string :=
  (a_name a, a_reference_product a, a_location a).

Definition unique_triples (db : list Activity) : Prop := NoDup (map triple db).

(* ------------------------------------------------------------------ *)
(** ** wurst.searching *)

Definition get_many {A : Type} (f : A -> bool) (data : list A) : list A :=
  filter f data.

Definition get_one {A : Type} (f : A -> bool) (data : list A) : res A :=
  match get_many f data with
  | [] => Raise NoResults
  | [x] => Ok x
  | _ :: _ :: _ => Raise MultipleResults
  end.

Definition is_production (e : Exchange) : bool := (e_type e =? "production").
Definition is_technosphere (e : Exchange) : bool := (e_type e =? "technosphere").
Definition is_biosphere (e : Exchange) : bool := (e_type e =? "biosphere").

(** [ws.production(ds)] *)
Definition ws_production (ds : Activity) : list Exchange :=
  get_many is_production (a_exchanges ds).

(** [value in s] on strings *)
Definition str_in (value s : string) : bool :=
  match String.index 0 value s with
  | Some _ => true
  | None => false
  end.

(* ------------------------------------------------------------------ *)
(** ** The region crosswalk

    [Geomap] lives in [rmnd_lca/geomap.py]; the class [Cement] only
    calls it.  Its three entry points are taken as an interface. *)

Record Geomap : Type := mkGeomap {
  (** [geo.ecoinvent_to_remind_location(loc)] *)
  ecoinvent_to_remind_location : string -> string;
  (** [geo.remind_to_ecoinvent_location(region)] *)
  remind_to_ecoinvent_location : string -> list string;
  (** [[c[1] for c in geo.geo.keys() if type(c) == tuple and c[0] == "REMIND"]] *)
  list_remind_regions : list string
}.

(* ------------------------------------------------------------------ *)
(** ** Cement.fetch_proxies *)

Section FetchProxies.
Variable geo : Geomap.
Variable uuid4 : nat -> string.

Definition name_ref_is (name ref_prod : string) (a : Activity) : bool :=
  (a_name a =? name) && (a_reference_product a =? ref_prod).

Definition name_ref_loc_is (name ref_prod loc : string) (a : Activity) : bool :=
  (a_name a =? name) && (a_reference_product a =? ref_prod)
  && (a_location a =? loc).

(** [{geo.ecoinvent_to_remind_location(d['location']): d['location'] for d in ...}] *)
Definition d_map (name ref_prod : string) (db : list Activity)
  : dict string string :=
  fold_left
    (fun m d =>
       dict_set String.eqb (ecoinvent_to_remind_location geo (a_location d))
                (a_location d) m)
    (get_many (name_ref_is name ref_prod) db) [].

(** [{r: d_map.get(r, "RoW") for r in list_remind_regions}] *)
Definition d_remind_to_eco (name ref_prod : string) (db : list Activity)
  : dict string string :=
  fold_left
    (fun m r =>
       dict_set String.eqb r
                (dict_get_default String.eqb r "RoW" (d_map name ref_prod db)) m)
    (list_remind_regions geo) [].

(** The copy stored under region [d]: new location, new code, and the
    production exchanges moved to [d]. *)
Definition proxy (d code : string) (ds : Activity) : Activity :=
  mkActivity (a_name ds) (a_reference_product ds) d (a_unit ds) code
             (map (fun e => if is_production e
                            then set_e_location (Some d) e else e)
                  (a_exchanges ds)).

(** The [for d in d_remind_to_eco] loop; [n] counts the codes drawn. *)
Fixpoint fetch_loop (name ref_prod : string) (db : list Activity)
         (todo : list (string * string))
         (d_act : dict string Activity) (n : nat)
  : res (dict string Activity * nat) :=
  match todo with
  | [] => Ok (d_act, n)
  | (d, loc) :: rest =>
      match get_one (name_ref_loc_is name ref_prod loc) db with
      | Ok ds =>
          fetch_loop name ref_prod db rest
                     (dict_set String.eqb d (proxy d (uuid4 n) ds) d_act) (S n)
      | Raise NoResults => fetch_loop name ref_prod db rest d_act n
      | Raise e => Raise e
      end
  end.

(** The mutable part of a [Cement] object that [fetch_proxies] touches:
    the database, the "deleted datasets" log and the code supply. *)
Record State : Type := mkState {
  db : list Activity;
  log_deleted : list (string * string * string);
  uuid_count : nat
}.

Definition fetch_proxies (name ref_prod : string) (st : State)
  : res (dict string Activity * State) :=
  r <- fetch_loop name ref_prod (db st)
         (d_remind_to_eco name ref_prod (db st)) [] (uuid_count st) ;;
  let deleted_markets :=
    map triple (filter (name_ref_is name ref_prod) (db st)) in
  Ok (fst r,
      mkState (filter (fun act => negb (name_ref_is name ref_prod act)) (db st))
              (log_deleted st ++ deleted_markets)
              (snd r)).
End FetchProxies.

(* ------------------------------------------------------------------ *)
(** ** Supplier shares *)

(** The key of a supplier:
    [(act["name"], act["location"], act["reference product"], act["unit"])] *)
Definition supplier_key : Type := (string * string * string * string)%type.

Definition supplier_key_eqb (a b : supplier_key) : bool :=
  match a, b with
  | (n1, l1, p1, u1), (n2, l2, p2, u2) =>
      (n1 =? n2) && (l1 =? l2) && (p1 =? p2) && (u1 =? u2)
  end.

Definition key_of (act : Activity) : supplier_key :=
  (a_name act, a_location act, a_reference_product act, a_unit act).

(** The inner loop [for exc in ws.production(act)] of
    [get_shares_from_production_volume]: the entry of [act] is assigned
    (not added to), the total is added to. *)
Fixpoint shares_of_production (k : supplier_key) (excs : list Exchange)
         (acc : dict supplier_key Q * Q) : res (dict supplier_key Q * Q) :=
  match excs with
  | [] => Ok acc
  | exc :: rest =>
      match e_production_volume exc with
      | None => Raise KeyError
      | Some pv =>
          shares_of_production k rest
            (dict_set supplier_key_eqb k pv (fst acc), snd acc + pv)
      end
  end.

(** The outer loop [for act in ds]. *)
Fixpoint shares_of_datasets (ds : list Activity)
         (acc : dict supplier_key Q * Q) : res (dict supplier_key Q * Q) :=
  match ds with
  | [] => Ok acc
  | act :: rest =>
      acc' <- shares_of_production (key_of act) (ws_production act) acc ;;
      shares_of_datasets rest acc'
  end.

(** [for d in dict_act: dict_act[d] /= total_production_volume]:
    a float division, which raises on a zero divisor as soon as there is
    one entry to divide. *)
Definition normalise (dict_act : dict supplier_key Q) (total : Q)
  : res (dict supplier_key Q) :=
  match dict_act with
  | [] => Ok []
  | _ :: _ =>
      if Qeq_bool total 0 then Raise ZeroDivisionError
      else Ok (map (fun kv => (fst kv, snd kv / total)) dict_act)
  end.

Definition get_shares_from_production_volume (ds : list Activity)
  : res (dict supplier_key Q) :=
  acc <- shares_of_datasets ds ([], 0) ;;
  normalise (fst acc) (snd acc).

Definition sum_Q (l : list Q) : Q := fold_right Qplus 0 l.

(* ------------------------------------------------------------------ *)
(** ** wurst.rescale_exchange

    A function of the wurst library: [exc["amount"] *= value], and with
    [remove_uncertainty] (its default) ['uncertainty type'] is set to 0,
    ['loc'] to the new amount and the fields 'scale', 'shape', 'minimum'
    and 'maximum' are deleted.  The call
    [rescale_exchange(exc, remind_emission / exc["amount"])] of
    [update_pollutant_emissions] relies on the multiplication to bring
    the amount to [remind_emission]. *)

Definition rescale_exchange (exc : Exchange) (value : Q)
           (remove_uncertainty : bool) : Exchange :=
  let amount := e_amount exc * value in
  if remove_uncertainty then
    mkExchange (e_type exc) (e_name exc) (e_product exc) (e_location exc)
               (e_unit exc) amount (e_production_volume exc) 0%Z (Some amount) []
  else
    mkExchange (e_type exc) (e_name exc) (e_product exc) (e_location exc)
               (e_unit exc) amount (e_production_volume exc)
               (e_uncertainty_type exc) (e_loc exc) (e_uncertainty_fields exc).

(* ------------------------------------------------------------------ *)
(** ** Scenario data and reference tables

    [RemindDataCollection] ([rmd]) and [InventorySet] live in other
    modules; the class reads them through the selections below, already
    interpolated to the year of the run. *)

Record RemindData : Type := mkRemindData {
  (** [gnr_data.sel(region=k, variables=[... "Production volume share" ...])] *)
  gnr_production_volume_share : string -> list Q;
  (** [gnr_data.sel(region=k, variables=[... "Thermal energy consumption" ...])] *)
  gnr_thermal_energy_consumption : string -> list Q;
  (** "Share waste fuel", "Share biomass fuel", "Share fossil fuel" *)
  gnr_fuel_mix : string -> list Q;
  (** "Share of recovered energy, per ton clinker" *)
  gnr_recovered_energy : string -> Q;
  (** "Power consumption", "Power generation" *)
  gnr_power_consumption : string -> Q;
  gnr_power_generation : string -> Q;
  (** [data.sel(variables='Emi|CCO2|FFaI|Industry|Cement', region=k).interp(year)] *)
  emi_cco2_cement : string -> Q;
  (** [data.sel(variables='Emi|CO2|FFaI|Industry|Cement', region=k).interp(year)] *)
  emi_co2_cement : string -> Q;
  (** [cement_emissions.loc[dict(region=..., pollutant=...)]]; [None] is a KeyError *)
  cement_emissions : string -> string -> option Q
}.

Record Tables : Type := mkTables {
  (** [float(self.fuels_lhv[fuel])] *)
  fuels_lhv : string -> Q;
  (** [self.fuels_co2[fuel]["co2"]], [self.fuels_co2[fuel]["bio_share"]] *)
  fuels_co2 : string -> Q;
  fuels_bio_share : string -> Q;
  (** [self.fuel_map[fuel]] *)
  fuel_map : string -> list string;
  (** [self.emissions_map] *)
  emissions_map : dict string string;
  (** [self.clinker_ratio_eco], keyed by (name, location) *)
  clinker_ratio_eco : dict (string * string) Q;
  (** [self.clinker_ratio_remind.sel(region=d)]; [None] is a KeyError *)
  clinker_ratio_remind : string -> option Q
}.

Definition pair_eqb (a b : string * string) : bool :=
  (fst a =? fst b) && (snd a =? snd b).

(* ------------------------------------------------------------------ *)
(** ** The methods of [Cement] that read the crosswalk and the scenario *)

Section Cement.
Variable geo : Geomap.
Variable rmd : RemindData.
Variable tab : Tables.
Variable uuid4 : nat -> string.

(** [Cement.get_suppliers_of_a_region] *)
Definition get_suppliers_of_a_region (db : list Activity)
           (remind_region : string) (ecoinvent_technologies : list string)
           (reference_product : string) : list Activity :=
  get_many
    (fun x =>
       existsb (fun supplier => a_name x =? supplier) ecoinvent_technologies
       && existsb (fun loc => a_location x =? loc)
                  (remind_to_ecoinvent_location geo remind_region)
       && (a_unit x =? "kilogram")
       && (a_reference_product x =? reference_product))
    db.

(** *** Cement.update_pollutant_emissions *)

(** [ws.biosphere(ds, ws.either(ws.contains("name", x) for x in emissions_map))] *)
Definition is_mapped_pollutant (exc : Exchange) : bool :=
  is_biosphere exc
  && existsb (fun x => str_in x (e_name exc)) (keys (emissions_map tab)).

(** The emission level for the region of the dataset, else that of 'CHA'. *)
Definition remind_emission_of (location label : string) : res Q :=
  match cement_emissions rmd location label with
  | Some v => Ok v
  | None =>
      match cement_emissions rmd "CHA" label with
      | Some v => Ok v
      | None => Raise KeyError
      end
  end.

(** The body of the loop over the matched biosphere exchanges. *)
Definition update_pollutant_exchange (location : string) (exc : Exchange)
  : res Exchange :=
  match dict_get String.eqb (e_name exc) (emissions_map tab) with
  | None => Raise KeyError
  | Some remind_emission_label =>
      remind_emission <- remind_emission_of location remind_emission_label ;;
      if Qeq_bool (e_amount exc) 0 then
        Ok (rescale_exchange exc (remind_emission / 1) true)
      else
        Ok (rescale_exchange exc (remind_emission / e_amount exc) true)
  end.

Fixpoint update_pollutant_exchanges (location : string) (excs : list Exchange)
  : res (list Exchange) :=
  match excs with
  | [] => Ok []
  | exc :: rest =>
      if is_mapped_pollutant exc then
        exc' <- update_pollutant_exchange location exc ;;
        rest' <- update_pollutant_exchanges location rest ;;
        Ok (exc' :: rest')
      else
        rest' <- update_pollutant_exchanges location rest ;;
        Ok (exc :: rest')
  end.

Definition update_pollutant_emissions (ds : Activity) : res Activity :=
  excs <- update_pollutant_exchanges (a_location ds) (a_exchanges ds) ;;
  Ok (set_a_exchanges excs ds).

(** *** Cement.build_clinker_production_datasets *)

(** [list_fuels] *)
Definition list_fuels : list string :=
  ["diesel"; "coal"; "lignite"; "coke"; "fuel"; "meat"; "gas"; "oil";
   "electricity"].

(** [remove_exchanges] empties the dict of every exchange whose name
    contains one of [list_exc]; the emptied dicts are dropped by
    [[v for v in v["exchanges"] if v]] after the fuel loop, and nothing
    reads them in between, so they are dropped here. *)
Definition remove_exchanges (list_exc : list string) (ds : Activity) : Activity :=
  set_a_exchanges
    (filter (fun x => negb (existsb (fun ele => str_in ele (e_name x)) list_exc))
            (a_exchanges ds))
    ds.

(** [x.clip(0, 1)] *)
Definition clip01 (x : Q) : Q := Qmin (Qmax x 0) 1.

(** [x = x.clip(0, 1); x /= x.sum(axis=0)] *)
Definition clip_normalise (xs : list Q) : list Q :=
  let c := map clip01 xs in
  map (fun x => x / sum_Q c) c.

(** Elementwise product of two arrays of the same shape. *)
Fixpoint mul_arrays (a b : list Q) : list Q :=
  match a, b with
  | x :: a', y :: b' => x * y :: mul_arrays a' b'
  | _, _ => []
  end.

(** [energy_input_per_ton_clinker.sum()] *)
Definition energy_input_per_ton_clinker_sum (k : string) : Q :=
  sum_Q (mul_arrays (clip_normalise (gnr_production_volume_share rmd k))
                    (gnr_thermal_energy_consumption rmd k)).

(** [fuel_mix] for region [k] *)
Definition fuel_mix (k : string) : list Q := clip_normalise (gnr_fuel_mix rmd k).

(** The three fuels, in the order of the arrays. *)
Definition fuel_names : list string := ["waste"; "wood pellet"; "hard coal"].

(** [fuel_qty_per_type]: kg of fuel per ton of clinker, per type of fuel *)
Definition fuel_qty_per_type (k : string) : list Q :=
  mul_arrays
    (map (fun m => energy_input_per_ton_clinker_sum k * m * 1) (fuel_mix k))
    (map (fun f => / fuels_lhv tab f) fuel_names).

(** [fuel_fossil_co2_per_type] *)
Definition fuel_fossil_co2_per_type (k : string) : list Q :=
  mul_arrays
    (map (fun m => energy_input_per_ton_clinker_sum k * m) (fuel_mix k))
    (map (fun f => fuels_co2 tab f * (1 - fuels_bio_share tab f)) fuel_names).

(** [fuel_biogenic_co2_per_type] *)
Definition fuel_biogenic_co2_per_type (k : string) : list Q :=
  mul_arrays
    (map (fun m => energy_input_per_ton_clinker_sum k * m) (fuel_mix k))
    (map (fun f => fuels_co2 tab f * fuels_bio_share tab f) fuel_names).

(** The tuples of the fuel loop: (fuel, reference product, fallback region). *)
Definition fuels : list (string * string * string) :=
  [("waste", "waste plastic, mixture", "EUR");
   ("wood pellet", "wood pellet, measured as dry mass", "EUR");
   ("hard coal", "hard coal", "REF")].

(** The suppliers of a fuel for region [k], with one retry in the
    fallback region [fuel[2]] when the first answer is empty. *)
Definition fuel_suppliers_of (db : list Activity) (k : string)
           (fuel : string * string * string) : res (dict supplier_key Q) :=
  match fuel with
  | (fuel0, fuel1, fuel2) =>
      fuel_suppliers <-
        get_shares_from_production_volume
          (get_suppliers_of_a_region db k (fuel_map tab fuel0) fuel1) ;;
      if (length fuel_suppliers =? 0)%nat then
        get_shares_from_production_volume
          (get_suppliers_of_a_region db fuel2 (fuel_map tab fuel0) fuel1)
      else Ok fuel_suppliers
  end.

(** The exchange appended for one supplier.  The amount reads
    [fuel_qty_per_type[2]] whatever the fuel of the loop is. *)
Definition fuel_exchange (k : string) (supplier : supplier_key) (share : Q)
  : Exchange :=
  match supplier with
  | (supplier0, supplier1, supplier2, supplier3) =>
      mkExchange "technosphere" supplier0 (Some supplier2) (Some supplier1)
                 supplier3
                 ((share * nth 2 (fuel_qty_per_type k) 0) / 1000)
                 (Some 0) 0%Z (Some 1) []
  end.

(** [new_exchanges] for one fuel *)
Definition new_fuel_exchanges (k : string) (fuel_suppliers : dict supplier_key Q)
  : list Exchange :=
  map (fun kv => fuel_exchange k (fst kv) (snd kv)) fuel_suppliers.

(** [for fuel in [...]: ...; v["exchanges"].extend(new_exchanges)] *)
Fixpoint add_fuel_exchanges (db : list Activity) (k : string)
         (todo : list (string * string * string)) (excs : list Exchange)
  : res (list Exchange) :=
  match todo with
  | [] => Ok excs
  | fuel :: rest =>
      fuel_suppliers <- fuel_suppliers_of db k fuel ;;
      add_fuel_exchanges db k rest (excs ++ new_fuel_exchanges k fuel_suppliers)
  end.

(** [carbon_capture_rate]: the quotient of captured to emitted CO2, kept
    only when positive.  (A zero denominator gives 0 here.) *)
Definition carbon_capture_rate (k : string) : Q :=
  let r := emi_cco2_cement rmd k / emi_co2_cement rmd k in
  if Qlt_le_dec 0 r then r else 0.

(** [carbon_capture_abs] *)
Definition carbon_capture_abs (k : string) : Q :=
  carbon_capture_rate k
  * ((sum_Q (fuel_biogenic_co2_per_type k)
      + sum_Q (fuel_fossil_co2_per_type k) + 525) / 1000).

(** The electricity and heat exchanges of carbon capture. *)
Definition carbon_capture_exchanges (k : string) : list Exchange :=
  if Qlt_le_dec 0 (emi_cco2_cement rmd k / emi_co2_cement rmd k) then
    let carbon_capture_electricity :=
      carbon_capture_abs k * ((146 # 1000) + (24 # 1000)) in
    let excess_heat_generation :=
      gnr_recovered_energy rmd k * energy_input_per_ton_clinker_sum k in
    let carbon_capture_heat :=
      (carbon_capture_abs k * (348 # 100)) - (excess_heat_generation / 1000) in
    [ mkExchange "technosphere" "market group for electricity, medium voltage"
                 (Some "electricity, medium voltage") (Some k) "kilowatt hour"
                 carbon_capture_electricity (Some 0) 0%Z (Some 1) [];
      mkExchange "technosphere"
                 "steam production, as energy carrier, in chemical industry"
                 (Some "heat, from steam, in chemical industry") (Some "RoW")
                 "megajoule" carbon_capture_heat (Some 0) 0%Z (Some 1) [] ]
  else [].

(** Assign ['amount'] and ['uncertainty type'] = 0 on the first exchange
    of the given name; [None] when there is none. *)
Fixpoint set_first_named (name : string) (amount : Q) (excs : list Exchange)
  : option (list Exchange) :=
  match excs with
  | [] => None
  | e :: rest =>
      if e_name e =? name then
        Some (mkExchange (e_type e) (e_name e) (e_product e) (e_location e)
                         (e_unit e) amount (e_production_volume e) 0%Z
                         (e_loc e) (e_uncertainty_fields e) :: rest)
      else option_map (cons e) (set_first_named name amount rest)
  end.

(** The body of [for k, v in d_act_clinker.items()], before the update
    of the pollutants. *)
Definition build_clinker_production_dataset (db : list Activity)
           (k : string) (v : Activity) : res Activity :=
  excs1 <- add_fuel_exchanges db k fuels (a_exchanges v) ;;
  let excs2 := excs1 ++ carbon_capture_exchanges k in
  let fossil :=
    ((sum_Q (fuel_fossil_co2_per_type k) + 525) / 1000)
    * (1 - carbon_capture_rate k) in
  let biogenic :=
    (sum_Q (fuel_biogenic_co2_per_type k) / 1000)
    * (1 - carbon_capture_rate k) in
  match set_first_named "Carbon dioxide, fossil" fossil excs2 with
  | None => Raise IndexError
  | Some excs3 =>
      match set_first_named "Carbon dioxide, non-fossil" biogenic excs3 with
      | Some excs4 => Ok (set_a_exchanges excs4 v)
      | None =>
          Ok (set_a_exchanges
                (excs3 ++ [mkExchange "biosphere" "Carbon dioxide, non-fossil"
                                      None None "kilogram" biogenic (Some 0)
                                      0%Z (Some 1) []])
                v)
      end
  end.

Fixpoint build_clinker_loop (db : list Activity) (d_act : dict string Activity)
  : res (dict string Activity) :=
  match d_act with
  | [] => Ok []
  | (k, v) :: rest =>
      v' <- build_clinker_production_dataset db k v ;;
      rest' <- build_clinker_loop db rest ;;
      Ok ((k, v') :: rest')
  end.

Fixpoint update_pollutant_loop (d_act : dict string Activity)
  : res (dict string Activity) :=
  match d_act with
  | [] => Ok []
  | (k, v) :: rest =>
      v' <- update_pollutant_emissions v ;;
      rest' <- update_pollutant_loop rest ;;
      Ok ((k, v') :: rest')
  end.

Definition build_clinker_production_datasets (st : State)
  : res (dict string Activity * State) :=
  r <- fetch_proxies geo uuid4 "clinker production" "clinker" st ;;
  let d_act_clinker :=
    map (fun kv => (fst kv, remove_exchanges list_fuels (snd kv))) (fst r) in
  d1 <- build_clinker_loop (db (snd r)) d_act_clinker ;;
  d2 <- update_pollutant_loop d1 ;;
  Ok (d2, snd r).

(** *** Cement.relink_datasets *)

Definition option_string_eqb (a : option string) (b : string) : bool :=
  match a with
  | Some s => s =? b
  | None => false
  end.

(** The body of [for exc in act['exchanges']]; a matched exchange
    without a ['location'] is a KeyError. *)
Definition relink_exchange (name ref_product : string) (exc : Exchange)
  : res Exchange :=
  if (e_name exc =? name) && option_string_eqb (e_product exc) ref_product
     && is_technosphere exc
  then
    match e_location exc with
    | None => Raise KeyError
    | Some old_location =>
        if negb (existsb (String.eqb old_location) (list_remind_regions geo))
        then Ok (set_e_location
                   (Some (ecoinvent_to_remind_location geo old_location)) exc)
        else Ok exc
    end
  else Ok exc.

Fixpoint relink_exchanges (name ref_product : string) (excs : list Exchange)
  : res (list Exchange) :=
  match excs with
  | [] => Ok []
  | exc :: rest =>
      exc' <- relink_exchange name ref_product exc ;;
      rest' <- relink_exchanges name ref_product rest ;;
      Ok (exc' :: rest')
  end.

Fixpoint relink_datasets (name ref_product : string) (db : list Activity)
  : res (list Activity) :=
  match db with
  | [] => Ok []
  | act :: rest =>
      excs <- relink_exchanges name ref_product (a_exchanges act) ;;
      rest' <- relink_datasets name ref_product rest ;;
      Ok (set_a_exchanges excs act :: rest')
  end.

(** *** Cement.adjust_clinker_ratio *)

(** [np.nan_to_num] on one entry *)
Definition nan_to_num (x : option Q) : Q :=
  match x with
  | Some q => q
  | None => 0
  end.

(** [share[share == 0] = np.nan] on one entry *)
Definition nan_if_zero (s : option Q) : option Q :=
  match s with
  | Some q => if Qeq_bool q 0 then None else Some q
  | None => None
  end.

(** [share >= 0.001] on one entry ([nan >= x] is false) *)
Definition above_floor (s : option Q) : bool :=
  match s with
  | Some q => Qle_bool (1 # 1000) q
  | None => false
  end.

(** [np.where(share >= 0.001, ratio, np.nan)] *)
Fixpoint mask_ratio (share ratio : list (option Q)) : list (option Q) :=
  match share, ratio with
  | s :: share', r :: ratio' =>
      (if above_floor s then r else None) :: mask_ratio share' ratio'
  | _, _ => []
  end.

(** [np.nanargmax], [np.nanargmin] with the value found: the first index
    of the largest (smallest) entry that is not [nan]; [None] when every
    entry is [nan] or the array is empty. *)
Fixpoint nanmax (l : list (option Q)) : option (nat * Q) :=
  match l with
  | [] => None
  | x :: l' =>
      match x, nanmax l' with
      | None, None => None
      | None, Some (j, b) => Some (S j, b)
      | Some q, None => Some (O, q)
      | Some q, Some (j, b) => if Qle_bool b q then Some (O, q) else Some (S j, b)
      end
  end.

Fixpoint nanmin (l : list (option Q)) : option (nat * Q) :=
  match l with
  | [] => None
  | x :: l' =>
      match x, nanmin l' with
      | None, None => None
      | None, Some (j, b) => Some (S j, b)
      | Some q, None => Some (O, q)
      | Some q, Some (j, b) => if Qle_bool q b then Some (O, q) else Some (S j, b)
      end
  end.

(** ValueError on an all-nan slice. *)
Definition nanargmax (l : list (option Q)) : res nat :=
  match nanmax l with
  | Some (i, _) => Ok i
  | None => Raise ValueError
  end.

Definition nanargmin (l : list (option Q)) : res nat :=
  match nanmin l with
  | Some (i, _) => Ok i
  | None => Raise ValueError
  end.

(** [share[i] += d] *)
Fixpoint add_at (i : nat) (d : Q) (share : list (option Q)) : list (option Q) :=
  match share, i with
  | [], _ => []
  | s :: share', O => option_map (fun q => q + d) s :: share'
  | s :: share', S i' => s :: add_at i' d share'
  end.

(** [(np.nan_to_num(ratio) * np.nan_to_num(share)).sum()] *)
Fixpoint weighted_sum (ratio share : list (option Q)) : Q :=
  match ratio, share with
  | r :: ratio', s :: share' =>
      nan_to_num r * nan_to_num s + weighted_sum ratio' share'
  | _, _ => 0
  end.

(** The arrays of the loop and the running average. *)
Record Mix : Type := mkMix {
  share : list (option Q);
  ratio : list (option Q);
  average_ratio : Q
}.

(** One pass through the body of the [while] loop. *)
Definition adjust_step (m : Mix) : res Mix :=
  let share1 := map nan_if_zero (share m) in
  let ratio1 := mask_ratio share1 (ratio m) in
  highest_ratio <- nanargmax ratio1 ;;
  lowest_ratio <- nanargmin ratio1 ;;
  let share2 := add_at highest_ratio (- (1 # 100)) share1 in
  let share3 := add_at lowest_ratio (1 # 100) share2 in
  Ok (mkMix share3 ratio1 (weighted_sum ratio1 share3)).

(** [while average_ratio > ratio_to_reach: ...], at most [fuel] passes. *)
Fixpoint adjust_loop (fuel : nat) (ratio_to_reach : Q) (m : Mix) : outcome Mix :=
  if Qle_bool (average_ratio m) ratio_to_reach then Done m
  else
    match fuel with
    | O => Running
    | S fuel' =>
        match adjust_step m with
        | Ok m' => adjust_loop fuel' ratio_to_reach m'
        | Raise e => Failed e
        end
    end.

(** ['cement' in exc['product'] and exc['type'] == "technosphere"] *)
Definition is_cement_supply (exc : Exchange) : res bool :=
  match e_product exc with
  | None => Raise TypeError
  | Some p => Ok (str_in "cement" p && is_technosphere exc)
  end.

(** The first loop over the exchanges: the shares and the ratios. *)
Fixpoint collect_mix (excs : list Exchange) : res (list Q * list Q) :=
  match excs with
  | [] => Ok ([], [])
  | exc :: rest =>
      b <- is_cement_supply exc ;;
      if b then
        match e_location exc with
        | None => Raise KeyError
        | Some loc =>
            match dict_get pair_eqb (e_name exc, loc) (clinker_ratio_eco tab) with
            | None => Raise KeyError
            | Some r =>
                sr <- collect_mix rest ;;
                Ok (e_amount exc :: fst sr, r :: snd sr)
            end
        end
      else collect_mix rest
  end.

(** The last loop over the exchanges: [exc['amount'] = share[count]]. *)
Fixpoint write_back (excs : list Exchange) (share : list Q)
  : res (list Exchange) :=
  match excs with
  | [] => Ok []
  | exc :: rest =>
      b <- is_cement_supply exc ;;
      if b then
        match share with
        | [] => Raise IndexError
        | s :: share' =>
            rest' <- write_back rest share' ;;
            Ok (set_e_amount s exc :: rest')
        end
      else
        rest' <- write_back rest share ;;
        Ok (exc :: rest')
  end.

Definition initial_mix (share ratio : list Q) : Mix :=
  mkMix (map Some share) (map Some ratio)
        (weighted_sum (map Some ratio) (map Some share)).

(** The body of [for d in d_act], at most [fuel] passes of the loop. *)
Definition adjust_clinker_ratio_of (fuel : nat) (d : string) (act : Activity)
  : outcome Activity :=
  match clinker_ratio_remind tab d with
  | None => Failed KeyError
  | Some ratio_to_reach =>
      match collect_mix (a_exchanges act) with
      | Raise e => Failed e
      | Ok (share0, ratio0) =>
          match adjust_loop fuel ratio_to_reach (initial_mix share0 ratio0) with
          | Running => Running
          | Failed e => Failed e
          | Done m =>
              match write_back (a_exchanges act) (map nan_to_num (share m)) with
              | Raise e => Failed e
              | Ok excs => Done (set_a_exchanges excs act)
              end
          end
      end
  end.

Fixpoint adjust_clinker_ratio (fuel : nat) (d_act : dict string Activity)
  : outcome (dict string Activity) :=
  match d_act with
  | [] => Done []
  | (d, act) :: rest =>
      match adjust_clinker_ratio_of fuel d act with
      | Running => Running
      | Failed e => Failed e
      | Done act' =>
          match adjust_clinker_ratio fuel rest with
          | Running => Running
          | Failed e => Failed e
          | Done rest' => Done ((d, act') :: rest')
          end
      end
  end.

End Cement.

(* ------------------------------------------------------------------ *)
(** ** Invariants and sample data *)

(** What the loop maintains on [d_act]: distinct region keys, each bound
    to a copy that carries the key as its location and the requested
    name and reference product. *)
Definition proxies_ok (name ref_prod : string) (d_act : dict string Activity)
  : Prop :=
  NoDup (keys d_act) /\
  forall k v, In (k, v) d_act ->
    a_location v = k /\ a_name v = name /\ a_reference_product v = ref_prod.


(** The production volumes read by [get_shares_from_production_volume],
    in the order in which its two loops meet them. *)
Definition production_volumes (ds : list Activity) : list (option Q) :=
  flat_map (fun act => map e_production_volume (ws_production act)) ds.

(** A dataset with exactly one production exchange, of volume [pv]. *)
Definition produces (act : Activity) (pv : Q) : Prop :=
  exists exc, ws_production act = [exc] /\ e_production_volume exc = Some pv.

(** The exchanges that [relink_datasets(name, ref_product)] looks at. *)
Definition relinked (name ref_product : string) (exc : Exchange) : bool :=
  (e_name exc =? name) && option_string_eqb (e_product exc) ref_product
  && is_technosphere exc.

(** The location of an exchange is one of the regions. *)
Definition in_region (geo : Geomap) (exc : Exchange) : Prop :=
  exists loc, e_location exc = Some loc /\ In loc (list_remind_regions geo).

(** *** Measures on the arrays of [adjust_clinker_ratio] *)

(** The sum of the shares, [nan] counting for 0. *)
Definition total_share (share : list (option Q)) : Q :=
  sum_Q (map nan_to_num share).

(** The sum of the shares whose ratio is not masked. *)
Fixpoint unmasked_share (ratio share : list (option Q)) : Q :=
  match ratio, share with
  | r :: ratio', s :: share' =>
      (match r with Some _ => nan_to_num s | None => 0 end)
      + unmasked_share ratio' share'
  | _, _ => 0
  end.

(** How many times 0.01 can be taken from a share before it is under
    the floor of 0.001. *)
Definition passes_left (q : Q) : nat :=
  if Qle_bool (1 # 1000) q
  then S (Z.to_nat (Qfloor ((q - (1 # 1000)) * 100)))
  else O.

(** The passes left to the suppliers whose ratio is above [rho]. *)
Fixpoint passes_above (rho : Q) (ratio share : list (option Q)) : nat :=
  match ratio, share with
  | r :: ratio', s :: share' =>
      (match r, s with
       | Some x, Some q => if Qle_bool x rho then O else passes_left q
       | _, _ => O
       end + passes_above rho ratio' share')%nat
  | _, _ => O
  end.

(** A bound on the number of passes of the loop, from the shares at
    entry: the passes left to every supplier, and one more. *)
Definition passes_bound (share : list Q) : nat :=
  S (fold_right (fun q n => (passes_left q + n)%nat) O share).

(** One supplier in a state of the loop, for a lowest ratio [rho]:
    a ratio that is not masked comes with a share that is a number, and
    is at least [rho] when the share is over the floor; no share is
    under -0.009. *)
Definition cell (rho : Q) (s r : option Q) : Prop :=
  (forall x, r = Some x -> exists q, s = Some q /\ (1 # 1000 <= q -> rho <= x)) /\
  (forall q, s = Some q -> - (9 # 1000) <= q).

(** The same right after the masking of a pass. *)
Definition cell_masked (rho : Q) (s r : option Q) : Prop :=
  (forall x, r = Some x -> exists q, s = Some q /\ 1 # 1000 <= q /\ rho <= x) /\
  (forall q, s = Some q -> - (9 # 1000) <= q).

(** Some supplier of ratio [rho] has a share over the floor. *)
Definition anchored (rho : Q) (share ratio : list (option Q)) : Prop :=
  exists i q, nth_error share i = Some (Some q) /\ 1 # 1000 <= q /\
              nth_error ratio i = Some (Some rho).

(** The invariant of the loop, for a lowest ratio [rho] and a total
    share [total]. *)
Definition mix_ok (rho total : Q) (m : Mix) : Prop :=
  Forall2 (cell rho) (share m) (ratio m) /\
  anchored rho (share m) (ratio m) /\
  total_share (share m) == total /\
  average_ratio m == weighted_sum (ratio m) (share m).

(** The shares that [adjust_clinker_ratio] reads and writes back: the
    amounts of the technosphere exchanges whose product contains
    'cement'. *)
Definition is_cement (exc : Exchange) : bool :=
  match is_cement_supply exc with
  | Ok b => b
  | Raise _ => false
  end.

Definition cement_shares (act : Activity) : list Q :=
  map e_amount (filter is_cement (a_exchanges act)).

(** A small database and crosswalk. *)
Definition db_two : list Activity :=
  [ mkActivity "clinker production" "clinker" "CH" "kilogram" "a"
      [mkExchange "production" "clinker production" (Some "clinker") (Some "CH")
                  "kilogram" 1 (Some 3) 0%Z None []];
    mkActivity "market for clinker" "clinker" "CH" "kilogram" "b" [] ].

Definition geo_two : Geomap :=
  mkGeomap (fun l => if l =? "CH" then "EUR" else "CAZ")
           (fun r => if r =? "EUR" then ["CH"] else ["RoW"])
           ["CAZ"; "EUR"].

(** One generic clinker dataset at "RoW", which the crosswalk puts in
    "CAZ"; the regions are "CAZ" and "EUR". *)
Definition clinker_row : Activity :=
  mkActivity "clinker production" "clinker" "RoW" "kilogram" "c0"
    [mkExchange "production" "clinker production" (Some "clinker") (Some "RoW")
                "kilogram" 1 (Some 10) 0%Z None [];
     mkExchange "biosphere" "Carbon dioxide, fossil" None None "kilogram"
                (85 # 100) None 2%Z (Some (85 # 100)) [("scale", 1 # 10)]].

Definition cement_row : Activity :=
  mkActivity "cement production, Portland" "cement, Portland" "RoW" "kilogram"
    "c1"
    [mkExchange "production" "cement production, Portland"
                (Some "cement, Portland") (Some "RoW") "kilogram" 1 (Some 5)
                0%Z None [];
     mkExchange "technosphere" "clinker production" (Some "clinker")
                (Some "RoW") "kilogram" (9 # 10) None 0%Z None []].

Definition db_row : list Activity := [clinker_row; cement_row].

Definition geo_row : Geomap :=
  mkGeomap (fun l => if l =? "CH" then "EUR" else "CAZ")
           (fun r => if r =? "EUR" then ["CH"] else ["RoW"])
           ["CAZ"; "EUR"].

(** Suppliers of fuel at "RoW". *)
Definition supplier (name ref_prod loc : string) (pv : option Q) : Activity :=
  mkActivity name ref_prod loc "kilogram" name
    [mkExchange "production" name (Some ref_prod) (Some loc) "kilogram" 1 pv
                0%Z None []].

Definition waste_row : Activity :=
  supplier "treatment of waste plastic" "waste plastic, mixture" "RoW" (Some 4).

Definition coal_row : Activity :=
  supplier "market for hard coal" "hard coal" "RoW" (Some 2).

Definition coal_za : Activity :=
  supplier "market for hard coal" "hard coal" "ZA" (Some 6).

(** A supplier whose production volume is zero, a dataset with two
    production exchanges, and one with none. *)
Definition idle_row : Activity :=
  supplier "market for hard coal" "hard coal" "RoW" (Some 0).

Definition twice_row : Activity :=
  mkActivity "market for hard coal" "hard coal" "RoW" "kilogram" "t"
    [mkExchange "production" "market for hard coal" (Some "hard coal")
                (Some "RoW") "kilogram" 1 (Some 1) 0%Z None [];
     mkExchange "production" "market for hard coal" (Some "hard coal")
                (Some "RoW") "kilogram" 1 (Some 3) 0%Z None []].

Definition bare_row : Activity :=
  mkActivity "market for hard coal" "hard coal" "RoW" "kilogram" "n" [].

(** Scenario data and tables for the samples: one kiln type of 3000 MJ
    per ton of clinker, a fuel mix of 20% waste, 10% biomass and 70%
    fossil fuel, no carbon capture, and a sulfur dioxide level of 5.2 in
    "CAZ". *)
Definition rmd_ex : RemindData :=
  mkRemindData
    (fun _ => [1]) (fun _ => [3000]) (fun _ => [2 # 10; 1 # 10; 7 # 10])
    (fun _ => 0) (fun _ => 100) (fun _ => 10) (fun _ => 0) (fun _ => 1)
    (fun region pollutant =>
       if (region =? "CAZ") && (pollutant =? "SO2") then Some (52 # 10)
       else None).

Definition tab_ex : Tables :=
  mkTables
    (fun f => if f =? "waste" then 10
              else if f =? "wood pellet" then 16 else 25)
    (fun _ => 1 # 10)
    (fun f => if f =? "waste" then 1 # 2
              else if f =? "wood pellet" then 1 else 0)
    (fun f => if f =? "waste" then ["treatment of waste plastic"]
              else if f =? "wood pellet" then ["market for wood pellet"]
              else ["market for hard coal"])
    [("Sulfur dioxide", "SO2")]
    [(("cement production, Portland", "CAZ"), 9 # 10);
     (("cement production, pozzolana and fly ash 15-50%", "CAZ"), 5 # 10)]
    (fun r => if r =? "CAZ" then Some (8 # 10) else None).

(** A sulfur dioxide flow whose amount is zero. *)
Definition so2_zero : Exchange :=
  mkExchange "biosphere" "Sulfur dioxide" None None "kilogram" 0 None 2%Z
             (Some 0) [("scale", 1 # 10)].

(** The "CAZ" copy of the clinker dataset, with that flow. *)
Definition clinker_caz : Activity :=
  mkActivity "clinker production" "clinker" "CAZ" "kilogram" "u0"
    [mkExchange "production" "clinker production" (Some "clinker") (Some "CAZ")
                "kilogram" 1 (Some 10) 0%Z None [];
     mkExchange "biosphere" "Carbon dioxide, fossil" None None "kilogram"
                (85 # 100) None 2%Z (Some (85 # 100)) [("scale", 1 # 10)];
     so2_zero].

(** A market of "CAZ" drawing 90% of Portland cement (clinker ratio
    0.9) and 10% of pozzolana cement (clinker ratio 0.5); the target of
    the sample tables is 0.8. *)
Definition market_caz : Activity :=
  mkActivity "market for cement, unspecified" "cement, unspecified" "CAZ"
    "kilogram" "m0"
    [mkExchange "production" "market for cement, unspecified"
                (Some "cement, unspecified") (Some "CAZ") "kilogram" 1 (Some 7)
                0%Z None [];
     mkExchange "technosphere" "cement production, Portland"
                (Some "cement, Portland") (Some "CAZ") "kilogram" (9 # 10) None
                0%Z None [];
     mkExchange "technosphere" "cement production, pozzolana and fly ash 15-50%"
                (Some "cement, pozzolana and fly ash 15-50%") (Some "CAZ")
                "kilogram" (1 # 10) None 0%Z None []].

(** Two suppliers of ratios 0.5 and 0.9 where the first has a share
    under the floor; the target is 0.8. *)
Definition mix_stuck : Mix :=
  initial_mix [5 # 10000; 9995 # 10000] [5 # 10; 9 # 10].

(** Three suppliers of ratios 0.9, 0.6 and 0.5, with shares 0.005,
    0.0505 and 0.9445, all over the floor and of sum 1; the target is
    0.5022. *)
Definition mix_drift : Mix :=
  initial_mix [5 # 1000; 505 # 10000; 9445 # 10000] [9 # 10; 6 # 10; 5 # 10].

(** The state after [k] passes of the loop, when the loop makes them. *)
Fixpoint run_passes (k : nat) (ratio_to_reach : Q) (m : Mix) : option Mix :=
  match k with
  | O => Some m
  | S k' =>
      if Qle_bool (average_ratio m) ratio_to_reach then None
      else
        match adjust_step m with
        | Ok m' => run_passes k' ratio_to_reach m'
        | Raise _ => None
        end
  end.

(** A state where only the last supplier is over the floor, and where
    its share times its ratio, like the running average, is over the
    target. *)
Definition lone (target : Q) (m : Mix) : Prop :=
  exists low masks q r,
    share m = low ++ [Some q] /\
    ratio m = masks ++ [Some r] /\
    length masks = length low /\
    Forall (fun s => above_floor (nan_if_zero s) = false) low /\
    1 # 1000 <= q /\
    target < r * q /\
    target < average_ratio m.

(** Three suppliers of ratios 0.9, 0.5 and 0.49 and shares 0.005, 0.5
    and 0.495. *)
Definition mix_three : Mix :=
  initial_mix [5 # 1000; 5 # 10; 495 # 1000] [9 # 10; 5 # 10; 49 # 100].


(* ------------------------------------------------------------------ *)
(** ** The other methods of [Cement] *)

Section CementMore.
Variable geo : Geomap.
Variable rmd : RemindData.
Variable tab : Tables.
Variable uuid4 : nat -> string.

(** [Cement.build_clinker_market_datasets] *)
Definition build_clinker_market_datasets (st : State)
  : res (dict string Activity * State) :=
  fetch_proxies geo uuid4 "market for clinker" "clinker" st.

(** The body of the inner loop of [update_electricity_exchanges], for the
    dataset of region [act]: the amount of a technosphere exchange in
    kilowatt hours is overwritten, nothing else is. *)
Definition update_electricity_exchange (act : string) (exc : Exchange)
  : Exchange :=
  if is_technosphere exc && (e_unit exc =? "kilowatt hour")
  then set_e_amount
         ((gnr_power_consumption rmd act - gnr_power_generation rmd act) / 1000)
         exc
  else exc.

(** [Cement.update_electricity_exchanges] *)
Definition update_electricity_exchanges (d_act : dict string Activity)
  : dict string Activity :=
  map (fun kv =>
         (fst kv,
          set_a_exchanges
            (map (update_electricity_exchange (fst kv)) (a_exchanges (snd kv)))
            (snd kv)))
      d_act.

(** [Cement.update_cement_production_datasets] *)
Definition update_cement_production_datasets (name ref_prod : string)
           (st : State) : res (dict string Activity * State) :=
  r <- fetch_proxies geo uuid4 name ref_prod st ;;
  Ok (update_electricity_exchanges (fst r), snd r).

End CementMore.

(** The first exchange of a given name. *)
Definition first_named (name : string) (excs : list Exchange) : option Exchange :=
  find (fun e => e_name e =? name) excs.

(** The source location that [fetch_proxies] looks up for region [r]. *)
Definition source_location (geo : Geomap) (name ref_prod : string)
           (db : list Activity) (r : string) : string :=
  dict_get_default String.eqb r "RoW" (d_map geo name ref_prod db).

(** The reference products of the three fuels of [fuels]. *)
Definition fuel_products : list string :=
  ["waste plastic, mixture"; "wood pellet, measured as dry mass"; "hard coal"].

(** [exc] is a technosphere exchange in kilograms that carries the
    name, the reference product and the location of a fuel dataset of
    [db]. *)
Definition refers_to_fuel (db : list Activity) (exc : Exchange) : Prop :=
  is_technosphere exc = true /\ e_unit exc = "kilogram" /\
  exists act,
    In act db /\ e_name exc = a_name act /\
    e_product exc = Some (a_reference_product act) /\
    e_location exc = Some (a_location act) /\
    In (a_reference_product act) fuel_products.

(** *** What [relink_datasets] does to one exchange *)

(** A matched exchange on which [exc['location']] fails. *)
Definition unlocated (name ref_product : string) (exc : Exchange) : bool :=
  relinked name ref_product exc
  && match e_location exc with
     | None => true
     | Some _ => false
     end.

(** The exchange as the loop body leaves it when it does not fail. *)
Definition relink_target (geo : Geomap) (name ref_product : string)
           (exc : Exchange) : Exchange :=
  match e_location exc with
  | Some old_location =>
      if relinked name ref_product exc
         && negb (existsb (String.eqb old_location) (list_remind_regions geo))
      then set_e_location (Some (ecoinvent_to_remind_location geo old_location))
                          exc
      else exc
  | None => exc
  end.

Definition relink_targets (geo : Geomap) (name ref_product : string)
           (act : Activity) : Activity :=
  set_a_exchanges (map (relink_target geo name ref_product) (a_exchanges act))
                  act.

(** A Portland cement dataset at "RoW" that draws electricity for
    grinding. *)
Definition grinding_row : Activity :=
  mkActivity "cement production, Portland" "cement, Portland" "RoW" "kilogram"
    "c2"
    [mkExchange "production" "cement production, Portland"
                (Some "cement, Portland") (Some "RoW") "kilogram" 1 (Some 5)
                0%Z None [];
     mkExchange "technosphere" "market for electricity, medium voltage"
                (Some "electricity, medium voltage") (Some "RoW")
                "kilowatt hour" (4 # 100) None 0%Z None [];
     mkExchange "technosphere" "clinker production" (Some "clinker")
                (Some "RoW") "kilogram" (9 # 10) None 0%Z None []].

(* ------------------------------------------------------------------ *)
(** ** Cement.add_datasets_to_database *)

Definition of_res {A : Type} (r : res A) : outcome A :=
  match r with
  | Ok a => Done a
  | Raise e => Failed e
  end.

Definition and_then {A B : Type} (m : outcome A) (k : A -> outcome B)
  : outcome B :=
  match m with
  | Done a => k a
  | Failed e => Failed e
  | Running => Running
  end.

Notation "x <-- m ;; k" := (and_then m (fun x => k))
  (at level 61, m at next level, right associativity).

(** The cement production datasets of ecoinvent 3.5, as (name, reference product). *)
Definition cement_production_35 : list (string * string) :=
  [ ("cement production, alternative constituents 21-35%",
     "cement, alternative constituents 21-35%");
    ("cement production, alternative constituents 6-20%",
     "cement, alternative constituents 6-20%");
    ("cement production, blast furnace slag 18-30% and 18-30% other alternative constituents",
     "cement, blast furnace slag 18-30% and 18-30% other alternative constituents");
    ("cement production, blast furnace slag 25-70%, US only",
     "cement, blast furnace slag 25-70%, US only");
    ("cement production, blast furnace slag 31-50% and 31-50% other alternative constituents",
     "cement, blast furnace slag 31-50% and 31-50% other alternative constituents");
    ("cement production, blast furnace slag 36-65%, non-US",
     "cement, blast furnace slag 36-65%, non-US");
    ("cement production, blast furnace slag 5-25%, US only",
     "cement, blast furnace slag 5-25%, US only");
    ("cement production, blast furnace slag 70-100%, non-US",
     "cement, blast furnace slag 70-100%, non-US");
    ("cement production, blast furnace slag 70-100%, US only",
     "cement, blast furnace slag 70-100%, US only");
    ("cement production, blast furnace slag 81-95%, non-US",
     "cement, blast furnace slag 81-95%, non-US");
    ("cement production, blast furnace slag, 66-80%, non-US",
     "cement, blast furnace slag, 66-80%, non-US");
    ("cement production, Portland",
     "cement, Portland");
    ("cement production, pozzolana and fly ash 11-35%, non-US",
     "cement, pozzolana and fly ash 11-35%, non-US");
    ("cement production, pozzolana and fly ash 15-40%, US only",
     "cement, pozzolana and fly ash 15-40%, US only");
    ("cement production, pozzolana and fly ash 36-55%,non-US",
     "cement, pozzolana and fly ash 36-55%,non-US");
    ("cement production, pozzolana and fly ash 5-15%, US only",
     "cement, pozzolana and fly ash 5-15%, US only") ].

(** The cement markets of ecoinvent 3.5, as (name, reference product). *)
Definition cement_markets_35 : list (string * string) :=
  [ ("market for cement, alternative constituents 21-35%",
     "cement, alternative constituents 21-35%");
    ("market for cement, alternative constituents 6-20%",
     "cement, alternative constituents 6-20%");
    ("market for cement, blast furnace slag 18-30% and 18-30% other alternative constituents",
     "cement, blast furnace slag 18-30% and 18-30% other alternative constituents");
    ("market for cement, blast furnace slag 25-70%, US only",
     "cement, blast furnace slag 25-70%, US only");
    ("market for cement, blast furnace slag 31-50% and 31-50% other alternative constituents",
     "cement, blast furnace slag 31-50% and 31-50% other alternative constituents");
    ("market for cement, blast furnace slag 36-65%, non-US",
     "cement, blast furnace slag 36-65%, non-US");
    ("market for cement, blast furnace slag 5-25%, US only",
     "cement, blast furnace slag 5-25%, US only");
    ("market for cement, blast furnace slag 70-100%, non-US",
     "cement, blast furnace slag 70-100%, non-US");
    ("market for cement, blast furnace slag 70-100%, US only",
     "cement, blast furnace slag 70-100%, US only");
    ("market for cement, blast furnace slag 81-95%, non-US",
     "cement, blast furnace slag 81-95%, non-US");
    ("market for cement, blast furnace slag, 66-80%, non-US",
     "cement, blast furnace slag, 66-80%, non-US");
    ("market for cement, Portland",
     "cement, Portland");
    ("market for cement, pozzolana and fly ash 11-35%, non-US",
     "cement, pozzolana and fly ash 11-35%, non-US");
    ("market for cement, pozzolana and fly ash 15-40%, US only",
     "cement, pozzolana and fly ash 15-40%, US only");
    ("market for cement, pozzolana and fly ash 36-55%,non-US",
     "cement, pozzolana and fly ash 36-55%,non-US");
    ("market for cement, pozzolana and fly ash 5-15%, US only",
     "cement, pozzolana and fly ash 5-15%, US only") ].

(** The cement production datasets of the later versions, as (name, reference product). *)
Definition cement_production_36 : list (string * string) :=
  [ ("cement production, Portland",
     "cement, Portland");
    ("cement production, blast furnace slag 35-70%",
     "cement, blast furnace slag 35-70%");
    ("cement production, blast furnace slag 6-34%",
     "cement, blast furnace slag 6-34%");
    ("cement production, limestone 6-10%",
     "cement, limestone 6-10%");
    ("cement production, pozzolana and fly ash 15-50%",
     "cement, pozzolana and fly ash 15-50%");
    ("cement production, pozzolana and fly ash 6-14%",
     "cement, pozzolana and fly ash 6-14%");
    ("cement production, alternative constituents 6-20%",
     "cement, alternative constituents 6-20%");
    ("cement production, alternative constituents 21-35%",
     "cement, alternative constituents 21-35%");
    ("cement production, blast furnace slag 18-30% and 18-30% other alternative constituents",
     "cement, blast furnace slag 18-30% and 18-30% other alternative constituents");
    ("cement production, blast furnace slag 31-50% and 31-50% other alternative constituents",
     "cement, blast furnace slag 31-50% and 31-50% other alternative constituents");
    ("cement production, blast furnace slag 36-65%",
     "cement, blast furnace slag 36-65%");
    ("cement production, blast furnace slag 66-80%",
     "cement, blast furnace slag, 66-80%");
    ("cement production, blast furnace slag 81-95%",
     "cement, blast furnace slag 81-95%");
    ("cement production, pozzolana and fly ash 11-35%",
     "cement, pozzolana and fly ash 11-35%");
    ("cement production, pozzolana and fly ash 36-55%",
     "cement, pozzolana and fly ash 36-55%");
    ("cement production, alternative constituents 45%",
     "cement, alternative constituents 45%");
    ("cement production, blast furnace slag 40-70%",
     "cement, blast furnace 40-70%");
    ("cement production, pozzolana and fly ash 25-35%",
     "cement, pozzolana and fly ash 25-35%");
    ("cement production, limestone 21-35%",
     "cement, limestone 21-35%");
    ("cement production, blast furnace slag 21-35%",
     "cement, blast furnace slag 21-35%");
    ("cement production, blast furnace slag 25-70%",
     "cement, blast furnace slag 25-70%");
    ("cement production, blast furnace slag 5-25%",
     "cement, blast furnace slag 5-25%");
    ("cement production, blast furnace slag 6-20%",
     "cement, blast furnace slag 6-20%");
    ("cement production, blast furnace slag 70-100%",
     "cement, blast furnace slag 70-100%");
    ("cement production, pozzolana and fly ash 15-40%",
     "cement, pozzolana and fly ash 15-40%");
    ("cement production, pozzolana and fly ash 5-15%",
     "cement, pozzolana and fly ash 5-15%") ].

(** The cement markets of the later versions, as (name, reference product). *)
Definition cement_markets_36 : list (string * string) :=
  [ ("market for cement, Portland",
     "cement, Portland");
    ("market for cement, blast furnace slag 35-70%",
     "cement, blast furnace slag 35-70%");
    ("market for cement, blast furnace slag 6-34%",
     "cement, blast furnace slag 6-34%");
    ("market for cement, limestone 6-10%",
     "cement, limestone 6-10%");
    ("market for cement, pozzolana and fly ash 15-50%",
     "cement, pozzolana and fly ash 15-50%");
    ("market for cement, pozzolana and fly ash 6-14%",
     "cement, pozzolana and fly ash 6-14%");
    ("market for cement, alternative constituents 6-20%",
     "cement, alternative constituents 6-20%");
    ("market for cement, alternative constituents 21-35%",
     "cement, alternative constituents 21-35%");
    ("market for cement, blast furnace slag 18-30% and 18-30% other alternative constituents",
     "cement, blast furnace slag 18-30% and 18-30% other alternative constituents");
    ("market for cement, blast furnace slag 31-50% and 31-50% other alternative constituents",
     "cement, blast furnace slag 31-50% and 31-50% other alternative constituents");
    ("market for cement, blast furnace slag 36-65%",
     "cement, blast furnace slag 36-65%");
    ("market for cement, blast furnace slag 66-80%",
     "cement, blast furnace slag, 66-80%");
    ("market for cement, blast furnace slag 81-95%",
     "cement, blast furnace slag 81-95%");
    ("market for cement, pozzolana and fly ash 11-35%",
     "cement, pozzolana and fly ash 11-35%");
    ("market for cement, pozzolana and fly ash 36-55%",
     "cement, pozzolana and fly ash 36-55%");
    ("market for cement, alternative constituents 45%",
     "cement, alternative constituents 45%");
    ("market for cement, blast furnace slag 40-70%",
     "cement, blast furnace 40-70%");
    ("market for cement, pozzolana and fly ash 25-35%",
     "cement, pozzolana and fly ash 25-35%");
    ("market for cement, limestone 21-35%",
     "cement, limestone 21-35%");
    ("market for cement, blast furnace slag 21-35%",
     "cement, blast furnace slag 21-35%");
    ("market for cement, blast furnace slag 25-70%",
     "cement, blast furnace slag 25-70%");
    ("market for cement, blast furnace slag 5-25%",
     "cement, blast furnace slag 5-25%");
    ("market for cement, blast furnace slag 6-20%",
     "cement, blast furnace slag 6-20%");
    ("market for cement, blast furnace slag 70-100%",
     "cement, blast furnace slag 70-100%");
    ("market for cement, pozzolana and fly ash 15-40%",
     "cement, pozzolana and fly ash 15-40%");
    ("market for cement, pozzolana and fly ash 5-15%",
     "cement, pozzolana and fly ash 5-15%") ].

(** The relinkings at the end of [add_datasets_to_database]. *)
Definition final_relinks : list (string * string) :=
  [ ("clinker production", "clinker");
    ("market for clinker", "clinker");
    ("market for cement", "cement");
    ("cement, all types to generic market for cement, unspecified",
     "cement, unspecified") ].

(** [name], [ref_prod] of the "unspecified cement" dataset. *)
Definition cement_unspecified (version_35 : bool) : string * string :=
  if version_35
  then ("market for cement, unspecified", "cement, unspecified")
  else ("cement, all types to generic market for cement, unspecified",
        "cement, unspecified").

Definition cement_production (version_35 : bool) : list (string * string) :=
  if version_35 then cement_production_35 else cement_production_36.

Definition cement_markets (version_35 : bool) : list (string * string) :=
  if version_35 then cement_markets_35 else cement_markets_36.

Section AddDatasets.
Variable geo : Geomap.
Variable rmd : RemindData.
Variable tab : Tables.
Variable uuid4 : nat -> string.

(** [self.db.extend(d_act.values())] *)
Definition extend_db (d_act : dict string Activity) (st : State) : State :=
  mkState (db st ++ values d_act) (log_deleted st) (uuid_count st).

(** [self.relink_datasets(name, ref_product)] *)
Definition relink_db (name ref_product : string) (st : State) : res State :=
  db' <- relink_datasets geo name ref_product (db st) ;;
  Ok (mkState db' (log_deleted st) (uuid_count st)).

(** The body of the loops over the cement production datasets and over
    the cement markets: [make] is [update_cement_production_datasets] in
    the first loop and [fetch_proxies] in the second; the state goes
    with the rows of [created_datasets]. *)
Definition add_cement_family
           (make : string -> string -> State -> res (dict string Activity * State))
           (i : string * string)
           (w : State * list (string * string * string))
  : res (State * list (string * string * string)) :=
  r <- make (fst i) (snd i) (fst w) ;;
  st' <- relink_db (fst i) (snd i) (extend_db (fst r) (snd r)) ;;
  Ok (st', snd w ++ map triple (values (fst r))).

Fixpoint add_cement_families
         (make : string -> string -> State -> res (dict string Activity * State))
         (families : list (string * string))
         (w : State * list (string * string * string))
  : res (State * list (string * string * string)) :=
  match families with
  | [] => Ok w
  | i :: rest =>
      w' <- add_cement_family make i w ;;
      add_cement_families make rest w'
  end.

Fixpoint relink_all (pairs : list (string * string)) (st : State) : res State :=
  match pairs with
  | [] => Ok st
  | i :: rest =>
      st' <- relink_db (fst i) (snd i) st ;;
      relink_all rest st'
  end.

(** [add_datasets_to_database]: the database returned and the rows
    written to the log of created datasets; the [while] loop of
    [adjust_clinker_ratio] makes at most [fuel] passes per dataset. *)
Definition add_datasets_to_database (fuel : nat) (version_35 : bool) (st : State)
  : outcome (list Activity * list (string * string * string)) :=
  r1 <-- of_res (build_clinker_production_datasets geo rmd tab uuid4 st) ;;
  let st1 := extend_db (fst r1) (snd r1) in
  let created1 := map triple (values (fst r1)) in
  r2 <-- of_res (build_clinker_market_datasets geo uuid4 st1) ;;
  let st2 := extend_db (fst r2) (snd r2) in
  let created2 := created1 ++ map triple (values (fst r2)) in
  let name := fst (cement_unspecified version_35) in
  let ref_prod := snd (cement_unspecified version_35) in
  r3 <-- of_res (fetch_proxies geo uuid4 name ref_prod st2) ;;
  act_cement_unspecified <-- adjust_clinker_ratio tab fuel (fst r3) ;;
  st3 <-- of_res (relink_db name ref_prod
                            (extend_db act_cement_unspecified (snd r3))) ;;
  let created3 := created2 ++ map triple (values act_cement_unspecified) in
  w4 <-- of_res (add_cement_families
                   (update_cement_production_datasets geo rmd uuid4)
                   (cement_production version_35) (st3, created3)) ;;
  w5 <-- of_res (add_cement_families (fetch_proxies geo uuid4)
                                     (cement_markets version_35) w4) ;;
  st6 <-- of_res (relink_all final_relinks (fst w5)) ;;
  Done (db st6, snd w5).
End AddDatasets.

(** *** What [add_datasets_to_database] maintains *)

(** The (name, reference product) pairs whose datasets are replaced by
    regional copies, in the order of the calls of [fetch_proxies], and
    the pairs that are relinked. *)
Definition fetched_families (version_35 : bool) : list (string * string) :=
  [("clinker production", "clinker"); ("market for clinker", "clinker");
   cement_unspecified version_35]
  ++ cement_production version_35 ++ cement_markets version_35.

Definition relinked_families (version_35 : bool) : list (string * string) :=
  cement_unspecified version_35
  :: cement_production version_35 ++ cement_markets version_35
     ++ final_relinks.

(** The datasets of the given families sit in regions. *)
Definition regional (geo : Geomap) (families : list (string * string))
           (db : list Activity) : Prop :=
  forall act,
    In act db -> In (a_name act, a_reference_product act) families ->
    In (a_location act) (list_remind_regions geo).

(** The technosphere exchanges that refer to the given families point
    to regions. *)
Definition links_regional (geo : Geomap) (families : list (string * string))
           (db : list Activity) : Prop :=
  forall act exc i,
    In act db -> In exc (a_exchanges act) -> In i families ->
    relinked (fst i) (snd i) exc = true -> in_region geo exc.

(** No pair occurs twice. *)
Fixpoint distinct_pairs (l : list (string * string)) : bool :=
  match l with
  | [] => true
  | i :: rest => negb (existsb (pair_eqb i) rest) && distinct_pairs rest
  end.

(** What the steps between [fetch_proxies] and [self.db.extend] may do
    to the proxies: the regions and the (name, reference product,
    location) stay, and a technosphere exchange that refers to one of
    [families] comes, with its location, from an exchange of the
    proxy. *)
Definition transformed (families : list (string * string))
           (d_act d_act' : dict string Activity) : Prop :=
  Forall2
    (fun kv kv' =>
       fst kv' = fst kv /\ triple (snd kv') = triple (snd kv) /\
       forall exc' i,
         In exc' (a_exchanges (snd kv')) -> In i families ->
         relinked (fst i) (snd i) exc' = true ->
         exists exc,
           In exc (a_exchanges (snd kv)) /\
           relinked (fst i) (snd i) exc = true /\
           e_location exc = e_location exc')
    d_act d_act'.

(** A database for a whole run: the generic clinker and Portland cement
    datasets and two fuel suppliers, all at "RoW". *)
Definition db_plant : list Activity :=
  [clinker_row; grinding_row; waste_row; coal_row].

(** An exception that is not one of the two that [wurst.get_one]
    raises. *)
Definition no_lookup_error (e : exn) : Prop :=
  e <> NoResults /\ e <> MultipleResults.

(* ================================================================== *)
(** * Properties *)

(** ** Lists, filters and dictionaries *)

Lemma filter_andb {A : Type} (f g : A -> bool) (l : list A) :
  filter (fun a => f a && g a) l = filter g (filter f l).
Proof.
  induction l as [|a l IH]; simpl; [reflexivity|].
  destruct (f a); simpl; [destruct (g a)|]; rewrite IH; reflexivity.
Qed.

Lemma filter_none {A : Type} (f : A -> bool) (l : list A) :
  (forall a, In a l -> f a = false) -> filter f l = [].
Proof.
  induction l as [|a l IH]; intros H; simpl; [reflexivity|].
  rewrite (H a (or_introl eq_refl)). apply IH. intros b Hb. apply H. now right.
Qed.

Lemma unique_triples_filter_keep (keep : Activity -> bool) (db : list Activity) :
  unique_triples db -> unique_triples (filter keep db).
Proof.
  unfold unique_triples. induction db as [|act db IH]; simpl; intros H.
  - constructor.
  - inversion H as [|t ts Hnew Hold]; subst.
    destruct (keep act); simpl; [constructor|]; auto.
    intros Hin. apply Hnew. apply in_map_iff in Hin as (b & Hb & Hin).
    apply filter_In in Hin as [Hin _]. apply in_map_iff. eauto.
Qed.

Lemma NoDup_map_injective {A B : Type} (f : A -> B) (l : list A) :
  (forall x y, f x = f y -> x = y) -> NoDup l -> NoDup (map f l).
Proof.
  intros Hf. induction 1 as [|a l Ha Hl IH]; simpl; constructor; [|assumption].
  intros Hin. apply in_map_iff in Hin as (b & Hb & Hin).
  apply Hf in Hb. now subst.
Qed.

Lemma name_ref_is_true (name ref_prod : string) (a : Activity) :
  name_ref_is name ref_prod a = true <->
  a_name a = name /\ a_reference_product a = ref_prod.
Proof.
  unfold name_ref_is. rewrite andb_true_iff, !String.eqb_eq. reflexivity.
Qed.

Lemma name_ref_loc_is_true (name ref_prod loc : string) (a : Activity) :
  name_ref_loc_is name ref_prod loc a = true <-> triple a = (name, ref_prod, loc).
Proof.
  unfold name_ref_loc_is, triple.
  rewrite !andb_true_iff, !String.eqb_eq. split.
  - intros [[-> ->] ->]. reflexivity.
  - intros H. inversion H. auto.
Qed.

(** A database with unique triples holds at most one dataset of a given
    name, reference product and location, so [get_one] cannot meet
    several results. *)
Lemma unique_triples_filter (db : list Activity) (name ref_prod loc : string) :
  unique_triples db ->
  filter (name_ref_loc_is name ref_prod loc) db = [] \/
  exists a, filter (name_ref_loc_is name ref_prod loc) db = [a].
Proof.
  unfold unique_triples.
  induction db as [|a db IH]; simpl; intros H; [now left|].
  inversion H as [|x xs Hnin Hnd]; subst.
  destruct (name_ref_loc_is name ref_prod loc a) eqn:Ha.
  - right. exists a. f_equal. apply filter_none. intros b Hb.
    destruct (name_ref_loc_is name ref_prod loc b) eqn:Hb'; [|reflexivity].
    exfalso. apply Hnin. apply name_ref_loc_is_true in Ha, Hb'.
    rewrite Ha, <- Hb'. now apply in_map.
  - now apply IH.
Qed.

Section DictFacts.
Context {K V : Type}.
Variable eqb : K -> K -> bool.
Hypothesis eqb_eq : forall x y, eqb x y = true <-> x = y.

Lemma dict_set_in (k : K) (v : V) (d : dict K V) (k' : K) (v' : V) :
  In (k', v') (dict_set eqb k v d) ->
  (k' = k /\ v' = v) \/ In (k', v') d.
Proof.
  induction d as [|[k0 v0] d IH]; simpl.
  - intros [H|[]]. inversion H. now left.
  - destruct (eqb k0 k) eqn:E; simpl.
    + apply eqb_eq in E. subst k0.
      intros [H|H]; [inversion H; now left | right; now right].
    + intros [H|H]; [right; now left|].
      destruct (IH H) as [?|?]; [now left | right; now right].
Qed.

Lemma dict_set_keys (k : K) (v : V) (d : dict K V) :
  keys (dict_set eqb k v d) = keys d /\ In k (keys d) \/
  keys (dict_set eqb k v d) = keys d ++ [k] /\ ~ In k (keys d).
Proof.
  induction d as [|[k0 v0] d IH]; simpl.
  - right. split; [reflexivity | tauto].
  - destruct (eqb k0 k) eqn:E; simpl.
    + apply eqb_eq in E. subst k0. left. split; [reflexivity | now left].
    + assert (k0 <> k) by (intros ->; rewrite (proj2 (eqb_eq k k) eq_refl) in E; discriminate).
      destruct IH as [[H1 H2]|[H1 H2]].
      * left. unfold keys in *. rewrite H1. split; [reflexivity | now right].
      * right. unfold keys in *. rewrite H1. split; [reflexivity|].
        intros [?|?]; [tauto | now apply H2].
Qed.

Lemma NoDup_snoc {A : Type} (l : list A) (a : A) :
  NoDup l -> ~ In a l -> NoDup (l ++ [a]).
Proof.
  induction l as [|b l IH]; simpl; intros Hnd Hnin.
  - constructor; [tauto | constructor].
  - inversion Hnd as [|x xs Hb Hl]; subst. constructor.
    + rewrite in_app_iff. simpl. intros [?|[?|[]]]; [tauto|]. subst. tauto.
    + apply IH; tauto.
Qed.

Lemma dict_set_NoDup (k : K) (v : V) (d : dict K V) :
  NoDup (keys d) -> NoDup (keys (dict_set eqb k v d)).
Proof.
  intros H. destruct (dict_set_keys k v d) as [[-> _]|[-> Hn]]; [assumption|].
  now apply NoDup_snoc.
Qed.

Lemma dict_set_notin (k : K) (v : V) (d : dict K V) :
  ~ In k (keys d) -> dict_set eqb k v d = d ++ [(k, v)].
Proof.
  induction d as [|[k0 v0] d IH]; simpl; intros Hn; [reflexivity|].
  destruct (eqb k0 k) eqn:E.
  - apply eqb_eq in E. tauto.
  - f_equal. apply IH. tauto.
Qed.

Lemma dict_set_nonempty (k : K) (v : V) (d : dict K V) :
  dict_set eqb k v d <> [].
Proof.
  destruct d as [|[k0 v0] d]; simpl; [discriminate|].
  destruct (eqb k0 k); discriminate.
Qed.
End DictFacts.

(** ** Sums of rationals *)

Lemma fold_left_Qplus (l : list Q) (a : Q) :
  fold_left Qplus l a == a + sum_Q l.
Proof.
  revert a. induction l as [|x l IH]; intros a; simpl.
  - ring.
  - rewrite IH. ring.
Qed.

Lemma sum_Q_map_div (l : list Q) (t : Q) :
  ~ t == 0 -> sum_Q (map (fun x => x / t) l) == sum_Q l / t.
Proof.
  intros Ht. induction l as [|x l IH]; simpl.
  - now field.
  - rewrite IH. now field.
Qed.

(** ** Fetching proxies *)

Section FetchProxiesFacts.
Variable geo : Geomap.
Variable uuid4 : nat -> string.

Lemma proxies_ok_set (name ref_prod d code : string) (ds : Activity)
      (d_act : dict string Activity) :
  proxies_ok name ref_prod d_act ->
  name_ref_is name ref_prod ds = true ->
  proxies_ok name ref_prod (dict_set String.eqb d (proxy d code ds) d_act).
Proof.
  intros [Hnd Hall] Hds. split.
  - now apply (dict_set_NoDup String.eqb String.eqb_eq).
  - intros k v Hin. apply (dict_set_in String.eqb String.eqb_eq) in Hin as [[-> ->]|Hin]; [|now apply Hall].
    apply name_ref_is_true in Hds. simpl. tauto.
Qed.

Lemma get_one_unique (db : list Activity) (name ref_prod loc : string) :
  unique_triples db ->
  get_one (name_ref_loc_is name ref_prod loc) db = Raise NoResults \/
  exists ds, get_one (name_ref_loc_is name ref_prod loc) db = Ok ds /\
             name_ref_is name ref_prod ds = true /\ In ds db.
Proof.
  intros H. unfold get_one, get_many.
  destruct (unique_triples_filter db name ref_prod loc H) as [E|[a E]];
    rewrite E; [now left|].
  right. exists a. split; [reflexivity|].
  assert (Hin : In a (filter (name_ref_loc_is name ref_prod loc) db))
    by (rewrite E; now left).
  apply filter_In in Hin as [Hin Ha]. split; [|assumption].
  unfold name_ref_loc_is in Ha. apply andb_true_iff in Ha as [Ha _]. exact Ha.
Qed.

Lemma fetch_loop_ok (name ref_prod : string) (db : list Activity)
      (todo : list (string * string)) :
  unique_triples db ->
  forall d_act n,
    proxies_ok name ref_prod d_act ->
    exists d_act' n',
      fetch_loop uuid4 name ref_prod db todo d_act n = Ok (d_act', n') /\
      proxies_ok name ref_prod d_act'.
Proof.
  intros Hu. induction todo as [|[d loc] todo IH]; intros d_act n Hok; simpl.
  - eauto.
  - destruct (get_one_unique db name ref_prod loc Hu) as [E|(ds & E & Hds & _)];
      rewrite E.
    + now apply IH.
    + apply IH. now apply proxies_ok_set.
Qed.

Lemma NoDup_app_disjoint {A : Type} (l l' : list A) :
  NoDup l -> NoDup l' -> (forall a, In a l -> ~ In a l') -> NoDup (l ++ l').
Proof.
  induction l as [|a l IH]; simpl; intros H H' Hd; [assumption|].
  inversion H as [|x xs Ha Hl]; subst. constructor.
  - rewrite in_app_iff. intros [?|?]; [tauto|]. apply (Hd a); auto.
  - apply IH; auto.
Qed.

Lemma proxies_ok_triples (name ref_prod : string) (d_act : dict string Activity) :
  proxies_ok name ref_prod d_act ->
  map triple (values d_act) = map (fun k => (name, ref_prod, k)) (keys d_act).
Proof.
  intros [_ Hall]. induction d_act as [|[k v] d IH]; simpl; [reflexivity|].
  destruct (Hall k v (or_introl eq_refl)) as (Hl & Hn & Hr).
  unfold triple at 1. rewrite Hl, Hn, Hr. f_equal.
  apply IH. intros k' v' Hin. apply Hall. now right.
Qed.

(** C2. On a database with unique (name, reference product, location)
    triples, [fetch_proxies] returns normally; the copies it returns sit
    under pairwise distinct region keys, each with its key as location;
    no dataset of the given name and reference product is left in the
    database; and the database extended with the copies has unique
    triples again. *)
Theorem fetch_proxies_unique_triples (name ref_prod : string) (st : State) :
  unique_triples (db st) ->
  exists d_act st',
    fetch_proxies geo uuid4 name ref_prod st = Ok (d_act, st') /\
    NoDup (keys d_act) /\
    (forall k v, In (k, v) d_act ->
       a_location v = k /\ a_name v = name /\ a_reference_product v = ref_prod) /\
    NoDup (map a_location (values d_act)) /\
    (forall a, In a (db st') -> name_ref_is name ref_prod a = false) /\
    unique_triples (db st' ++ values d_act).
Proof.
  intros Hu. unfold fetch_proxies.
  destruct (fetch_loop_ok name ref_prod (db st)
              (d_remind_to_eco geo name ref_prod (db st)) Hu [] (uuid_count st))
    as (d_act & n' & E & Hok).
  { split; [constructor | intros k v []]. }
  rewrite E. simpl. do 2 eexists. split; [reflexivity|].
  pose proof (proxies_ok_triples _ _ _ Hok) as Ht.
  destruct Hok as [Hnd Hall].
  assert (Hrest : forall a,
             In a (filter (fun act => negb (name_ref_is name ref_prod act)) (db st)) ->
             name_ref_is name ref_prod a = false).
  { intros a Ha. apply filter_In in Ha as [_ Ha]. now apply negb_true_iff in Ha. }
  split; [exact Hnd|]. split; [exact Hall|]. split; [|split; [exact Hrest|]].
  - assert (Hloc : map a_location (values d_act) = keys d_act).
    { clear - Hall. induction d_act as [|[k v] d IH]; simpl; [reflexivity|].
      destruct (Hall k v (or_introl eq_refl)) as (-> & _). f_equal.
      apply IH. intros k' v' Hin. apply Hall. now right. }
    now rewrite Hloc.
  - unfold unique_triples. rewrite map_app. apply NoDup_app_disjoint.
    + now apply unique_triples_filter_keep.
    + rewrite Ht. apply NoDup_map_injective; [|assumption].
      intros x y H. now inversion H.
    + intros t Hin Hin'. rewrite Ht in Hin'.
      apply in_map_iff in Hin as (a & <- & Ha).
      apply in_map_iff in Hin' as (k & Hk & _).
      apply Hrest in Ha. unfold triple in Hk. inversion Hk.
      assert (name_ref_is name ref_prod a = true)
        by (apply name_ref_is_true; auto).
      congruence.
Qed.


Lemma get_one_single (name ref_prod loc : string) (db : list Activity)
      (act : Activity) :
  filter (name_ref_is name ref_prod) db = [act] ->
  a_location act = loc ->
  get_one (name_ref_loc_is name ref_prod loc) db = Ok act.
Proof.
  intros H Hloc. unfold get_one, get_many.
  change (name_ref_loc_is name ref_prod loc)
    with (fun a => name_ref_is name ref_prod a && (a_location a =? loc)).
  rewrite filter_andb, H. simpl.
  apply String.eqb_eq in Hloc. now rewrite Hloc.
Qed.

Lemma d_remind_to_eco_scenario (name ref_prod : string) (db : list Activity)
      (act : Activity) (R1 R2 : string) :
  filter (name_ref_is name ref_prod) db = [act] ->
  a_location act = "RoW" ->
  ecoinvent_to_remind_location geo "RoW" = R1 ->
  list_remind_regions geo = [R1; R2] ->
  R1 <> R2 ->
  d_remind_to_eco geo name ref_prod db = [(R1, "RoW"); (R2, "RoW")].
Proof.
  intros H Hloc HR1 Hregions Hneq.
  unfold d_remind_to_eco, d_map, get_many. rewrite H, Hregions. cbn [fold_left].
  rewrite Hloc, HR1. cbn [dict_set]. unfold dict_get_default. cbn [dict_get].
  apply String.eqb_neq in Hneq. now rewrite String.eqb_refl, Hneq.
Qed.

(** C1. A database holds exactly one 'clinker production' dataset, at
    the rest-of-world location "RoW", which the crosswalk places in
    region [R1]; the target regions are [R1] and [R2].  Then
    [fetch_proxies('clinker production', 'clinker')] returns exactly two
    copies of that dataset, one under [R1] and one under [R2] (reached
    through the "RoW" fallback), and no 'clinker production' dataset is
    left in the database. *)
Theorem fetch_proxies_clinker_scenario (st : State) (act : Activity)
        (R1 R2 : string) :
  filter (name_ref_is "clinker production" "clinker") (db st) = [act] ->
  a_location act = "RoW" ->
  ecoinvent_to_remind_location geo "RoW" = R1 ->
  list_remind_regions geo = [R1; R2] ->
  R1 <> R2 ->
  exists st',
    fetch_proxies geo uuid4 "clinker production" "clinker" st =
      Ok ([(R1, proxy R1 (uuid4 (uuid_count st)) act);
           (R2, proxy R2 (uuid4 (S (uuid_count st))) act)], st') /\
    db st' = filter (fun a => negb (name_ref_is "clinker production" "clinker" a))
                    (db st) /\
    (forall a, In a (db st') ->
               name_ref_is "clinker production" "clinker" a = false) /\
    log_deleted st' = log_deleted st ++ [triple act].
Proof.
  intros H Hloc HR1 Hregions Hneq. unfold fetch_proxies.
  rewrite (d_remind_to_eco_scenario _ _ _ _ _ _ H Hloc HR1 Hregions Hneq).
  cbn [fetch_loop]. rewrite (get_one_single _ _ _ _ _ H Hloc).
  cbn [dict_set]. apply String.eqb_neq in Hneq. rewrite Hneq. cbn [bind fst snd].
  eexists. split; [reflexivity|]. cbn [db log_deleted]. rewrite H.
  split; [reflexivity|]. split; [|reflexivity].
  intros a Ha. apply filter_In in Ha as [_ Ha]. now apply negb_true_iff in Ha.
Qed.

End FetchProxiesFacts.

Lemma fetch_proxies_unique_triples_witness :
  unique_triples db_two /\
  exists d_act st',
    fetch_proxies geo_two (fun _ => "u") "clinker production" "clinker"
                  (mkState db_two [] 0) = Ok (d_act, st') /\
    unique_triples (db st' ++ values d_act).
Proof.
  assert (H : unique_triples db_two).
  { unfold unique_triples, db_two. simpl.
    repeat constructor; simpl; intuition discriminate. }
  split; [exact H|].
  destruct (fetch_proxies_unique_triples geo_two (fun _ => "u") "clinker production" "clinker" (mkState db_two [] 0) H) as (d_act & st' & E & _ & _ & _ & _ & Hu).
  exists d_act, st'. split; assumption.
Defined.

Lemma fetch_proxies_clinker_scenario_witness :
  exists st',
    fetch_proxies geo_row (fun n => if Nat.eqb n 0 then "u0" else "u1")
                  "clinker production" "clinker" (mkState db_row [] 0) =
      Ok ([("CAZ", proxy "CAZ" "u0" clinker_row);
           ("EUR", proxy "EUR" "u1" clinker_row)], st') /\
    db st' = [cement_row].
Proof.
  destruct (fetch_proxies_clinker_scenario geo_row
              (fun n => if Nat.eqb n 0 then "u0" else "u1")
              (mkState db_row [] 0) clinker_row "CAZ" "EUR")
    as (st' & E & Hdb & _); try reflexivity.
  - discriminate.
  - exists st'. split; [exact E | exact Hdb].
Defined.

(** ** Supplier shares *)

Lemma supplier_key_eqb_eq (a b : supplier_key) :
  supplier_key_eqb a b = true <-> a = b.
Proof.
  destruct a as [[[n1 l1] p1] u1], b as [[[n2 l2] p2] u2]. simpl.
  rewrite !andb_true_iff, !String.eqb_eq. split.
  - intros [[[-> ->] ->] ->]. reflexivity.
  - intros H. inversion H. auto.
Qed.

(** The inner loop, when every production exchange carries a volume. *)
Lemma shares_of_production_total (k : supplier_key) (excs : list Exchange)
      (pvs : list Q) :
  map e_production_volume excs = map Some pvs ->
  forall acc, exists d',
    shares_of_production k excs acc = Ok (d', fold_left Qplus pvs (snd acc)) /\
    (pvs <> [] \/ fst acc <> [] -> d' <> []).
Proof.
  revert pvs. induction excs as [|exc excs IH]; intros [|pv pvs] H acc;
    simpl in H; try discriminate.
  - exists (fst acc). simpl. split; [now destruct acc | intros [?|?]; tauto].
  - inversion H as [[Hpv Hrest]]. simpl. rewrite Hpv.
    destruct (IH pvs Hrest (dict_set supplier_key_eqb k pv (fst acc), snd acc + pv))
      as (d' & E & Hne).
    exists d'. split; [exact E|]. intros _. apply Hne. right.
    apply dict_set_nonempty.
Qed.

(** The outer loop: the total is the sum of all the volumes, and the
    dictionary is not empty as soon as one volume was read. *)
Lemma shares_of_datasets_total (ds : list Activity) :
  forall (pvs : list Q),
    production_volumes ds = map Some pvs ->
    forall acc, exists d',
      shares_of_datasets ds acc = Ok (d', fold_left Qplus pvs (snd acc)) /\
      (pvs <> [] \/ fst acc <> [] -> d' <> []).
Proof.
  induction ds as [|act ds IH]; intros pvs H acc; simpl in *.
  - destruct pvs; [|discriminate]. exists (fst acc). simpl.
    split; [now destruct acc | intros [?|?]; tauto].
  - symmetry in H. apply map_eq_app in H as (pvs1 & pvs2 & -> & H1 & H2).
    symmetry in H1, H2.
    destruct (shares_of_production_total (key_of act) _ _ H1 acc) as (d1 & E1 & N1).
    rewrite E1. simpl.
    destruct (IH pvs2 H2 (d1, fold_left Qplus pvs1 (snd acc))) as (d2 & E2 & N2).
    exists d2. rewrite fold_left_app. split; [exact E2|].
    intros Hne. apply N2. simpl.
    destruct pvs2 as [|p pvs2]; [right | left; discriminate].
    apply N1. rewrite app_nil_r in Hne. exact Hne.
Qed.

(** C10. The normalisation is unguarded: when at least one production
    volume was read and the volumes sum to zero, every accumulated
    weight is divided by zero and [get_shares_from_production_volume]
    raises ZeroDivisionError instead of returning a mapping. *)
Theorem get_shares_zero_total_raises (ds : list Activity) (pvs : list Q) :
  production_volumes ds = map Some pvs ->
  pvs <> [] ->
  sum_Q pvs == 0 ->
  get_shares_from_production_volume ds = Raise ZeroDivisionError.
Proof.
  intros H Hne Hz. unfold get_shares_from_production_volume.
  destruct (shares_of_datasets_total ds pvs H ([], 0)) as (d' & E & N).
  rewrite E. simpl. unfold normalise.
  destruct d' as [|kv d']; [exfalso; apply N; [now left | reflexivity]|].
  assert (Ht : fold_left Qplus pvs 0 == 0)
    by (rewrite fold_left_Qplus, Hz; ring).
  apply Qeq_bool_iff in Ht. now rewrite Ht.
Qed.

Lemma get_shares_zero_total_raises_witness :
  get_shares_from_production_volume [idle_row] = Raise ZeroDivisionError.
Proof.
  apply (get_shares_zero_total_raises [idle_row] [0]).
  - reflexivity.
  - discriminate.
  - reflexivity.
Defined.

(** The two loops on suppliers with one production exchange each and
    pairwise distinct keys: one entry per supplier, in order. *)
Lemma shares_of_datasets_single (ds : list Activity) (pvs : list Q) :
  Forall2 produces ds pvs ->
  forall acc,
    NoDup (keys (fst acc) ++ map key_of ds) ->
    shares_of_datasets ds acc =
    Ok (fst acc ++ combine (map key_of ds) pvs, fold_left Qplus pvs (snd acc)).
Proof.
  induction 1 as [|act pv ds pvs (exc & Hp & Hpv) _ IH]; intros acc Hnd; simpl.
  - rewrite app_nil_r. now destruct acc.
  - rewrite Hp. simpl. rewrite Hpv. simpl.
    assert (Hn : ~ In (key_of act) (keys (fst acc))).
    { apply NoDup_remove_2 in Hnd. intros Hin. apply Hnd.
      apply in_or_app. now left. }
    rewrite (dict_set_notin supplier_key_eqb supplier_key_eqb_eq _ _ _ Hn).
    rewrite IH; simpl.
    + now rewrite <- app_assoc.
    + unfold keys. rewrite map_app, <- app_assoc. exact Hnd.
Qed.

Lemma values_combine {A B : Type} (l : list A) (l' : list B) :
  length l = length l' -> values (combine l l') = l'.
Proof.
  revert l'. induction l as [|a l IH]; intros [|b l'] H; simpl in *;
    try discriminate; [reflexivity|].
  f_equal. apply IH. now inversion H.
Qed.

Lemma keys_combine {A B : Type} (l : list A) (l' : list B) :
  length l = length l' -> keys (combine l l') = l.
Proof.
  revert l'. induction l as [|a l IH]; intros [|b l'] H; simpl in *;
    try discriminate; [reflexivity|].
  f_equal. apply IH. now inversion H.
Qed.

(** C8, as the code has it.  No supplier gives the empty mapping.  For
    suppliers with pairwise distinct keys, one production exchange each
    and volumes of nonzero sum, the mapping has one entry per supplier,
    its volume divided by the total, and the shares sum to 1. *)
Theorem get_shares_total_one :
  get_shares_from_production_volume [] = Ok [] /\
  forall (ds : list Activity) (pvs : list Q),
    Forall2 produces ds pvs ->
    NoDup (map key_of ds) ->
    ~ sum_Q pvs == 0 ->
    exists m,
      get_shares_from_production_volume ds = Ok m /\
      keys m = map key_of ds /\
      Forall2 (fun share pv => share == pv / sum_Q pvs) (values m) pvs /\
      sum_Q (values m) == 1.
Proof.
  split; [reflexivity|]. intros ds pvs Hp Hnd Hnz.
  unfold get_shares_from_production_volume.
  rewrite (shares_of_datasets_single ds pvs Hp ([], 0)) by exact Hnd.
  cbn [bind fst snd app].
  assert (Hlen : length (map key_of ds) = length pvs)
    by (rewrite length_map; eapply Forall2_length; eauto).
  assert (Ht : fold_left Qplus pvs 0 == sum_Q pvs)
    by (rewrite fold_left_Qplus; ring).
  assert (Hnz' : ~ fold_left Qplus pvs 0 == 0) by (now rewrite Ht).
  unfold normalise.
  destruct (combine (map key_of ds) pvs) as [|kv rest] eqn:Ec.
  { destruct pvs as [|pv pvs]; [exfalso; apply Hnz; reflexivity|].
    destruct ds; simpl in *; discriminate. }
  destruct (Qeq_bool (fold_left Qplus pvs 0) 0) eqn:Eb;
    [apply Qeq_bool_iff in Eb; contradiction|].
  rewrite <- Ec. eexists. split; [reflexivity|].
  assert (Hv : values (map (fun kv0 : supplier_key * Q =>
                              (fst kv0, snd kv0 / fold_left Qplus pvs 0))
                           (combine (map key_of ds) pvs))
               = map (fun x => x / fold_left Qplus pvs 0) pvs).
  { unfold values. rewrite map_map. simpl.
    rewrite <- (values_combine (map key_of ds) pvs Hlen) at 2.
    unfold values. now rewrite map_map. }
  split; [|split].
  - unfold keys. rewrite map_map. simpl. now apply keys_combine.
  - rewrite Hv. clear - Ht. revert Ht.
    generalize (fold_left Qplus pvs 0) (sum_Q pvs). intros t s Ht.
    induction pvs as [|pv pvs' IH]; simpl; constructor.
    + now rewrite Ht.
    + exact IH.
  - rewrite Hv, sum_Q_map_div by exact Hnz'. rewrite Ht. now field.
Qed.

Lemma get_shares_total_one_witness :
  exists m,
    get_shares_from_production_volume [coal_row; coal_za] = Ok m /\
    sum_Q (values m) == 1.
Proof.
  destruct (proj2 get_shares_total_one [coal_row; coal_za] [2; 6])
    as (m & E & _ & _ & Hs).
  - repeat constructor; eexists; split; reflexivity.
  - repeat constructor; simpl; intuition discriminate.
  - vm_compute. discriminate.
  - exists m. split; assumption.
Defined.

(** C8 fails as stated on a supplier with two production exchanges (the
    second volume overwrites the first in the mapping, and both enter
    the total) and on a supplier of volume zero (the division raises). *)
Lemma get_shares_total_one_counterexample :
  (exists m, get_shares_from_production_volume [twice_row] = Ok m /\
             sum_Q (values m) == 3 # 4 /\ ~ sum_Q (values m) == 1) /\
  get_shares_from_production_volume [idle_row] = Raise ZeroDivisionError.
Proof.
  split; [|reflexivity].
  eexists. split; [reflexivity|]. split; vm_compute; [reflexivity | discriminate].
Qed.

(** ** Pollutants, fuels and relinking *)

Section CementFacts.
Variable geo : Geomap.
Variable rmd : RemindData.
Variable tab : Tables.

(** A zero amount is multiplied, so it stays zero whatever the level. *)
Lemma update_pollutant_exchange_zero (location : string) (exc exc' : Exchange) :
  e_amount exc == 0 ->
  update_pollutant_exchange rmd tab location exc = Ok exc' ->
  e_amount exc' == 0 /\ e_uncertainty_type exc' = 0%Z.
Proof.
  intros Hz. unfold update_pollutant_exchange.
  destruct (dict_get String.eqb (e_name exc) (emissions_map tab)); [|discriminate].
  destruct (remind_emission_of rmd location s) as [v|e]; simpl; [|discriminate].
  apply Qeq_bool_iff in Hz. rewrite Hz. intros H. inversion H. simpl.
  apply Qeq_bool_iff in Hz. rewrite Hz. split; [ring | reflexivity].
Qed.

(** Every exchange appended for a fuel carries the mass of the third
    fuel, hard coal. *)
Lemma new_fuel_exchanges_amounts (k : string) (fuel_suppliers : dict supplier_key Q) :
  map e_amount (new_fuel_exchanges rmd tab k fuel_suppliers) =
  map (fun kv => (snd kv * nth 2 (fuel_qty_per_type rmd tab k) 0) / 1000)
      fuel_suppliers.
Proof.
  unfold new_fuel_exchanges. rewrite map_map. apply map_ext.
  intros [[[[n l] p] u] share]. reflexivity.
Qed.

(** C9, as the code has it.  When the suppliers of a fuel in region [k]
    are empty, the resolver is asked once more, for the fallback region
    of the fuel; when that answer is empty too, nothing is raised:
    no exchange is appended for the fuel and the loop goes on with the
    next fuel. *)
Theorem empty_fuel_suppliers_are_skipped (db : list Activity)
        (k fuel0 fuel1 fuel2 : string) :
  get_shares_from_production_volume
    (get_suppliers_of_a_region geo db k (fuel_map tab fuel0) fuel1) = Ok [] ->
  fuel_suppliers_of geo tab db k (fuel0, fuel1, fuel2) =
    get_shares_from_production_volume
      (get_suppliers_of_a_region geo db fuel2 (fuel_map tab fuel0) fuel1) /\
  (get_shares_from_production_volume
     (get_suppliers_of_a_region geo db fuel2 (fuel_map tab fuel0) fuel1) = Ok [] ->
   forall rest excs,
     add_fuel_exchanges geo rmd tab db k ((fuel0, fuel1, fuel2) :: rest) excs =
     add_fuel_exchanges geo rmd tab db k rest excs).
Proof.
  intros H1.
  assert (E : fuel_suppliers_of geo tab db k (fuel0, fuel1, fuel2) =
              get_shares_from_production_volume
                (get_suppliers_of_a_region geo db fuel2 (fuel_map tab fuel0) fuel1)).
  { unfold fuel_suppliers_of. rewrite H1. reflexivity. }
  split; [exact E|]. intros H2 rest excs.
  cbn [add_fuel_exchanges]. rewrite E, H2. cbn [bind new_fuel_exchanges map].
  now rewrite app_nil_r.
Qed.

End CementFacts.

Lemma empty_fuel_suppliers_are_skipped_witness :
  add_fuel_exchanges geo_row rmd_ex tab_ex [coal_row] "CAZ" fuels [] =
  add_fuel_exchanges geo_row rmd_ex tab_ex [coal_row] "CAZ"
                     [("wood pellet", "wood pellet, measured as dry mass", "EUR");
                      ("hard coal", "hard coal", "REF")] [].
Proof.
  apply (proj2 (empty_fuel_suppliers_are_skipped geo_row rmd_ex tab_ex [coal_row]
                  "CAZ" "waste" "waste plastic, mixture" "EUR" eq_refl) eq_refl).
Defined.

(** C9 fails as stated: with no supplier of any fuel, neither in "CAZ"
    nor in the fallback regions, the recomputation of the dataset ends
    normally, with no fuel exchange appended; and so does the whole of
    [build_clinker_production_datasets] on a database that holds no fuel
    supplier. *)
Lemma empty_fuel_suppliers_counterexample :
  Forall (fun fuel => fuel_suppliers_of geo_row tab_ex [] "CAZ" fuel = Ok []) fuels /\
  (exists v,
      build_clinker_production_dataset geo_row rmd_ex tab_ex [] "CAZ" clinker_caz
      = Ok v /\
      filter is_technosphere (a_exchanges v) = []) /\
  (exists d_act st',
      build_clinker_production_datasets geo_row rmd_ex tab_ex (fun _ => "u")
                                        (mkState db_row [] 0)
      = Ok (d_act, st') /\
      keys d_act = ["CAZ"; "EUR"] /\
      Forall (fun v => filter is_technosphere (a_exchanges v) = [])
             (values d_act)).
Proof.
  split; [repeat constructor|]. split.
  - eexists. split; reflexivity.
  - eexists. eexists. split; [reflexivity|]. split; [reflexivity|].
    repeat constructor.
Qed.

(** C3 fails on the code: with a waste supplier and a hard coal supplier
    in "CAZ", the masses per ton of clinker are 60 kg of waste and 84 kg
    of hard coal, and the waste exchange is given 84/1000, the amount of
    hard coal, instead of 60/1000. *)
Theorem waste_exchange_carries_hard_coal_mass :
  nth 0 (fuel_qty_per_type rmd_ex tab_ex "CAZ") 0 == 60 /\
  nth 2 (fuel_qty_per_type rmd_ex tab_ex "CAZ") 0 == 84 /\
  fuel_suppliers_of geo_row tab_ex [waste_row; coal_row] "CAZ"
                    ("waste", "waste plastic, mixture", "EUR")
  = Ok [(key_of waste_row, 4 / (0 + 4))] /\
  exists excs,
    add_fuel_exchanges geo_row rmd_ex tab_ex [waste_row; coal_row] "CAZ" fuels []
    = Ok excs /\
    map e_name excs = ["treatment of waste plastic"; "market for hard coal"] /\
    Forall2 (fun exc q => e_amount exc == q) excs [84 # 1000; 84 # 1000] /\
    Forall (fun exc => ~ e_amount exc == (1 * 60) / 1000)
           (filter (fun exc => e_name exc =? "treatment of waste plastic") excs).
Proof.
  split; [vm_compute; reflexivity|]. split; [vm_compute; reflexivity|].
  split; [reflexivity|].
  eexists. split; [reflexivity|]. split; [reflexivity|].
  split; repeat constructor; vm_compute; congruence.
Qed.

(** C5 fails on the code: a sulfur dioxide flow of amount 0 in a dataset
    of "CAZ", where the level of the scenario is 5.2, keeps the amount 0
    (0 multiplied by 5.2); only its uncertainty is reset. *)
Theorem pollutant_zero_amount_stays_zero :
  remind_emission_of rmd_ex "CAZ" "SO2" = Ok (52 # 10) /\
  exists exc',
    update_pollutant_exchange rmd_ex tab_ex "CAZ" so2_zero = Ok exc' /\
    e_amount exc' == 0 /\
    ~ e_amount exc' == 52 # 10 /\
    e_uncertainty_type exc' = 0%Z /\
    e_uncertainty_fields exc' = [] /\
    exists ds,
      update_pollutant_emissions rmd_ex tab_ex clinker_caz = Ok ds /\
      nth_error (a_exchanges ds) 2 = Some exc'.
Proof.
  split; [reflexivity|]. eexists. split; [reflexivity|].
  split; [vm_compute; reflexivity|]. split; [vm_compute; discriminate|].
  split; [reflexivity|]. split; [reflexivity|].
  eexists. split; reflexivity.
Qed.

(** ** Relinking *)

Section RelinkFacts.
Variable geo : Geomap.

(** The contract of the crosswalk: a location that is not a region is
    sent to a region. *)
Hypothesis crosswalk_gives_region :
  forall loc, ~ In loc (list_remind_regions geo) ->
              In (ecoinvent_to_remind_location geo loc) (list_remind_regions geo).

Lemma existsb_eqb_In (x : string) (l : list string) :
  existsb (String.eqb x) l = true <-> In x l.
Proof.
  rewrite existsb_exists. split.
  - intros (y & Hy & E). apply String.eqb_eq in E. now subst.
  - intros H. exists x. split; [assumption | apply String.eqb_refl].
Qed.

Lemma relink_exchange_again (name ref_product : string) (exc exc' : Exchange) :
  relink_exchange geo name ref_product exc = Ok exc' ->
  relink_exchange geo name ref_product exc' = Ok exc' /\
  (relinked name ref_product exc' = true -> in_region geo exc').
Proof.
  unfold relink_exchange.
  change ((e_name exc =? name) && option_string_eqb (e_product exc) ref_product
          && is_technosphere exc) with (relinked name ref_product exc).
  change ((e_name exc' =? name) && option_string_eqb (e_product exc') ref_product
          && is_technosphere exc') with (relinked name ref_product exc').
  destruct (relinked name ref_product exc) eqn:Hm.
  - destruct (e_location exc) as [old_location|] eqn:Hl; [|discriminate].
    destruct (existsb (String.eqb old_location) (list_remind_regions geo)) eqn:Hr;
      simpl; intros H; inversion H; subst exc'; clear H.
    + rewrite Hm, Hl, Hr. simpl. split; [reflexivity|].
      intros _. exists old_location. split; [assumption|].
      now apply existsb_eqb_In.
    + assert (Hin : In (ecoinvent_to_remind_location geo old_location)
                       (list_remind_regions geo)).
      { apply crosswalk_gives_region. rewrite <- existsb_eqb_In. congruence. }
      assert (Hm' : relinked name ref_product
                      (set_e_location
                         (Some (ecoinvent_to_remind_location geo old_location)) exc)
                    = true) by exact Hm.
      rewrite Hm'. cbn [e_location set_e_location].
      rewrite (proj2 (existsb_eqb_In _ _) Hin). simpl. split; [reflexivity|].
      intros _. eexists. split; [reflexivity | assumption].
  - intros H. inversion H; subst exc'. rewrite Hm. split; [reflexivity|].
    discriminate.
Qed.

Lemma relink_exchanges_again (name ref_product : string) (excs excs' : list Exchange) :
  relink_exchanges geo name ref_product excs = Ok excs' ->
  relink_exchanges geo name ref_product excs' = Ok excs' /\
  Forall (fun exc => relinked name ref_product exc = true -> in_region geo exc)
         excs'.
Proof.
  revert excs'. induction excs as [|exc excs IH]; intros excs'; simpl.
  - intros H. inversion H. split; [reflexivity | constructor].
  - destruct (relink_exchange geo name ref_product exc) as [e1|] eqn:E1;
      simpl; [|discriminate].
    destruct (relink_exchanges geo name ref_product excs) as [r1|] eqn:E2;
      simpl; [|discriminate].
    intros H. inversion H; subst excs'. simpl.
    destruct (relink_exchange_again _ _ _ _ E1) as [-> H1].
    destruct (IH r1 eq_refl) as [-> H2]. simpl.
    split; [reflexivity | now constructor].
Qed.

Lemma relink_datasets_again (name ref_product : string) (db db' : list Activity) :
  relink_datasets geo name ref_product db = Ok db' ->
  relink_datasets geo name ref_product db' = Ok db' /\
  Forall (fun act =>
            Forall (fun exc => relinked name ref_product exc = true ->
                               in_region geo exc)
                   (a_exchanges act))
         db'.
Proof.
  revert db'. induction db as [|act db IH]; intros db'; simpl.
  - intros H. inversion H. split; [reflexivity | constructor].
  - destruct (relink_exchanges geo name ref_product (a_exchanges act))
      as [e1|] eqn:E1; simpl; [|discriminate].
    destruct (relink_datasets geo name ref_product db) as [r1|] eqn:E2;
      simpl; [|discriminate].
    intros H. inversion H; subst db'. simpl.
    destruct (relink_exchanges_again _ _ _ _ E1) as [-> H1].
    destruct (IH r1 eq_refl) as [-> H2]. simpl.
    split; [reflexivity | now constructor].
Qed.

(** C7. [relink_datasets(name, ref_product)] is idempotent: running it a
    second time on its own result gives that result again (and a run
    that raises, raises the same way when composed with itself), for
    after the first run the location of every matched technosphere
    exchange is a region, which the second run leaves alone. *)
Theorem relink_datasets_idempotent (name ref_product : string)
        (db : list Activity) :
  (db' <- relink_datasets geo name ref_product db ;;
   relink_datasets geo name ref_product db')
  = relink_datasets geo name ref_product db /\
  forall db',
    relink_datasets geo name ref_product db = Ok db' ->
    relink_datasets geo name ref_product db' = Ok db' /\
    forall act exc,
      In act db' -> In exc (a_exchanges act) ->
      relinked name ref_product exc = true -> in_region geo exc.
Proof.
  split.
  - destruct (relink_datasets geo name ref_product db) as [db'|e] eqn:E;
      simpl; [|reflexivity].
    now destruct (relink_datasets_again _ _ _ _ E).
  - intros db' E. destruct (relink_datasets_again _ _ _ _ E) as [H1 H2].
    split; [exact H1|]. intros act exc Ha He.
    rewrite Forall_forall in H2. specialize (H2 act Ha).
    rewrite Forall_forall in H2. exact (H2 exc He).
Qed.

End RelinkFacts.

Lemma relink_datasets_idempotent_witness :
  exists db',
    relink_datasets geo_row "clinker production" "clinker" db_row = Ok db' /\
    relink_datasets geo_row "clinker production" "clinker" db' = Ok db' /\
    map (fun act => map e_location (a_exchanges act)) db'
    = [[Some "RoW"; None]; [Some "RoW"; Some "CAZ"]].
Proof.
  assert (H : forall loc, ~ In loc (list_remind_regions geo_row) ->
                          In (ecoinvent_to_remind_location geo_row loc)
                             (list_remind_regions geo_row)).
  { intros loc _. simpl. destruct (loc =? "CH"); auto. }
  eexists. split; [reflexivity|]. split; [|reflexivity].
  apply (proj2 (relink_datasets_idempotent geo_row H "clinker production"
                  "clinker" db_row)).
  reflexivity.
Defined.

(** ** The adjustment of the clinker ratio *)

(** *** [nanargmax] and [nanargmin] *)

Lemma nanmax_spec (l : list (option Q)) (h : nat) (r : Q) :
  nanmax l = Some (h, r) ->
  nth_error l h = Some (Some r) /\
  Forall (fun x => forall r', x = Some r' -> r' <= r) l.
Proof.
  revert h r. induction l as [|x l IH]; intros h r; simpl; [discriminate|].
  destruct x as [q|], (nanmax l) as [[j b]|] eqn:E.
  - destruct (IH j b eq_refl) as [Hn Hall].
    destruct (Qle_bool b q) eqn:Hc; intros H; inversion H; subst; clear H.
    + apply Qle_bool_iff in Hc. split; [reflexivity|]. constructor.
      * intros r' Hr. inversion Hr; subst. lra.
      * eapply Forall_impl; [|exact Hall]. simpl. intros a Ha r' Hr.
        specialize (Ha r' Hr). lra.
    + assert (q < r).
      { destruct (Qlt_le_dec q r) as [?|Hle]; [assumption|].
        apply Qle_bool_iff in Hle. congruence. }
      split; [exact Hn|]. constructor; [|exact Hall].
      intros r' Hr. inversion Hr; subst. lra.
  - intros H. inversion H; subst. split; [reflexivity|]. constructor.
    + intros r' Hr. inversion Hr; subst. lra.
    + clear IH. induction l as [|y l IHl]; [constructor|]. simpl in E.
      destruct y as [q'|], (nanmax l) as [[j b]|]; try discriminate.
      * destruct (Qle_bool b q'); discriminate.
      * constructor; [discriminate | now apply IHl].
  - destruct (IH j b eq_refl) as [Hn Hall].
    intros H. inversion H; subst. split; [exact Hn|].
    constructor; [discriminate | exact Hall].
  - discriminate.
Qed.

Lemma nanmin_spec (l : list (option Q)) (h : nat) (r : Q) :
  nanmin l = Some (h, r) ->
  nth_error l h = Some (Some r) /\
  Forall (fun x => forall r', x = Some r' -> r <= r') l.
Proof.
  revert h r. induction l as [|x l IH]; intros h r; simpl; [discriminate|].
  destruct x as [q|], (nanmin l) as [[j b]|] eqn:E.
  - destruct (IH j b eq_refl) as [Hn Hall].
    destruct (Qle_bool q b) eqn:Hc; intros H; inversion H; subst; clear H.
    + apply Qle_bool_iff in Hc. split; [reflexivity|]. constructor.
      * intros r' Hr. inversion Hr; subst. lra.
      * eapply Forall_impl; [|exact Hall]. simpl. intros a Ha r' Hr.
        specialize (Ha r' Hr). lra.
    + assert (r < q).
      { destruct (Qlt_le_dec r q) as [?|Hle]; [assumption|].
        apply Qle_bool_iff in Hle. congruence. }
      split; [exact Hn|]. constructor; [|exact Hall].
      intros r' Hr. inversion Hr; subst. lra.
  - intros H. inversion H; subst. split; [reflexivity|]. constructor.
    + intros r' Hr. inversion Hr; subst. lra.
    + clear IH. induction l as [|y l IHl]; [constructor|]. simpl in E.
      destruct y as [q'|], (nanmin l) as [[j b]|]; try discriminate.
      * destruct (Qle_bool q' b); discriminate.
      * constructor; [discriminate | now apply IHl].
  - destruct (IH j b eq_refl) as [Hn Hall].
    intros H. inversion H; subst. split; [exact Hn|].
    constructor; [discriminate | exact Hall].
  - discriminate.
Qed.

(** An entry that is not [nan] rules out the ValueError. *)
Lemma nanmax_some (l : list (option Q)) (i : nat) (r : Q) :
  nth_error l i = Some (Some r) -> exists h rh, nanmax l = Some (h, rh).
Proof.
  revert i. induction l as [|x l IH]; intros [|i] H; simpl in H; try discriminate.
  - inversion H; subst. simpl. destruct (nanmax l) as [[j b]|]; [|eauto].
    destruct (Qle_bool b r); eauto.
  - destruct (IH i H) as (h & rh & E). simpl. rewrite E.
    destruct x as [q|]; [destruct (Qle_bool rh q)|]; eauto.
Qed.

Lemma nanmin_some (l : list (option Q)) (i : nat) (r : Q) :
  nth_error l i = Some (Some r) -> exists h rh, nanmin l = Some (h, rh).
Proof.
  revert i. induction l as [|x l IH]; intros [|i] H; simpl in H; try discriminate.
  - inversion H; subst. simpl. destruct (nanmin l) as [[j b]|]; [|eauto].
    destruct (Qle_bool r b); eauto.
  - destruct (IH i H) as (h & rh & E). simpl. rewrite E.
    destruct x as [q|]; [destruct (Qle_bool q rh)|]; eauto.
Qed.

Lemma Forall_nth_error {A : Type} (P : A -> Prop) (l : list A) (i : nat) (a : A) :
  Forall P l -> nth_error l i = Some a -> P a.
Proof.
  intros H Hn. rewrite Forall_forall in H. apply H. eapply nth_error_In; eauto.
Qed.

(** *** [share[i] += d] *)

Lemma nth_error_add_at_same (i : nat) (d : Q) (share : list (option Q)) (q : Q) :
  nth_error share i = Some (Some q) ->
  nth_error (add_at i d share) i = Some (Some (q + d)).
Proof.
  revert i. induction share as [|s share IH]; intros [|i] H; simpl in *;
    try discriminate.
  - inversion H; subst. reflexivity.
  - now apply IH.
Qed.

Lemma nth_error_add_at_other (i j : nat) (d : Q) (share : list (option Q)) :
  i <> j -> nth_error (add_at i d share) j = nth_error share j.
Proof.
  revert i j. induction share as [|s share IH]; intros [|i] [|j] H; simpl;
    try reflexivity; try congruence.
  apply IH. congruence.
Qed.

Lemma total_share_add_at (i : nat) (d : Q) (share : list (option Q)) (q : Q) :
  nth_error share i = Some (Some q) ->
  total_share (add_at i d share) == total_share share + d.
Proof.
  unfold total_share.
  revert i. induction share as [|s share IH]; intros [|i] H; simpl in *;
    try discriminate.
  - inversion H; subst. simpl. ring.
  - rewrite (IH i H). ring.
Qed.

Lemma weighted_sum_add_at (i : nat) (d : Q) (ratio share : list (option Q))
      (q : Q) (r : option Q) :
  nth_error share i = Some (Some q) ->
  nth_error ratio i = Some r ->
  weighted_sum ratio (add_at i d share)
  == weighted_sum ratio share + nan_to_num r * d.
Proof.
  revert i share. induction ratio as [|r0 ratio IH]; intros [|i] [|s share] Hs Hr;
    simpl in *; try discriminate.
  - inversion Hs; inversion Hr; subst. simpl. ring.
  - rewrite (IH i share Hs Hr). ring.
Qed.

Lemma unmasked_share_add_at (i : nat) (d : Q) (ratio share : list (option Q))
      (q r : Q) :
  nth_error share i = Some (Some q) ->
  nth_error ratio i = Some (Some r) ->
  unmasked_share ratio (add_at i d share) == unmasked_share ratio share + d.
Proof.
  revert i share. induction ratio as [|r0 ratio IH]; intros [|i] [|s share] Hs Hr;
    simpl in *; try discriminate.
  - inversion Hs; inversion Hr; subst. simpl. ring.
  - rewrite (IH i share Hs Hr). ring.
Qed.

Lemma nth_error_add_at_some (i j : nat) (d : Q) (share : list (option Q)) (q : Q) :
  nth_error share j = Some (Some q) ->
  exists q', nth_error (add_at i d share) j = Some (Some q') /\
             (q' = q \/ (i = j /\ q' = q + d)).
Proof.
  intros H. destruct (Nat.eq_dec i j) as [->|Hne].
  - exists (q + d). split; [now apply nth_error_add_at_same | right; auto].
  - exists q. rewrite nth_error_add_at_other by assumption. auto.
Qed.

Lemma length_add_at (i : nat) (d : Q) (share : list (option Q)) :
  length (add_at i d share) = length share.
Proof.
  revert i. induction share as [|s share IH]; intros [|i]; simpl; auto.
Qed.

(** *** Masking *)

Lemma nan_to_num_nan_if_zero (s : option Q) :
  nan_to_num (nan_if_zero s) == nan_to_num s.
Proof.
  destruct s as [q|]; simpl; [|reflexivity].
  destruct (Qeq_bool q 0) eqn:E; simpl; [|reflexivity].
  apply Qeq_bool_iff in E. now rewrite E.
Qed.

Lemma total_share_nan_if_zero (share : list (option Q)) :
  total_share (map nan_if_zero share) == total_share share.
Proof.
  unfold total_share. induction share as [|s share IH]; simpl; [reflexivity|].
  now rewrite IH, nan_to_num_nan_if_zero.
Qed.

Lemma nan_if_zero_some (s : option Q) (q : Q) :
  nan_if_zero s = Some q -> s = Some q.
Proof.
  destruct s as [q'|]; simpl; [|discriminate].
  destruct (Qeq_bool q' 0); [discriminate | auto].
Qed.

Lemma above_floor_some (s : option Q) :
  above_floor s = true -> exists q, s = Some q /\ 1 # 1000 <= q.
Proof.
  destruct s as [q|]; simpl; [|discriminate].
  intros H. apply Qle_bool_iff in H. eauto.
Qed.

(** An entry of the masked ratios that is not [nan] is an entry of the
    ratios whose share is over the floor. *)
Lemma mask_ratio_some (share ratio : list (option Q)) (i : nat) (r : Q) :
  nth_error (mask_ratio share ratio) i = Some (Some r) ->
  exists q, nth_error share i = Some (Some q) /\ 1 # 1000 <= q /\
            nth_error ratio i = Some (Some r).
Proof.
  revert ratio i. induction share as [|s share IH]; intros [|r0 ratio] [|i] H;
    simpl in H; try discriminate.
  - destruct (above_floor s) eqn:E; [|discriminate].
    apply above_floor_some in E as (q & -> & Hq). inversion H; subst.
    exists q. simpl. auto.
  - simpl. now apply IH.
Qed.

(** *** One pass of the loop *)

Lemma adjust_step_inv (m m' : Mix) :
  adjust_step m = Ok m' ->
  exists h rh l rl,
    nanmax (mask_ratio (map nan_if_zero (share m)) (ratio m)) = Some (h, rh) /\
    nanmin (mask_ratio (map nan_if_zero (share m)) (ratio m)) = Some (l, rl) /\
    share m' = add_at l (1 # 100)
                 (add_at h (- (1 # 100)) (map nan_if_zero (share m))) /\
    ratio m' = mask_ratio (map nan_if_zero (share m)) (ratio m) /\
    average_ratio m' = weighted_sum (ratio m') (share m').
Proof.
  unfold adjust_step, nanargmax, nanargmin.
  destruct (nanmax _) as [[h rh]|]; simpl; [|discriminate].
  destruct (nanmin _) as [[l rl]|]; simpl; [|discriminate].
  intros H. inversion H; subst; clear H. simpl.
  exists h, rh, l, rl. repeat split; reflexivity.
Qed.

(** The two entries that a pass changes are numbers. *)
Lemma adjust_step_entries (m : Mix) (h l : nat) (rh rl : Q) :
  nanmax (mask_ratio (map nan_if_zero (share m)) (ratio m)) = Some (h, rh) ->
  nanmin (mask_ratio (map nan_if_zero (share m)) (ratio m)) = Some (l, rl) ->
  exists qh ql,
    nth_error (map nan_if_zero (share m)) h = Some (Some qh) /\ 1 # 1000 <= qh /\
    nth_error (add_at h (- (1 # 100)) (map nan_if_zero (share m))) l
    = Some (Some ql).
Proof.
  intros Hh Hl.
  apply nanmax_spec in Hh as [Hh _]. apply nanmin_spec in Hl as [Hl _].
  apply mask_ratio_some in Hh as (qh & Hqh & Hfh & _).
  apply mask_ratio_some in Hl as (ql & Hql & _ & _).
  destruct (nth_error_add_at_some h l (- (1 # 100)) _ _ Hql) as (ql' & Hql' & _).
  eauto.
Qed.

(** A pass takes 0.01 from one share and gives it to another. *)
Lemma adjust_step_total (m m' : Mix) :
  adjust_step m = Ok m' -> total_share (share m') == total_share (share m).
Proof.
  intros H. apply adjust_step_inv in H as (h & rh & l & rl & Hh & Hl & Hs & _ & _).
  destruct (adjust_step_entries m h l rh rl Hh Hl) as (qh & ql & Hqh & _ & Hql).
  rewrite Hs, (total_share_add_at _ _ _ _ Hql), (total_share_add_at _ _ _ _ Hqh).
  rewrite total_share_nan_if_zero. ring.
Qed.

Lemma adjust_step_length (m m' : Mix) :
  adjust_step m = Ok m' -> length (share m') = length (share m).
Proof.
  intros H. apply adjust_step_inv in H as (h & rh & l & rl & _ & _ & Hs & _ & _).
  now rewrite Hs, !length_add_at, length_map.
Qed.

(** The average after a pass: the average over the suppliers that the
    pass leaves unmasked, less 0.01 times the gap between the highest
    and the lowest of their ratios. *)
Lemma adjust_step_average (m m' : Mix) :
  adjust_step m = Ok m' ->
  exists h rh l rl,
    nanmax (mask_ratio (map nan_if_zero (share m)) (ratio m)) = Some (h, rh) /\
    nanmin (mask_ratio (map nan_if_zero (share m)) (ratio m)) = Some (l, rl) /\
    average_ratio m'
    == weighted_sum (mask_ratio (map nan_if_zero (share m)) (ratio m))
                    (map nan_if_zero (share m))
       - (1 # 100) * (rh - rl).
Proof.
  intros H. apply adjust_step_inv in H as (h & rh & l & rl & Hh & Hl & Hs & Hr & Ha).
  exists h, rh, l, rl. split; [exact Hh|]. split; [exact Hl|].
  destruct (adjust_step_entries m h l rh rl Hh Hl) as (qh & ql & Hqh & _ & Hql).
  rewrite Ha, Hr, Hs.
  apply nanmax_spec in Hh as [Hh _]. apply nanmin_spec in Hl as [Hl _].
  rewrite (weighted_sum_add_at _ _ _ _ _ _ Hql Hl).
  rewrite (weighted_sum_add_at _ _ _ _ _ _ Hqh Hh). simpl. ring.
Qed.

Lemma adjust_loop_total (fuel : nat) (target : Q) (m m' : Mix) :
  adjust_loop fuel target m = Done m' ->
  total_share (share m') == total_share (share m) /\
  length (share m') = length (share m) /\
  average_ratio m' <= target.
Proof.
  revert m. induction fuel as [|fuel IH]; intros m; simpl.
  - destruct (Qle_bool (average_ratio m) target) eqn:E; [|discriminate].
    intros H. inversion H; subst. apply Qle_bool_iff in E.
    split; [reflexivity|]. split; [reflexivity | exact E].
  - destruct (Qle_bool (average_ratio m) target) eqn:E.
    + intros H. inversion H; subst. apply Qle_bool_iff in E.
      split; [reflexivity|]. split; [reflexivity | exact E].
    + destruct (adjust_step m) as [m1|e] eqn:E1; [|discriminate].
      intros H. destruct (IH m1 H) as (Ht & Hlen & Ha).
      rewrite Ht, Hlen, (adjust_step_total _ _ E1), (adjust_step_length _ _ E1).
      split; [reflexivity|]. split; [reflexivity | exact Ha].
Qed.

(** *** Reading the shares and writing them back *)

Lemma collect_mix_shares (tab : Tables) (excs : list Exchange) (sh ra : list Q) :
  collect_mix tab excs = Ok (sh, ra) ->
  sh = map e_amount (filter is_cement excs) /\ length ra = length sh.
Proof.
  revert sh ra. induction excs as [|exc excs IH]; intros sh ra; simpl.
  - intros H. inversion H. auto.
  - unfold is_cement. destruct (is_cement_supply exc) as [[|]|e]; simpl;
      try discriminate.
    + destruct (e_location exc) as [loc|]; [|discriminate].
      destruct (dict_get pair_eqb (e_name exc, loc) (clinker_ratio_eco tab))
        as [r|]; [|discriminate].
      destruct (collect_mix tab excs) as [[sh' ra']|e]; simpl; [|discriminate].
      intros H. inversion H; subst. destruct (IH sh' ra' eq_refl) as [-> Hl].
      simpl. auto.
    + apply IH.
Qed.

Lemma write_back_shares (excs excs' : list Exchange) (sh : list Q) :
  write_back excs sh = Ok excs' ->
  length sh = length (filter is_cement excs) ->
  map e_amount (filter is_cement excs') = sh.
Proof.
  revert sh excs'. induction excs as [|exc excs IH]; intros sh excs'; simpl.
  - intros H Hl. inversion H. destruct sh; [reflexivity | discriminate].
  - unfold is_cement at 1. destruct (is_cement_supply exc) as [[|]|e] eqn:Ec;
      simpl; try discriminate.
    + destruct sh as [|s sh]; [discriminate|].
      destruct (write_back excs sh) as [rest|e] eqn:Er; simpl; [|discriminate].
      intros H Hl. inversion H; subst. simpl.
      assert (Hc : is_cement (set_e_amount s exc) = true)
        by (unfold is_cement; change (is_cement_supply (set_e_amount s exc))
              with (is_cement_supply exc); now rewrite Ec).
      rewrite Hc. simpl. f_equal. apply (IH sh rest Er). now inversion Hl.
    + destruct (write_back excs sh) as [rest|e] eqn:Er; simpl; [|discriminate].
      intros H Hl. inversion H; subst. simpl.
      unfold is_cement at 1. rewrite Ec. now apply IH.
Qed.

Lemma total_share_numbers (l : list Q) : total_share (map Some l) = sum_Q l.
Proof.
  unfold total_share. rewrite map_map. simpl. now rewrite map_id.
Qed.

(** What [adjust_clinker_ratio] writes back for one dataset. *)
Lemma adjust_clinker_ratio_of_done (tab : Tables) (fuel : nat) (d : string)
      (act act' : Activity) :
  adjust_clinker_ratio_of tab fuel d act = Done act' ->
  exists target ra m,
    clinker_ratio_remind tab d = Some target /\
    collect_mix tab (a_exchanges act) = Ok (cement_shares act, ra) /\
    adjust_loop fuel target (initial_mix (cement_shares act) ra) = Done m /\
    cement_shares act' = map nan_to_num (share m).
Proof.
  unfold adjust_clinker_ratio_of.
  destruct (clinker_ratio_remind tab d) as [target|]; [|discriminate].
  destruct (collect_mix tab (a_exchanges act)) as [[sh ra]|e] eqn:Ec;
    [|discriminate].
  destruct (collect_mix_shares _ _ _ _ Ec) as [Hsh Hlen].
  destruct (adjust_loop fuel target (initial_mix sh ra)) as [m| |] eqn:El;
    try discriminate.
  destruct (write_back (a_exchanges act) (map nan_to_num (share m)))
    as [excs|e] eqn:Ew; [|discriminate].
  intros H. inversion H; subst act'; clear H.
  exists target, ra, m. fold (cement_shares act) in Hsh. subst sh.
  repeat split; try assumption; try reflexivity.
  unfold cement_shares at 1. simpl.
  apply (write_back_shares _ _ _ Ew).
  destruct (adjust_loop_total _ _ _ _ El) as (_ & Hl & _).
  rewrite length_map, Hl. simpl. unfold cement_shares.
  now rewrite !length_map.
Qed.

(** C6, as the code has it.  Whenever [adjust_clinker_ratio] finishes on
    a dataset, the cement shares written back sum to the sum of the
    shares at entry; every pass of the loop keeps the sum of the shares.
    A pass changes the average by exactly -0.01 times the gap between
    the highest and the lowest unmasked ratio, counted from the average
    over the suppliers that the pass leaves unmasked: the average
    strictly decreases in a pass where these two ratios differ and the
    masking does not raise the average. *)
Theorem adjust_conserves_shares :
  (forall (tab : Tables) (fuel : nat) (d : string) (act act' : Activity),
      adjust_clinker_ratio_of tab fuel d act = Done act' ->
      sum_Q (cement_shares act') == sum_Q (cement_shares act)) /\
  (forall m m' : Mix,
      adjust_step m = Ok m' ->
      total_share (share m') == total_share (share m) /\
      exists h rh l rl,
        nanmax (ratio m') = Some (h, rh) /\
        nanmin (ratio m') = Some (l, rl) /\
        average_ratio m'
        == weighted_sum (ratio m') (map nan_if_zero (share m))
           - (1 # 100) * (rh - rl) /\
        (rl < rh ->
         weighted_sum (ratio m') (map nan_if_zero (share m)) <= average_ratio m ->
         average_ratio m' < average_ratio m)).
Proof.
  split.
  - intros tab fuel d act act' H.
    destruct (adjust_clinker_ratio_of_done _ _ _ _ _ H)
      as (target & ra & m & _ & _ & El & Hs).
    destruct (adjust_loop_total _ _ _ _ El) as (Ht & _ & _).
    rewrite Hs. fold (total_share (share m)). rewrite Ht. simpl.
    now rewrite total_share_numbers.
  - intros m m' H. split; [now apply adjust_step_total|].
    destruct (adjust_step_average _ _ H) as (h & rh & l & rl & Hh & Hl & Ha).
    destruct (adjust_step_inv _ _ H) as (_ & _ & _ & _ & _ & _ & _ & Hr & _).
    exists h, rh, l, rl. rewrite Hr. repeat split; try assumption.
    intros Hgap Hmask. rewrite Ha. lra.
Qed.

(** *** The passes left to a share *)

Lemma Qfloor_unique (x : Q) (z : Z) :
  inject_Z z <= x -> x < inject_Z (z + 1) -> Qfloor x = z.
Proof.
  intros Hlo Hhi.
  assert (H1 : (z <= Qfloor x)%Z).
  { rewrite <- (Qfloor_Z z) at 1. now apply Qfloor_resp_le. }
  assert (H2 : (Qfloor x < z + 1)%Z).
  { rewrite Zlt_Qlt. eapply Qle_lt_trans; [apply Qfloor_le | exact Hhi]. }
  lia.
Qed.

Lemma Qfloor_nonneg (x : Q) : 0 <= x -> (0 <= Qfloor x)%Z.
Proof.
  intros H. rewrite <- (Qfloor_Z 0). now apply Qfloor_resp_le.
Qed.

Lemma passes_left_under (q : Q) : q < 1 # 1000 -> passes_left q = O.
Proof.
  intros H. unfold passes_left.
  destruct (Qle_bool (1 # 1000) q) eqn:E; [|reflexivity].
  apply Qle_bool_iff in E. lra.
Qed.

Lemma passes_left_over (q : Q) : 1 # 1000 <= q -> (1 <= passes_left q)%nat.
Proof.
  intros H. unfold passes_left. apply Qle_bool_iff in H. rewrite H. lia.
Qed.

(** Taking 0.01 from a share over the floor uses up one pass. *)
Lemma passes_left_take (q : Q) :
  1 # 1000 <= q -> passes_left q = S (passes_left (q + - (1 # 100))).
Proof.
  intros H. unfold passes_left at 1.
  rewrite (proj2 (Qle_bool_iff _ _) H). f_equal.
  destruct (Qlt_le_dec (q + - (1 # 100)) (1 # 1000)) as [Hlt|Hge].
  - rewrite (passes_left_under _ Hlt).
    rewrite (Qfloor_unique ((q - (1 # 1000)) * 100) 0); [reflexivity | |].
    + change (inject_Z 0) with 0. lra.
    + change (inject_Z (0 + 1)) with 1. lra.
  - unfold passes_left. rewrite (proj2 (Qle_bool_iff _ _) Hge).
    set (z := Qfloor ((q + - (1 # 100) - (1 # 1000)) * 100)).
    assert (Hz : (0 <= z)%Z) by (apply Qfloor_nonneg; lra).
    rewrite (Qfloor_unique ((q - (1 # 1000)) * 100) (z + 1)).
    + rewrite Z2Nat.inj_add by lia. simpl. lia.
    + rewrite inject_Z_plus. change (inject_Z 1) with 1.
      pose proof (Qfloor_le ((q + - (1 # 100) - (1 # 1000)) * 100)) as Hf.
      fold z in Hf. lra.
    + rewrite !inject_Z_plus. change (inject_Z 1) with 1.
      pose proof (Qlt_floor ((q + - (1 # 100) - (1 # 1000)) * 100)) as Hf.
      fold z in Hf. rewrite inject_Z_plus in Hf.
      change (inject_Z 1) with 1 in Hf. lra.
Qed.

(** Masking does not change the passes left: a masked share has none. *)
Lemma passes_above_mask (rho : Q) (ratio share : list (option Q)) :
  passes_above rho (mask_ratio (map nan_if_zero share) ratio)
               (map nan_if_zero share)
  = passes_above rho ratio share.
Proof.
  revert ratio. induction share as [|s share IH]; intros [|r ratio]; simpl;
    try reflexivity.
  rewrite IH. f_equal.
  destruct s as [q|]; simpl; [|now destruct r].
  destruct (Qeq_bool q 0) eqn:Ez; simpl.
  - apply Qeq_bool_iff in Ez. destruct r as [x|]; [|reflexivity].
    destruct (Qle_bool x rho); [reflexivity|].
    symmetry. apply passes_left_under. lra.
  - destruct (Qle_bool (1 # 1000) q) eqn:Ef; [reflexivity|].
    destruct r as [x|]; [|reflexivity].
    destruct (Qle_bool x rho); [reflexivity|].
    unfold passes_left. now rewrite Ef.
Qed.

Lemma passes_above_take (rho : Q) (ratio share : list (option Q))
      (h : nat) (rh q : Q) :
  nth_error ratio h = Some (Some rh) ->
  rho < rh ->
  nth_error share h = Some (Some q) ->
  1 # 1000 <= q ->
  passes_above rho ratio share
  = S (passes_above rho ratio (add_at h (- (1 # 100)) share)).
Proof.
  intros Hr Hgt. revert h share Hr.
  induction ratio as [|r ratio IH]; intros [|h] [|s share] Hr Hs Hq;
    simpl in *; try discriminate.
  - inversion Hr; inversion Hs; subst. simpl.
    destruct (Qle_bool rh rho) eqn:E; [apply Qle_bool_iff in E; lra|].
    now rewrite (passes_left_take q Hq).
  - rewrite (IH h share Hr Hs Hq). lia.
Qed.

Lemma passes_above_give (rho : Q) (ratio share : list (option Q))
      (l : nat) (rl d : Q) :
  nth_error ratio l = Some (Some rl) ->
  rl <= rho ->
  passes_above rho ratio (add_at l d share) = passes_above rho ratio share.
Proof.
  intros Hr Hle. revert l share Hr.
  induction ratio as [|r ratio IH]; intros [|l] [|s share] Hr;
    simpl in *; try discriminate; try reflexivity.
  - inversion Hr; subst. apply Qle_bool_iff in Hle. rewrite Hle.
    now destruct s.
  - now rewrite (IH l share Hr).
Qed.

Lemma passes_above_none (rho : Q) (ratio share : list (option Q)) :
  Forall (fun r => forall x, r = Some x -> x <= rho) ratio ->
  passes_above rho ratio share = O.
Proof.
  intros H. revert share. induction H as [|r ratio Hr _ IH]; intros [|s share];
    simpl; try reflexivity.
  rewrite IH. destruct r as [x|]; [|reflexivity].
  specialize (Hr x eq_refl). apply Qle_bool_iff in Hr. rewrite Hr.
  now destruct s.
Qed.

Lemma passes_above_zero (rho : Q) (ratio share : list (option Q)) :
  Forall2 (cell_masked rho) share ratio ->
  passes_above rho ratio share = O ->
  Forall (fun r => forall x, r = Some x -> x == rho) ratio.
Proof.
  induction 1 as [|s r share ratio [Hc _] _ IH]; simpl; intros H0; constructor.
  - intros x ->. destruct (Hc x eq_refl) as (q & -> & Hq & Hrho).
    destruct (Qle_bool x rho) eqn:E.
    + apply Qle_bool_iff in E. lra.
    + pose proof (passes_left_over q Hq). lia.
  - apply IH. lia.
Qed.

Lemma passes_above_bound (rho : Q) (ratio share : list Q) :
  (passes_above rho (map Some ratio) (map Some share)
   <= fold_right (fun q n => passes_left q + n) 0 share)%nat.
Proof.
  revert ratio. induction share as [|q share IH]; intros [|x ratio]; simpl;
    try lia.
  specialize (IH ratio). destruct (Qle_bool x rho); lia.
Qed.

(** *** The invariant of the loop *)

Lemma Forall2_add_at (P P' : option Q -> option Q -> Prop)
      (share ratio : list (option Q)) (i : nat) (d : Q) (ri : option Q) :
  Forall2 P share ratio ->
  (forall s r, P s r -> P' s r) ->
  nth_error ratio i = Some ri ->
  (forall s, P s ri -> P' (option_map (fun q => q + d) s) ri) ->
  Forall2 P' (add_at i d share) ratio.
Proof.
  intros H Hw. revert i. induction H as [|s r share ratio Hsr Hrest IH];
    intros [|i] Hi Hat; simpl in *; try discriminate.
  - inversion Hi; subst. constructor; [now apply Hat|].
    clear - Hrest Hw. induction Hrest; constructor; auto.
  - constructor; [now apply Hw | now apply IH].
Qed.

Lemma cell_masked_mask (rho : Q) (share ratio : list (option Q)) :
  Forall2 (cell rho) share ratio ->
  Forall2 (cell_masked rho) (map nan_if_zero share)
          (mask_ratio (map nan_if_zero share) ratio).
Proof.
  induction 1 as [|s r share ratio [Hc Hlow] _ IH]; simpl; constructor;
    [|exact IH].
  split.
  - intros x Hx. destruct (above_floor (nan_if_zero s)) eqn:E; [|discriminate].
    apply above_floor_some in E as (q & Eq & Hq). rewrite Eq.
    apply nan_if_zero_some in Eq. subst r.
    destruct (Hc x eq_refl) as (q' & Hs & Himp). rewrite Eq in Hs.
    inversion Hs; subst. eauto.
  - intros q Hq. apply nan_if_zero_some in Hq. now apply Hlow.
Qed.

Lemma cell_masked_cell (rho : Q) (s r : option Q) :
  cell_masked rho s r -> cell rho s r.
Proof.
  intros [Hc Hlow]. split; [|exact Hlow].
  intros x Hx. destruct (Hc x Hx) as (q & Hs & _ & Hrho). eauto.
Qed.

(** The shares after the two updates of a pass. *)
Lemma cell_after_pass (rho : Q) (share ratio : list (option Q))
      (h l : nat) (rh rl : Q) :
  Forall2 (cell_masked rho) share ratio ->
  nth_error ratio h = Some (Some rh) ->
  nth_error ratio l = Some (Some rl) ->
  Forall2 (cell rho) (add_at l (1 # 100) (add_at h (- (1 # 100)) share)) ratio.
Proof.
  intros H Hh Hl.
  assert (Hrl : rho <= rl).
  { clear - H Hl. revert l Hl. induction H as [|s r share ratio [Hc _] _ IH];
      intros [|l] Hl; simpl in Hl; try discriminate.
    - inversion Hl; subst. destruct (Hc rl eq_refl) as (q & _ & _ & Hrho).
      exact Hrho.
    - now apply (IH l). }
  apply (Forall2_add_at (cell rho) (cell rho) _ _ l _ (Some rl)); auto.
  - apply (Forall2_add_at (cell_masked rho) (cell rho) _ _ h _ (Some rh)); auto.
    + apply cell_masked_cell.
    + intros s [Hc Hlow]. destruct (Hc rh eq_refl) as (q & -> & Hq & Hrho).
      simpl. split.
      * intros x Hx. inversion Hx; subst. eauto.
      * intros q' Hq'. inversion Hq'; subst. lra.
  - intros s [Hc Hlow]. destruct (Hc rl eq_refl) as (q & -> & Himp).
    simpl. split.
    + intros x Hx. inversion Hx; subst. eauto.
    + intros q' Hq'. inversion Hq'; subst.
      specialize (Hlow q eq_refl). lra.
Qed.

Lemma nth_error_nan_if_zero (share : list (option Q)) (i : nat) (q : Q) :
  nth_error share i = Some (Some q) -> ~ q == 0 ->
  nth_error (map nan_if_zero share) i = Some (Some q).
Proof.
  intros H Hq. rewrite nth_error_map, H. simpl.
  destruct (Qeq_bool q 0) eqn:E; [|reflexivity].
  apply Qeq_bool_iff in E. contradiction.
Qed.

Lemma mask_ratio_keep (share ratio : list (option Q)) (i : nat) (q : Q)
      (r : option Q) :
  nth_error share i = Some (Some q) -> 1 # 1000 <= q ->
  nth_error ratio i = Some r ->
  nth_error (mask_ratio share ratio) i = Some r.
Proof.
  revert ratio i. induction share as [|s share IH]; intros [|r0 ratio] [|i] Hs Hq Hr;
    simpl in *; try discriminate.
  - inversion Hs; inversion Hr; subst. simpl.
    apply Qle_bool_iff in Hq. now rewrite Hq.
  - now apply IH.
Qed.

(** When all the unmasked ratios are [rho], the average is [rho] times
    the unmasked shares. *)
Lemma weighted_sum_flat (rho : Q) (ratio share : list (option Q)) :
  Forall (fun r => forall x, r = Some x -> x == rho) ratio ->
  weighted_sum ratio share == rho * unmasked_share ratio share.
Proof.
  intros H. revert share. induction H as [|r ratio Hr _ IH]; intros [|s share];
    simpl; try ring.
  rewrite IH. destruct r as [x|]; simpl.
  - rewrite (Hr x eq_refl). ring.
  - ring.
Qed.

Lemma inject_Z_of_nat_S (n : nat) :
  inject_Z (Z.of_nat (S n)) == inject_Z (Z.of_nat n) + 1.
Proof.
  rewrite Nat2Z.inj_succ, <- Z.add_1_r, inject_Z_plus. reflexivity.
Qed.

(** No share being under -0.009, the unmasked shares are within 0.009
    per supplier of the total. *)
Lemma unmasked_share_bound (rho : Q) (share ratio : list (option Q)) :
  Forall2 (cell_masked rho) share ratio ->
  unmasked_share ratio share
  <= total_share share + (9 # 1000) * inject_Z (Z.of_nat (length share)).
Proof.
  unfold total_share.
  induction 1 as [|s r share ratio [Hc Hlow] _ IH].
  - vm_compute. discriminate.
  - cbn [unmasked_share map sum_Q fold_right length].
    rewrite inject_Z_of_nat_S.
    assert (Hn : 0 <= inject_Z (Z.of_nat (length share))).
    { change 0 with (inject_Z 0). rewrite <- Zle_Qle. lia. }
    unfold sum_Q in IH.
    assert (Hs : - (9 # 1000) <= nan_to_num s).
    { destruct s as [q|]; simpl; [now apply Hlow | lra]. }
    destruct r as [x|]; lra.
Qed.

(** A pass from a state that satisfies the invariant: it raises
    nothing; when no pass is left to the suppliers above [rho], the
    average it computes is under the target; otherwise the invariant
    holds again and one pass has been used. *)
Lemma adjust_step_progress (rho total target : Q) (m : Mix) :
  mix_ok rho total m ->
  0 <= rho ->
  rho * (total + (9 # 1000) * inject_Z (Z.of_nat (length (share m)))) <= target ->
  exists m',
    adjust_step m = Ok m' /\
    length (share m') = length (share m) /\
    total_share (share m') == total /\
    (passes_above rho (ratio m) (share m) = O -> average_ratio m' <= target) /\
    (passes_above rho (ratio m) (share m) <> O ->
     mix_ok rho total m' /\
     passes_above rho (ratio m) (share m)
     = S (passes_above rho (ratio m') (share m'))).
Proof.
  intros (Hc & (i & q & Hsi & Hq & Hri) & Ht & Ha) Hrho Htar.
  pose proof (cell_masked_mask _ _ _ Hc) as Hc1.
  assert (Hsi1 : nth_error (map nan_if_zero (share m)) i = Some (Some q))
    by (apply nth_error_nan_if_zero; [assumption | lra]).
  pose proof (mask_ratio_keep _ _ _ _ _ Hsi1 Hq Hri) as Hri1.
  destruct (nanmax_some _ _ _ Hri1) as (h & rh & Eh).
  destruct (nanmin_some _ _ _ Hri1) as (l & rl & El).
  assert (Estep : adjust_step m
                  = Ok (mkMix (add_at l (1 # 100)
                                 (add_at h (- (1 # 100)) (map nan_if_zero (share m))))
                              (mask_ratio (map nan_if_zero (share m)) (ratio m))
                              (weighted_sum
                                 (mask_ratio (map nan_if_zero (share m)) (ratio m))
                                 (add_at l (1 # 100)
                                    (add_at h (- (1 # 100))
                                       (map nan_if_zero (share m))))))).
  { unfold adjust_step, nanargmax, nanargmin. rewrite Eh, El. reflexivity. }
  destruct (adjust_step_entries m h l rh rl Eh El) as (qh & ql & Hqh & Hfh & Hql).
  destruct (nanmax_spec _ _ _ Eh) as [Hh Hmax].
  destruct (nanmin_spec _ _ _ El) as [Hl Hmin].
  assert (Hrl : rl <= rho) by (exact (Forall_nth_error _ _ _ _ Hmin Hri1 rho eq_refl)).
  assert (Hrh : rho <= rh) by (exact (Forall_nth_error _ _ _ _ Hmax Hri1 rho eq_refl)).
  eexists. split; [exact Estep|]. cbn [share ratio average_ratio].
  split; [now rewrite !length_add_at, length_map|].
  split.
  { rewrite <- Ht. apply (adjust_step_total _ _ Estep). }
  split.
  - intros H0. rewrite <- passes_above_mask in H0.
    pose proof (passes_above_zero _ _ _ Hc1 H0) as Hflat.
    rewrite (weighted_sum_flat rho _ _ Hflat).
    rewrite (unmasked_share_add_at _ _ _ _ _ _ Hql Hl).
    rewrite (unmasked_share_add_at _ _ _ _ _ _ Hqh Hh).
    pose proof (unmasked_share_bound _ _ _ Hc1) as Hb.
    rewrite total_share_nan_if_zero, Ht, length_map in Hb.
    eapply Qle_trans; [|exact Htar].
    rewrite (Qmult_comm rho), (Qmult_comm rho (total + _)).
    apply Qmult_le_compat_r; [lra | exact Hrho].
  - intros Hpos.
    assert (Hgt : rho < rh).
    { destruct (Qlt_le_dec rho rh) as [?|Hle]; [assumption|]. exfalso.
      apply Hpos. rewrite <- passes_above_mask. apply passes_above_none.
      eapply Forall_impl; [|exact Hmax]. simpl. intros r Hr x Hx.
      specialize (Hr x Hx). lra. }
    split.
    + split; [|split; [|split]]; cbn [share ratio average_ratio].
      * now apply (cell_after_pass rho _ _ h l rh rl).
      * assert (Hne : h <> i).
        { intros ->. rewrite Hri1 in Hh. inversion Hh; subst. lra. }
        assert (Hi2 : nth_error (add_at h (- (1 # 100)) (map nan_if_zero (share m))) i
                      = Some (Some q))
          by (now rewrite nth_error_add_at_other).
        destruct (nth_error_add_at_some l i (1 # 100) _ _ Hi2)
          as (q' & Hq' & [->|[_ ->]]).
        -- exists i, q. auto.
        -- exists i, (q + (1 # 100)). split; [assumption|]. split; [lra | assumption].
      * rewrite <- Ht. apply (adjust_step_total _ _ Estep).
      * reflexivity.
    + rewrite <- passes_above_mask.
      rewrite (passes_above_take rho _ _ h rh qh Hh Hgt Hqh Hfh).
      f_equal. symmetry. eapply passes_above_give; eauto.
Qed.

(** *** Termination *)

Lemma adjust_loop_more (target : Q) (k : nat) :
  forall (m m' : Mix) (k' : nat),
    adjust_loop k target m = Done m' -> (k <= k')%nat ->
    adjust_loop k' target m = Done m'.
Proof.
  induction k as [|k IH]; intros m m' k' H Hle.
  - simpl in H. destruct (Qle_bool (average_ratio m) target) eqn:E;
      [|discriminate].
    destruct k'; simpl; now rewrite E.
  - destruct k' as [|k']; [lia|]. simpl in *.
    destruct (Qle_bool (average_ratio m) target); [exact H|].
    destruct (adjust_step m) as [m1|e]; [|discriminate].
    apply IH; [exact H | lia].
Qed.

Lemma adjust_loop_done (rho total target : Q) :
  0 <= rho ->
  forall (k : nat) (m : Mix),
    mix_ok rho total m ->
    rho * (total + (9 # 1000) * inject_Z (Z.of_nat (length (share m)))) <= target ->
    passes_above rho (ratio m) (share m) = k ->
    exists m', adjust_loop (S k) target m = Done m'.
Proof.
  intros Hrho. induction k as [|k IH]; intros m Hok Htar Hk;
    cbn [adjust_loop];
    (destruct (Qle_bool (average_ratio m) target); [eauto|]);
    destruct (adjust_step_progress rho total target m Hok Hrho Htar)
      as (m1 & Estep & Hlen & _ & H0 & Hpos); rewrite Estep.
  - specialize (H0 Hk). apply Qle_bool_iff in H0. rewrite H0. eauto.
  - destruct Hpos as [Hok1 Hk1]; [lia|].
    apply IH; [exact Hok1 | now rewrite Hlen | lia].
Qed.

Lemma passes_left_bound (q : Q) :
  0 <= q -> inject_Z (Z.of_nat (passes_left q)) <= 100 * q + 1.
Proof.
  intros Hq. unfold passes_left.
  destruct (Qle_bool (1 # 1000) q) eqn:E.
  - apply Qle_bool_iff in E.
    rewrite inject_Z_of_nat_S, Z2Nat.id by (apply Qfloor_nonneg; lra).
    pose proof (Qfloor_le ((q - (1 # 1000)) * 100)). lra.
  - change (inject_Z (Z.of_nat 0)) with 0. lra.
Qed.

Lemma passes_bound_bound (share : list Q) :
  Forall (fun s => 0 <= s) share ->
  inject_Z (Z.of_nat (passes_bound share))
  <= 100 * sum_Q share + inject_Z (Z.of_nat (length share)) + 1.
Proof.
  unfold passes_bound. rewrite inject_Z_of_nat_S.
  induction 1 as [|q share Hq _ IH]; simpl fold_right; simpl length.
  - vm_compute. discriminate.
  - rewrite Nat2Z.inj_add, inject_Z_plus, inject_Z_of_nat_S.
    pose proof (passes_left_bound q Hq). simpl sum_Q. lra.
Qed.

(** C4, as the code has it.  The shares being non-negative, let [rho]
    be the lowest ratio among the suppliers whose share is over the
    floor of 0.001, with [rho >= 0].  When [rho] times (the sum of the
    shares plus 0.009 per supplier) is at most the target, the loop is
    left normally within [passes_bound share] passes, a number that is
    at most 100 times the sum of the shares, plus the number of
    suppliers, plus one; the final average is at most the target and
    the sum of the shares is kept. *)
Theorem adjust_loop_terminates (shares ratios : list Q) (rho target : Q) :
  Forall2 (fun s r => 0 <= s /\ (1 # 1000 <= s -> rho <= r)) shares ratios ->
  (exists i s, nth_error shares i = Some s /\ 1 # 1000 <= s /\
               nth_error ratios i = Some rho) ->
  0 <= rho ->
  rho * (sum_Q shares + (9 # 1000) * inject_Z (Z.of_nat (length shares)))
  <= target ->
  (exists m,
      adjust_loop (passes_bound shares) target (initial_mix shares ratios)
      = Done m /\
      average_ratio m <= target /\
      total_share (share m) == sum_Q shares) /\
  inject_Z (Z.of_nat (passes_bound shares))
  <= 100 * sum_Q shares + inject_Z (Z.of_nat (length shares)) + 1.
Proof.
  intros Hcells (i & s & Hsi & Hs & Hri) Hrho Htar. split.
  - assert (Hok : mix_ok rho (sum_Q shares) (initial_mix shares ratios)).
    { split; [|split; [|split]]; cbn [share ratio average_ratio initial_mix].
      - clear - Hcells. induction Hcells as [|q x shares ratios [Hq Himp] _ IH];
          simpl; constructor; [|exact IH].
        split.
        + intros x' Hx. inversion Hx; subst. eauto.
        + intros q' Hq'. inversion Hq'; subst. lra.
      - exists i, s. rewrite !nth_error_map, Hsi, Hri. auto.
      - now rewrite total_share_numbers.
      - reflexivity. }
    assert (Htar' : rho * (sum_Q shares
                           + (9 # 1000)
                             * inject_Z (Z.of_nat
                                           (length (share (initial_mix shares ratios)))))
                    <= target).
    { cbn [share initial_mix]. now rewrite length_map. }
    destruct (adjust_loop_done rho (sum_Q shares) target Hrho _ _ Hok Htar' eq_refl)
      as (m & Hm).
    exists m.
    assert (Hm' : adjust_loop (passes_bound shares) target
                              (initial_mix shares ratios) = Done m).
    { apply (adjust_loop_more _ _ _ _ _ Hm). unfold passes_bound.
      apply le_n_S. cbn [share ratio initial_mix].
      apply passes_above_bound. }
    split; [exact Hm'|].
    destruct (adjust_loop_total _ _ _ _ Hm') as (Ht & _ & Ha).
    split; [exact Ha|].
    rewrite Ht. cbn [share initial_mix]. now rewrite total_share_numbers.
  - apply passes_bound_bound.
    clear - Hcells. induction Hcells as [|q x shares ratios [Hq _] _ IH];
      constructor; assumption.
Qed.

Lemma adjust_loop_terminates_witness :
  exists m,
    adjust_loop (passes_bound [9 # 10; 1 # 10]) (8 # 10)
                (initial_mix [9 # 10; 1 # 10] [9 # 10; 5 # 10]) = Done m /\
    average_ratio m <= 8 # 10.
Proof.
  destruct (adjust_loop_terminates [9 # 10; 1 # 10] [9 # 10; 5 # 10]
                                   (5 # 10) (8 # 10))
    as [(m & Hm & Ha & _) _].
  - repeat constructor; intros; vm_compute; discriminate.
  - exists 1%nat, (1 # 10). repeat split; vm_compute; discriminate.
  - vm_compute. discriminate.
  - vm_compute. discriminate.
  - exists m. split; assumption.
Defined.

(** *** A loop that never ends *)

Lemma mask_ratio_lone (low masks : list (option Q)) (q : Q) (r : option Q) :
  length masks = length low ->
  Forall (fun s => above_floor s = false) low ->
  1 # 1000 <= q ->
  mask_ratio (low ++ [Some q]) (masks ++ [r])
  = map (fun _ => None) low ++ [r].
Proof.
  intros Hlen Hlow Hq. revert masks Hlen.
  induction Hlow as [|s low Hs _ IH]; intros [|x masks] Hlen; simpl in *;
    try discriminate.
  - apply Qle_bool_iff in Hq. now rewrite Hq.
  - rewrite Hs. f_equal. apply IH. now inversion Hlen.
Qed.

Lemma nanmax_lone (low : list (option Q)) (r : Q) :
  nanmax (map (fun _ => None) low ++ [Some r]) = Some (length low, r).
Proof.
  induction low as [|s low IH]; simpl; [reflexivity|]. now rewrite IH.
Qed.

Lemma nanmin_lone (low : list (option Q)) (r : Q) :
  nanmin (map (fun _ => None) low ++ [Some r]) = Some (length low, r).
Proof.
  induction low as [|s low IH]; simpl; [reflexivity|]. now rewrite IH.
Qed.

Lemma add_at_lone (low : list (option Q)) (q d : Q) :
  add_at (length low) d (low ++ [Some q]) = low ++ [Some (q + d)].
Proof.
  induction low as [|s low IH]; simpl; [reflexivity|]. now rewrite IH.
Qed.

Lemma weighted_sum_lone (low : list (option Q)) (q r : Q) :
  weighted_sum (map (fun _ => None) low ++ [Some r]) (low ++ [Some q]) == r * q.
Proof.
  induction low as [|s low IH]; simpl.
  - ring.
  - rewrite IH. ring.
Qed.

(** From such a state a pass leads to such a state. *)
Lemma lone_step (target : Q) (m : Mix) :
  lone target m -> exists m', adjust_step m = Ok m' /\ lone target m'.
Proof.
  destruct m as [sh ra av].
  intros (low & masks & q & r & Hs & Hr & Hlen & Hlow & Hq & Hrq & Ha).
  cbn [share ratio average_ratio] in *. subst sh ra.
  assert (E0 : nan_if_zero (Some q) = Some q).
  { simpl. destruct (Qeq_bool q 0) eqn:E; [|reflexivity].
    apply Qeq_bool_iff in E. lra. }
  assert (Hlow1 : Forall (fun s => above_floor s = false) (map nan_if_zero low)).
  { clear - Hlow. induction Hlow; simpl; constructor; assumption. }
  assert (Hlow2 : Forall (fun s => above_floor (nan_if_zero s) = false)
                         (map nan_if_zero low)).
  { clear - Hlow. induction Hlow as [|s low Hs _ IH]; simpl; constructor;
      [|exact IH].
    destruct s as [x|]; simpl in *; [|reflexivity].
    destruct (Qeq_bool x 0) eqn:E; simpl; [reflexivity|]. now rewrite E. }
  eexists. split.
  - unfold adjust_step, nanargmax, nanargmin. cbn [share ratio].
    rewrite map_app. cbn [map]. rewrite E0.
    rewrite (mask_ratio_lone (map nan_if_zero low) masks q (Some r))
      by (rewrite ?length_map; assumption).
    rewrite nanmax_lone, nanmin_lone. cbn [bind].
    rewrite !add_at_lone. reflexivity.
  - exists (map nan_if_zero low), (map (fun _ => None) (map nan_if_zero low)),
           (q + - (1 # 100) + (1 # 100)), r.
    cbn [share ratio average_ratio].
    split; [reflexivity|]. split; [reflexivity|].
    split; [now rewrite !length_map|]. split; [exact Hlow2|].
    split; [lra|].
    pose proof (weighted_sum_lone (map nan_if_zero low)
                                  (q + - (1 # 100) + (1 # 100)) r) as Hw.
    split; [|rewrite Hw]; nra.
Qed.

Lemma lone_running (target : Q) (fuel : nat) :
  forall m, lone target m -> adjust_loop fuel target m = Running.
Proof.
  induction fuel as [|fuel IH]; intros m Hm;
    pose proof Hm as (low & masks & q & r & _ & _ & _ & _ & _ & _ & Ha); simpl;
    (destruct (Qle_bool (average_ratio m) target) eqn:E;
     [apply Qle_bool_iff in E; lra|]).
  - reflexivity.
  - destruct (lone_step target m Hm) as (m' & -> & Hm'). now apply IH.
Qed.

(** A loop that is still running after the passes it has made from
    [m] to [m'] whatever it is given from [m'], is so from [m]. *)
Lemma run_passes_running (target : Q) (k : nat) :
  forall m m',
    run_passes k target m = Some m' ->
    (forall fuel, adjust_loop fuel target m' = Running) ->
    forall fuel, adjust_loop fuel target m = Running.
Proof.
  induction k as [|k IH]; intros m m' Hrun Hm' fuel; simpl in Hrun.
  - inversion Hrun; subst. apply Hm'.
  - destruct (Qle_bool (average_ratio m) target) eqn:E; [discriminate|].
    destruct (adjust_step m) as [m1|e] eqn:E1; [|discriminate].
    destruct fuel as [|fuel]; simpl; rewrite E; [reflexivity|].
    rewrite E1. now apply (IH m1 m').
Qed.

(** C4 fails as stated.  With ratios 0.5 and 0.9, shares 0.0005 and
    0.9995 and a target of 0.8, the average at entry is over the target,
    one ratio is above it and one below, and the loop never ends:
    whatever the number of passes allowed, it is still running.  The
    same with shares 0.005, 0.0505 and 0.9445, all over the floor and of
    sum 1, ratios 0.9, 0.6 and 0.5 and a target of 0.5022: after seven
    passes the supplier of ratio 0.5 is alone over the floor with a
    share of 1.0045, and the average stays at 0.50225. *)
Lemma adjust_loop_counterexample :
  ((8 # 10 <= average_ratio mix_stuck /\ 8 # 10 < 9 # 10 /\ 5 # 10 < 8 # 10) /\
   forall fuel, adjust_loop fuel (8 # 10) mix_stuck = Running) /\
  ((5022 # 10000 <= average_ratio mix_drift /\ 5022 # 10000 < 9 # 10 /\
    5 # 10 < 5022 # 10000) /\
   forall fuel, adjust_loop fuel (5022 # 10000) mix_drift = Running).
Proof.
  split; split.
  - repeat split; vm_compute; congruence.
  - intros fuel. apply lone_running.
    exists [Some (5 # 10000)], [Some (5 # 10)], (9995 # 10000), (9 # 10).
    repeat split; try reflexivity; try (vm_compute; congruence).
    repeat constructor.
  - repeat split; vm_compute; congruence.
  - destruct (run_passes 7 (5022 # 10000) mix_drift) as [m7|] eqn:E;
      [|vm_compute in E; discriminate].
    apply (run_passes_running _ 7 _ m7 E).
    intros fuel. apply lone_running.
    vm_compute in E. inversion E; subst m7; clear E.
    eexists [_; _], [_; _], _, _.
    repeat split; try reflexivity; try (vm_compute; congruence).
    repeat constructor.
Qed.

Lemma adjust_conserves_shares_witness :
  (exists act',
      adjust_clinker_ratio_of tab_ex 20 "CAZ" market_caz = Done act' /\
      sum_Q (cement_shares act') == sum_Q (cement_shares market_caz)) /\
  (exists m',
      adjust_step (initial_mix [9 # 10; 1 # 10] [9 # 10; 5 # 10]) = Ok m' /\
      average_ratio m'
      < average_ratio (initial_mix [9 # 10; 1 # 10] [9 # 10; 5 # 10])).
Proof.
  split.
  - destruct (adjust_clinker_ratio_of tab_ex 20 "CAZ" market_caz)
      as [act'|e|] eqn:E.
    + exists act'. split; [reflexivity|].
      apply (proj1 adjust_conserves_shares _ _ _ _ _ E).
    + vm_compute in E. discriminate.
    + vm_compute in E. discriminate.
  - destruct (adjust_step (initial_mix [9 # 10; 1 # 10] [9 # 10; 5 # 10]))
      as [m'|e] eqn:E; [|vm_compute in E; discriminate].
    exists m'. split; [reflexivity|].
    destruct (proj2 adjust_conserves_shares _ _ E)
      as (_ & h & rh & l & rl & Hh & Hl & _ & Hdec).
    cbv in E. inversion E; subst m'; clear E.
    cbv in Hh, Hl. inversion Hh; subst. inversion Hl; subst.
    apply Hdec; vm_compute; congruence.
Defined.

(** C6 fails as stated: from shares 0.005, 0.5 and 0.495 of ratios 0.9,
    0.5 and 0.49, the first pass brings the average from 0.49705 to
    0.49295 and leaves the first share at -0.005; the second pass masks
    that supplier, which drops its negative contribution, and the
    average goes up to 0.49735. *)
Lemma adjust_average_counterexample :
  exists m1 m2,
    adjust_step mix_three = Ok m1 /\
    adjust_step m1 = Ok m2 /\
    average_ratio mix_three == 9941 # 20000 /\
    average_ratio m1 == 9859 # 20000 /\
    average_ratio m2 == 9947 # 20000 /\
    average_ratio m1 < average_ratio m2.
Proof.
  eexists. eexists. split; [reflexivity|]. split; [reflexivity|].
  repeat split; vm_compute; reflexivity.
Qed.

(* ================================================================== *)
(** * Further properties *)

(** ** More on fetching proxies *)

Lemma filter_all {A : Type} (f : A -> bool) (l : list A) :
  (forall a, In a l -> f a = true) -> filter f l = l.
Proof.
  induction l as [|a l IH]; intros H; simpl; [reflexivity|].
  rewrite (H a (or_introl eq_refl)). f_equal. apply IH.
  intros b Hb. apply H. now right.
Qed.

Section FetchProxiesMore.
Variable geo : Geomap.
Variable uuid4 : nat -> string.

Lemma fetch_loop_no_match (name ref_prod : string) (db : list Activity)
      (todo : list (string * string)) (d_act : dict string Activity) (n : nat) :
  (forall a, In a db -> name_ref_is name ref_prod a = false) ->
  fetch_loop uuid4 name ref_prod db todo d_act n = Ok (d_act, n).
Proof.
  intros H. induction todo as [|[d loc] todo IH]; simpl; [reflexivity|].
  unfold get_one, get_many. rewrite filter_none; [exact IH|].
  intros a Ha. unfold name_ref_loc_is.
  change ((a_name a =? name) && (a_reference_product a =? ref_prod))
    with (name_ref_is name ref_prod a).
  now rewrite (H a Ha).
Qed.

(** X1. When no dataset has the given name and reference product,
    [fetch_proxies] returns the empty mapping and changes nothing: the
    database, the log of deleted datasets and the supply of codes are as
    before. *)
Theorem fetch_proxies_no_match (name ref_prod : string) (st : State) :
  (forall a, In a (db st) -> name_ref_is name ref_prod a = false) ->
  fetch_proxies geo uuid4 name ref_prod st = Ok ([], st).
Proof.
  intros H. unfold fetch_proxies.
  rewrite (fetch_loop_no_match _ _ _ _ _ _ H). cbn [bind fst snd].
  rewrite (filter_none _ _ H). cbn [map]. rewrite app_nil_r.
  rewrite filter_all.
  - now destruct st.
  - intros a Ha. now rewrite (H a Ha).
Qed.
End FetchProxiesMore.

Lemma fetch_proxies_no_match_witness :
  fetch_proxies geo_row (fun _ => "u") "market for clinker" "clinker"
                (mkState db_row [] 0)
  = Ok ([], mkState db_row [] 0).
Proof.
  apply (fetch_proxies_no_match geo_row (fun _ => "u") "market for clinker"
                                "clinker" (mkState db_row [] 0)).
  intros a [<-|[<-|[]]]; reflexivity.
Defined.

(** *** Dictionaries built by a loop *)

Section DictLoops.
Context {V : Type}.

Lemma dict_set_in_same (k : string) (v : V) (d : dict string V) :
  In (k, v) (dict_set String.eqb k v d).
Proof.
  induction d as [|[k0 v0] d IH]; simpl; [now left|].
  destruct (String.eqb k0 k) eqn:E.
  - apply String.eqb_eq in E. subst. now left.
  - now right.
Qed.

Lemma dict_set_keys_incl (k k' : string) (v : V) (d : dict string V) :
  In k' (keys d) -> In k' (keys (dict_set String.eqb k v d)).
Proof.
  destruct (dict_set_keys String.eqb String.eqb_eq k v d) as [[-> _]|[-> _]];
    [auto | intros H; apply in_or_app; now left].
Qed.

Lemma dict_set_keys_same (k : string) (v : V) (d : dict string V) :
  In k (keys (dict_set String.eqb k v d)).
Proof.
  unfold keys. change k with (fst (k, v)). apply in_map, dict_set_in_same.
Qed.

(** A comprehension [{k: f(k) for k in l}]. *)
Lemma dict_comprehension (f : string -> V) (l : list string) :
  forall m0 : dict string V,
    NoDup (keys m0) ->
    (forall k v, In (k, v) m0 -> v = f k) ->
    NoDup (keys (fold_left (fun m r => dict_set String.eqb r (f r) m) l m0)) /\
    (forall k v,
        In (k, v) (fold_left (fun m r => dict_set String.eqb r (f r) m) l m0) ->
        v = f k /\ (In k (keys m0) \/ In k l)) /\
    (forall k, In k (keys m0) \/ In k l ->
               In (k, f k)
                  (fold_left (fun m r => dict_set String.eqb r (f r) m) l m0)).
Proof.
  induction l as [|r l IH]; intros m0 Hnd Hf; simpl.
  - split; [assumption|]. split.
    + intros k v Hin. split; [now apply Hf|]. left.
      unfold keys. change k with (fst (k, v)). now apply in_map.
    + intros k [Hk|[]]. unfold keys in Hk.
      apply in_map_iff in Hk as ([k' v] & Hk & Hin). simpl in Hk. subst k'.
      now rewrite <- (Hf k v Hin).
  - destruct (IH (dict_set String.eqb r (f r) m0)) as (H1 & H2 & H3).
    + apply dict_set_NoDup; [apply String.eqb_eq | assumption].
    + intros k v Hin.
      apply (dict_set_in String.eqb String.eqb_eq) in Hin as [[-> ->]|Hin];
        [reflexivity | now apply Hf].
    + split; [exact H1|]. split.
      * intros k v Hin. destruct (H2 k v Hin) as [Hv [Hk|Hk]].
        -- split; [exact Hv|].
           destruct (dict_set_keys String.eqb String.eqb_eq r (f r) m0)
             as [[E _]|[E _]]; rewrite E in Hk; [now left|].
           apply in_app_or in Hk as [Hk|[<-|[]]]; [now left | right; now left].
        -- split; [exact Hv | right; now right].
      * intros k [Hk|[<-|Hk]]; apply H3.
        -- left. now apply dict_set_keys_incl.
        -- left. apply dict_set_keys_same.
        -- now right.
Qed.
End DictLoops.

Section FetchProxiesSources.
Variable geo : Geomap.
Variable uuid4 : nat -> string.

(** The entries of [d_remind_to_eco]: one per region, bound to the
    source location of the region. *)
Lemma d_remind_to_eco_spec (name ref_prod : string) (db : list Activity) :
  NoDup (keys (d_remind_to_eco geo name ref_prod db)) /\
  (forall r loc, In (r, loc) (d_remind_to_eco geo name ref_prod db) ->
                 loc = source_location geo name ref_prod db r /\
                 In r (list_remind_regions geo)) /\
  (forall r, In r (list_remind_regions geo) ->
             In (r, source_location geo name ref_prod db r)
                (d_remind_to_eco geo name ref_prod db)).
Proof.
  destruct (dict_comprehension (source_location geo name ref_prod db)
                               (list_remind_regions geo) [])
    as (H1 & H2 & H3); [constructor | intros k v [] |].
  split; [exact H1|]. split.
  - intros r loc Hin. destruct (H2 r loc Hin) as [Hv [[]|Hk]]. auto.
  - intros r Hr. apply H3. now right.
Qed.

Lemma get_one_ok (name ref_prod loc : string) (db : list Activity)
      (ds : Activity) :
  get_one (name_ref_loc_is name ref_prod loc) db = Ok ds ->
  In ds db /\ triple ds = (name, ref_prod, loc).
Proof.
  unfold get_one, get_many.
  destruct (filter (name_ref_loc_is name ref_prod loc) db) as [|x [|y l]] eqn:E;
    try discriminate.
  intros H. inversion H; subst.
  assert (Hin : In ds (filter (name_ref_loc_is name ref_prod loc) db))
    by (rewrite E; now left).
  apply filter_In in Hin as [Hin Hm]. split; [exact Hin|].
  now apply name_ref_loc_is_true.
Qed.

Lemma get_one_no_results (name ref_prod loc : string) (db : list Activity)
      (ds : Activity) :
  In ds db -> triple ds = (name, ref_prod, loc) ->
  get_one (name_ref_loc_is name ref_prod loc) db <> Raise NoResults.
Proof.
  intros Hin Ht. unfold get_one, get_many.
  assert (H : In ds (filter (name_ref_loc_is name ref_prod loc) db)).
  { apply filter_In. split; [exact Hin | now apply name_ref_loc_is_true]. }
  destruct (filter (name_ref_loc_is name ref_prod loc) db) as [|x [|y l]];
    [contradiction | discriminate | discriminate].
Qed.

(** What the loop of [fetch_proxies] adds to [d_act]. *)
Lemma fetch_loop_entries (name ref_prod : string) (db : list Activity)
      (todo : list (string * string)) :
  forall d_act n d' n',
    fetch_loop uuid4 name ref_prod db todo d_act n = Ok (d', n') ->
    (forall k v, In (k, v) d' ->
       In (k, v) d_act \/
       exists loc ds m, In (k, loc) todo /\ In ds db /\
                        triple ds = (name, ref_prod, loc) /\
                        v = proxy k (uuid4 m) ds) /\
    (forall k, In k (keys d_act) -> In k (keys d')) /\
    (forall k loc ds, In (k, loc) todo -> In ds db ->
                      triple ds = (name, ref_prod, loc) -> In k (keys d')) /\
    (forall k, In k (keys d') ->
       In k (keys d_act) \/
       exists loc ds, In (k, loc) todo /\ In ds db /\
                      triple ds = (name, ref_prod, loc)).
Proof.
  induction todo as [|[d loc] todo IH]; intros d_act n d' n' H; simpl in H.
  - inversion H; subst. repeat split; auto. intros k loc ds [].
  - destruct (get_one (name_ref_loc_is name ref_prod loc) db) as [ds|e] eqn:E.
    + destruct (get_one_ok _ _ _ _ _ E) as [Hin Ht].
      destruct (IH _ _ _ _ H) as (H1 & H2 & H3 & H4).
      split; [|split; [|split]].
      * intros k v Hkv. destruct (H1 k v Hkv) as [Hd|(l & s & m & Hl & Hs)].
        -- apply (dict_set_in String.eqb String.eqb_eq) in Hd as [[-> ->]|Hd];
             [right | now left].
           exists loc, ds, n. simpl. auto.
        -- right. exists l, s, m. simpl. tauto.
      * intros k Hk. apply H2. now apply dict_set_keys_incl.
      * intros k l s [Hkl|Hkl] Hs Hts.
        -- inversion Hkl; subst. apply H2, dict_set_keys_same.
        -- now apply (H3 k l s).
      * intros k Hk. destruct (H4 k Hk) as [Hd|(l & s & Hl & Hs)].
        -- destruct (dict_set_keys String.eqb String.eqb_eq d
                                   (proxy d (uuid4 n) ds) d_act)
             as [[Ek _]|[Ek _]]; rewrite Ek in Hd; [now left|].
           apply in_app_or in Hd as [Hd|[<-|[]]]; [now left|].
           right. exists loc, ds. simpl. auto.
        -- right. exists l, s. simpl. tauto.
    + destruct e; try discriminate.
      destruct (IH _ _ _ _ H) as (H1 & H2 & H3 & H4).
      split; [|split; [|split]].
      * intros k v Hkv. destruct (H1 k v Hkv) as [Hd|(l & s & m & Hl & Hs)];
          [now left|].
        right. exists l, s, m. simpl. tauto.
      * exact H2.
      * intros k l s [Hkl|Hkl] Hs Hts.
        -- inversion Hkl; subst. exfalso.
           now apply (get_one_no_results _ _ _ _ _ Hs Hts).
        -- now apply (H3 k l s).
      * intros k Hk. destruct (H4 k Hk) as [Hd|(l & s & Hl & Hs)]; [now left|].
        right. exists l, s. simpl. tauto.
Qed.

(** X2. Where the proxies of [fetch_proxies] come from.  Each key of the
    mapping returned is a region, bound to the copy of a dataset of the
    database that has the given name and reference product and sits at
    the source location of the region (the location of a dataset that
    the crosswalk places in the region, else "RoW"); and a region is a
    key exactly when the database holds such a dataset: a region without
    one is left out. *)
Theorem fetch_proxies_sources (name ref_prod : string) (st st' : State)
        (d_act : dict string Activity) :
  fetch_proxies geo uuid4 name ref_prod st = Ok (d_act, st') ->
  (forall k v, In (k, v) d_act ->
     In k (list_remind_regions geo) /\
     exists ds m, In ds (db st) /\
                  triple ds
                  = (name, ref_prod, source_location geo name ref_prod (db st) k) /\
                  v = proxy k (uuid4 m) ds) /\
  (forall r, In r (keys d_act) <->
             In r (list_remind_regions geo) /\
             exists ds, In ds (db st) /\
                        triple ds
                        = (name, ref_prod,
                           source_location geo name ref_prod (db st) r)).
Proof.
  unfold fetch_proxies.
  destruct (fetch_loop uuid4 name ref_prod (db st)
                       (d_remind_to_eco geo name ref_prod (db st)) []
                       (uuid_count st)) as [[d n]|e] eqn:E; [|discriminate].
  cbn [bind fst snd]. intros H. inversion H; subst; clear H.
  destruct (fetch_loop_entries _ _ _ _ _ _ _ _ E) as (H1 & _ & H3 & H4).
  destruct (d_remind_to_eco_spec name ref_prod (db st)) as (_ & S2 & S3).
  split.
  - intros k v Hkv.
    destruct (H1 k v Hkv) as [[]|(loc & ds & m & Hl & Hs & Ht & Hv)].
    destruct (S2 k loc Hl) as [-> Hr]. split; [exact Hr|]. eauto.
  - intros r. split.
    + intros Hr. destruct (H4 r Hr) as [[]|(loc & ds & Hl & Hs & Ht)].
      destruct (S2 r loc Hl) as [-> Hreg]. split; [exact Hreg|]. eauto.
    + intros [Hr (ds & Hs & Ht)]. apply (H3 r _ ds (S3 r Hr) Hs Ht).
Qed.
End FetchProxiesSources.

Lemma fetch_proxies_sources_witness :
  exists d_act st',
    fetch_proxies geo_two (fun _ => "u") "clinker production" "clinker"
                  (mkState db_two [] 0) = Ok (d_act, st') /\
    (In "EUR" (keys d_act) /\ ~ In "CAZ" (keys d_act)).
Proof.
  destruct (fetch_proxies geo_two (fun _ => "u") "clinker production" "clinker"
                          (mkState db_two [] 0)) as [[d_act st']|e] eqn:E;
    [|vm_compute in E; discriminate].
  exists d_act, st'. split; [reflexivity|].
  destruct (fetch_proxies_sources geo_two (fun _ => "u") _ _ _ _ _ E) as [_ H].
  split.
  - apply H. split; [simpl; auto|].
    eexists. split; [left; reflexivity | reflexivity].
  - intros Hk. apply H in Hk as [_ (ds & [<-|[<-|[]]] & Ht)]; discriminate.
Defined.

Section FetchProxiesCodes.
Variable geo : Geomap.
Variable uuid4 : nat -> string.

(** On keys that are new and pairwise distinct the loop appends, and
    draws one code after the other. *)
Lemma fetch_loop_codes (name ref_prod : string) (db : list Activity)
      (todo : list (string * string)) :
  NoDup (keys todo) ->
  forall d_act n d' n',
    (forall k, In k (keys todo) -> ~ In k (keys d_act)) ->
    fetch_loop uuid4 name ref_prod db todo d_act n = Ok (d', n') ->
    exists new,
      d' = d_act ++ new /\
      n' = (n + length new)%nat /\
      map a_code (values new) = map uuid4 (seq n (length new)).
Proof.
  induction todo as [|[d loc] todo IH]; intros Hnd d_act n d' n' Hfresh H;
    simpl in H.
  - inversion H; subst. exists []. rewrite app_nil_r. simpl. auto.
  - simpl in Hnd. inversion Hnd as [|x xs Hd Htodo]; subst.
    destruct (get_one (name_ref_loc_is name ref_prod loc) db) as [ds|e] eqn:E.
    + assert (Hn : ~ In d (keys d_act)) by (apply Hfresh; now left).
      rewrite (dict_set_notin String.eqb String.eqb_eq _ _ _ Hn) in H.
      assert (Hfresh' : forall k, In k (keys todo) ->
                ~ In k (keys (d_act ++ [(d, proxy d (uuid4 n) ds)]))).
      { intros k Hk. unfold keys. rewrite map_app, in_app_iff. simpl.
        intros [Hin|[<-|[]]]; [|contradiction].
        apply (Hfresh k); [now right | exact Hin]. }
      destruct (IH Htodo _ _ _ _ Hfresh' H) as (new & -> & -> & Hc).
      exists ((d, proxy d (uuid4 n) ds) :: new). rewrite <- app_assoc.
      split; [reflexivity|]. split; [simpl; lia|].
      simpl. now rewrite Hc.
    + destruct e; try discriminate.
      apply (IH Htodo _ _ _ _ (fun k Hk => Hfresh k (or_intror Hk)) H).
Qed.

(** X3. The codes of the proxies.  [fetch_proxies] draws one code per proxy
    that it returns, in the order of the mapping; when the supply never
    repeats a code, the proxies of one call have pairwise distinct
    codes. *)
Theorem fetch_proxies_codes (name ref_prod : string) (st st' : State)
        (d_act : dict string Activity) :
  fetch_proxies geo uuid4 name ref_prod st = Ok (d_act, st') ->
  uuid_count st' = (uuid_count st + length d_act)%nat /\
  map a_code (values d_act) = map uuid4 (seq (uuid_count st) (length d_act)) /\
  ((forall i j, uuid4 i = uuid4 j -> i = j) ->
   NoDup (map a_code (values d_act))).
Proof.
  unfold fetch_proxies.
  destruct (fetch_loop uuid4 name ref_prod (db st)
                       (d_remind_to_eco geo name ref_prod (db st)) []
                       (uuid_count st)) as [[d n]|e] eqn:E; [|discriminate].
  cbn [bind fst snd]. intros H. inversion H; subst; clear H.
  destruct (d_remind_to_eco_spec geo name ref_prod (db st)) as (Hnd & _ & _).
  assert (Hfresh : forall k,
             In k (keys (d_remind_to_eco geo name ref_prod (db st))) ->
             ~ In k (keys (@nil (string * Activity)))) by (intros k _ []).
  destruct (fetch_loop_codes _ _ _ _ Hnd _ _ _ _ Hfresh E)
    as (new & Hd & Hn & Hc).
  simpl in Hd. subst d_act. cbn [uuid_count].
  split; [exact Hn|]. split; [exact Hc|].
  intros Hinj. rewrite Hc. apply NoDup_map_injective; [exact Hinj|].
  apply seq_NoDup.
Qed.

Lemma fetch_loop_multiple (name ref_prod : string) (db : list Activity)
      (todo : list (string * string)) (k loc : string) :
  In (k, loc) todo ->
  get_one (name_ref_loc_is name ref_prod loc) db = Raise MultipleResults ->
  forall d_act n,
    fetch_loop uuid4 name ref_prod db todo d_act n = Raise MultipleResults.
Proof.
  intros Hin Hm. induction todo as [|[d l] todo IH]; intros d_act n;
    [contradiction|]. simpl.
  destruct (get_one (name_ref_loc_is name ref_prod l) db) as [ds|e] eqn:E.
  - destruct Hin as [H|H]; [inversion H; subst; congruence | now apply IH].
  - unfold get_one in E.
    destruct (get_many (name_ref_loc_is name ref_prod l) db) as [|x [|y r]] eqn:G;
      inversion E; subst; [|reflexivity].
    destruct Hin as [H|H]; [|now apply IH].
    inversion H; subst. unfold get_one in Hm. rewrite G in Hm. discriminate.
Qed.

(** X4. Two datasets of the given name and reference product at the source
    location of a region make [fetch_proxies] raise MultipleResults: the
    exception of [get_one] is not caught. *)
Theorem fetch_proxies_multiple_results (name ref_prod : string) (st : State)
        (r : string) (a b : Activity) (rest : list Activity) :
  In r (list_remind_regions geo) ->
  filter (name_ref_loc_is name ref_prod
                          (source_location geo name ref_prod (db st) r))
         (db st) = a :: b :: rest ->
  fetch_proxies geo uuid4 name ref_prod st = Raise MultipleResults.
Proof.
  intros Hr Hf. unfold fetch_proxies.
  destruct (d_remind_to_eco_spec geo name ref_prod (db st)) as (_ & _ & S3).
  rewrite (fetch_loop_multiple name ref_prod (db st) _ r _ (S3 r Hr));
    [reflexivity|].
  unfold get_one, get_many. now rewrite Hf.
Qed.

Lemma dict_get_in {V : Type} (k : string) (v : V) (d : dict string V) :
  dict_get String.eqb k d = Some v -> In (k, v) d.
Proof.
  induction d as [|[k0 v0] d IH]; simpl; [discriminate|].
  destruct (String.eqb k0 k) eqn:E.
  - apply String.eqb_eq in E. intros H. inversion H; subst. now left.
  - intros H. right. now apply IH.
Qed.

(** The values of [d_map] are locations of datasets of the given name
    and reference product. *)
Lemma d_map_entries (name ref_prod : string) (db : list Activity)
      (k loc : string) :
  In (k, loc) (d_map geo name ref_prod db) ->
  exists d, In d db /\ triple d = (name, ref_prod, loc) /\
            k = ecoinvent_to_remind_location geo loc.
Proof.
  unfold d_map, get_many.
  assert (G : forall l m0,
             (forall a, In a l -> In a db /\ name_ref_is name ref_prod a = true) ->
             In (k, loc)
                (fold_left
                   (fun m d =>
                      dict_set String.eqb
                               (ecoinvent_to_remind_location geo (a_location d))
                               (a_location d) m) l m0) ->
             In (k, loc) m0 \/
             exists d, In d db /\ triple d = (name, ref_prod, loc) /\
                       k = ecoinvent_to_remind_location geo loc).
  { induction l as [|a l IH]; intros m0 Hl Hin; simpl in Hin; [now left|].
    destruct (IH _ (fun x Hx => Hl x (or_intror Hx)) Hin) as [H|H]; [|now right].
    apply (dict_set_in String.eqb String.eqb_eq) in H as [[-> ->]|H];
      [right | now left].
    destruct (Hl a (or_introl eq_refl)) as [Ha Hm].
    apply name_ref_is_true in Hm as [Hn Hp].
    exists a. unfold triple. rewrite Hn, Hp. auto. }
  intros Hin.
  assert (Hl : forall a, In a (filter (name_ref_is name ref_prod) db) ->
                         In a db /\ name_ref_is name ref_prod a = true)
    by (intros a Ha; now apply filter_In in Ha).
  destruct (G _ [] Hl Hin) as [[]|H]. exact H.
Qed.

(** X5. With a "RoW" dataset every region gets its proxy.  On a database
    with unique triples that holds a dataset of the given name and
    reference product at "RoW", [fetch_proxies] returns one proxy for
    each region, and for nothing else. *)
Theorem fetch_proxies_all_regions (name ref_prod : string) (st : State)
        (row : Activity) :
  unique_triples (db st) ->
  In row (db st) -> triple row = (name, ref_prod, "RoW") ->
  exists d_act st',
    fetch_proxies geo uuid4 name ref_prod st = Ok (d_act, st') /\
    forall r, In r (keys d_act) <-> In r (list_remind_regions geo).
Proof.
  intros Hu Hrow Ht.
  destruct (fetch_loop_ok uuid4 name ref_prod (db st)
              (d_remind_to_eco geo name ref_prod (db st)) Hu [] (uuid_count st))
    as (d & n & E & _); [split; [constructor | intros k v []]|].
  assert (Ef : fetch_proxies geo uuid4 name ref_prod st
               = Ok (d, mkState
                          (filter (fun act => negb (name_ref_is name ref_prod act))
                                  (db st))
                          (log_deleted st
                           ++ map triple (filter (name_ref_is name ref_prod) (db st)))
                          n)).
  { unfold fetch_proxies. now rewrite E. }
  do 2 eexists. split; [exact Ef|].
  destruct (fetch_loop_entries uuid4 _ _ _ _ _ _ _ _ E) as (_ & _ & H3 & H4).
  destruct (d_remind_to_eco_spec geo name ref_prod (db st)) as (_ & S2 & S3).
  intros r. split.
  - intros Hr. destruct (H4 r Hr) as [[]|(loc & ds & Hl & _)].
    now destruct (S2 r loc Hl).
  - intros Hr.
    assert (Hsrc : exists ds,
               In ds (db st) /\
               triple ds
               = (name, ref_prod, source_location geo name ref_prod (db st) r)).
    { unfold source_location, dict_get_default.
      destruct (dict_get String.eqb r (d_map geo name ref_prod (db st)))
        as [loc|] eqn:Eg.
      - apply dict_get_in, d_map_entries in Eg as (ds & Hds & Hts & _). eauto.
      - eauto. }
    destruct Hsrc as (ds & Hds & Hts). apply (H3 r _ ds (S3 r Hr) Hds Hts).
Qed.
End FetchProxiesCodes.

Lemma fetch_proxies_codes_witness :
  exists d_act st',
    fetch_proxies geo_row (fun n => if Nat.eqb n 0 then "u0" else "u1")
                  "clinker production" "clinker" (mkState db_row [] 0)
    = Ok (d_act, st') /\
    uuid_count st' = (0 + length d_act)%nat /\
    map a_code (values d_act)
    = map (fun n => if Nat.eqb n 0 then "u0" else "u1") (seq 0 (length d_act)).
Proof.
  destruct (fetch_proxies geo_row (fun n => if Nat.eqb n 0 then "u0" else "u1")
                          "clinker production" "clinker" (mkState db_row [] 0))
    as [[d_act st']|e] eqn:E; [|vm_compute in E; discriminate].
  exists d_act, st'. split; [reflexivity|].
  destruct (fetch_proxies_codes geo_row _ _ _ _ _ _ E) as (Hn & Hc & _).
  split; [exact Hn | exact Hc].
Defined.

Lemma fetch_proxies_multiple_results_witness :
  fetch_proxies geo_row (fun _ => "u") "clinker production" "clinker"
                (mkState [clinker_row; clinker_row] [] 0)
  = Raise MultipleResults.
Proof.
  apply (fetch_proxies_multiple_results geo_row (fun _ => "u")
           "clinker production" "clinker"
           (mkState [clinker_row; clinker_row] [] 0) "CAZ"
           clinker_row clinker_row []).
  - simpl. auto.
  - reflexivity.
Defined.

Lemma fetch_proxies_all_regions_witness :
  exists d_act st',
    fetch_proxies geo_row (fun _ => "u") "clinker production" "clinker"
                  (mkState db_row [] 0) = Ok (d_act, st') /\
    forall r, In r (keys d_act) <-> In r ["CAZ"; "EUR"].
Proof.
  apply (fetch_proxies_all_regions geo_row (fun _ => "u") "clinker production"
           "clinker" (mkState db_row [] 0) clinker_row).
  - unfold unique_triples. simpl. repeat constructor; simpl; intuition discriminate.
  - simpl. auto.
  - reflexivity.
Defined.

(** ** More on supplier shares *)

Lemma shares_of_production_keys (k : supplier_key) (excs : list Exchange) :
  forall acc acc',
    shares_of_production k excs acc = Ok acc' ->
    forall k', In k' (keys (fst acc')) ->
               In k' (keys (fst acc)) \/ (k' = k /\ excs <> []).
Proof.
  induction excs as [|exc excs IH]; intros acc acc' H k' Hk; simpl in H.
  - inversion H; subst. now left.
  - destruct (e_production_volume exc) as [pv|]; [|discriminate].
    destruct (IH _ _ H k' Hk) as [Hin|[-> _]].
    + simpl in Hin.
      destruct (dict_set_keys supplier_key_eqb supplier_key_eqb_eq k pv (fst acc))
        as [[E _]|[E _]]; rewrite E in Hin; [now left|].
      apply in_app_or in Hin as [Hin|[<-|[]]]; [now left|].
      right. split; [reflexivity | discriminate].
    + right. split; [reflexivity | discriminate].
Qed.

Lemma shares_of_datasets_keys (ds : list Activity) :
  forall acc acc',
    shares_of_datasets ds acc = Ok acc' ->
    forall k, In k (keys (fst acc')) ->
              In k (keys (fst acc)) \/
              exists act, In act ds /\ k = key_of act /\ ws_production act <> [].
Proof.
  induction ds as [|act ds IH]; intros acc acc' H k Hk; simpl in H.
  - inversion H; subst. now left.
  - destruct (shares_of_production (key_of act) (ws_production act) acc)
      as [acc1|e] eqn:E1; [|discriminate].
    simpl in H. destruct (IH _ _ H k Hk) as [Hin|(a & Ha & Hk' & Hp)].
    + destruct (shares_of_production_keys _ _ _ _ E1 k Hin) as [?|[-> Hne]];
        [now left|].
      right. exists act. split; [now left | auto].
    + right. exists a. split; [now right | auto].
Qed.

Lemma normalise_keys (dict_act m : dict supplier_key Q) (total : Q) :
  normalise dict_act total = Ok m -> keys m = keys dict_act.
Proof.
  unfold normalise. destruct dict_act as [|kv d]; [intros H; now inversion H|].
  destruct (Qeq_bool total 0); [discriminate|].
  intros H. inversion H; subst. unfold keys. simpl. f_equal.
  rewrite map_map. reflexivity.
Qed.

Lemma get_shares_keys_from (ds : list Activity) (m : dict supplier_key Q) :
  get_shares_from_production_volume ds = Ok m ->
  forall k, In k (keys m) ->
            exists act, In act ds /\ k = key_of act /\ ws_production act <> [].
Proof.
  unfold get_shares_from_production_volume.
  destruct (shares_of_datasets ds ([], 0)) as [acc|e] eqn:E; [|discriminate].
  simpl. intros H k Hk. rewrite (normalise_keys _ _ _ H) in Hk.
  destruct (shares_of_datasets_keys _ _ _ E k Hk) as [[]|Hex]. exact Hex.
Qed.

Lemma supplier_keys_kept (k k' : supplier_key) (v : Q)
      (d : dict supplier_key Q) :
  In k' (keys d) -> In k' (keys (dict_set supplier_key_eqb k v d)).
Proof.
  destruct (dict_set_keys supplier_key_eqb supplier_key_eqb_eq k v d)
    as [[-> _]|[-> _]]; [auto | intros H; apply in_or_app; now left].
Qed.

Lemma supplier_key_set (k : supplier_key) (v : Q) (d : dict supplier_key Q) :
  In k (keys (dict_set supplier_key_eqb k v d)).
Proof.
  destruct (dict_set_keys supplier_key_eqb supplier_key_eqb_eq k v d)
    as [[-> H]|[-> _]]; [exact H | apply in_or_app; right; now left].
Qed.

Lemma shares_of_production_grows (k : supplier_key) (excs : list Exchange) :
  forall acc acc',
    shares_of_production k excs acc = Ok acc' ->
    (forall k', In k' (keys (fst acc)) -> In k' (keys (fst acc'))) /\
    (excs <> [] -> In k (keys (fst acc'))).
Proof.
  induction excs as [|exc excs IH]; intros acc acc' H; simpl in H.
  - inversion H; subst. split; [auto | congruence].
  - destruct (e_production_volume exc) as [pv|]; [|discriminate].
    destruct (IH _ _ H) as [Hk _]. cbn [fst] in Hk. split.
    + intros k' Hin. now apply Hk, supplier_keys_kept.
    + intros _. apply Hk, supplier_key_set.
Qed.

Lemma shares_of_datasets_grows (ds : list Activity) :
  forall acc acc',
    shares_of_datasets ds acc = Ok acc' ->
    (forall k, In k (keys (fst acc)) -> In k (keys (fst acc'))) /\
    (forall act, In act ds -> ws_production act <> [] ->
                 In (key_of act) (keys (fst acc'))).
Proof.
  induction ds as [|a ds IH]; intros acc acc' H; simpl in H.
  - inversion H; subst. split; [auto | intros act []].
  - destruct (shares_of_production (key_of a) (ws_production a) acc)
      as [acc1|e] eqn:E1; [|discriminate].
    cbn [bind] in H. destruct (IH _ _ H) as [Hk Hd].
    destruct (shares_of_production_grows _ _ _ _ E1) as [Hk1 Hnew]. split.
    + intros k Hin. now apply Hk, Hk1.
    + intros act [<-|Hin] Hp; [now apply Hk, Hnew | now apply Hd].
Qed.

(** X6. Who gets a share.  The keys of the shares that
    [get_shares_from_production_volume] returns are the (name, location,
    reference product, unit) of the datasets passed in that have a
    production exchange: a dataset without one gets no share, and no
    other dataset is left out. *)
Theorem get_shares_keys (ds : list Activity) (m : dict supplier_key Q) :
  get_shares_from_production_volume ds = Ok m ->
  forall k,
    In k (keys m) <->
    exists act, In act ds /\ k = key_of act /\ ws_production act <> [].
Proof.
  intros H k. split; [now apply get_shares_keys_from|].
  intros (act & Hin & -> & Hp). unfold get_shares_from_production_volume in H.
  destruct (shares_of_datasets ds ([], 0)) as [acc|e] eqn:E; [|discriminate].
  cbn [bind] in H. rewrite (normalise_keys _ _ _ H).
  now apply (shares_of_datasets_grows _ _ _ E).
Qed.

Lemma get_shares_keys_witness :
  exists m,
    get_shares_from_production_volume [bare_row; coal_za] = Ok m /\
    forall k, In k (keys m) <-> k = key_of coal_za.
Proof.
  destruct (get_shares_from_production_volume [bare_row; coal_za])
    as [m|e] eqn:E; [|vm_compute in E; discriminate].
  exists m. split; [reflexivity|].
  intros k. rewrite (get_shares_keys _ _ E k). split.
  - intros (act & [<-|[<-|[]]] & -> & Hp); [|reflexivity].
    exfalso. now apply Hp.
  - intros ->. exists coal_za. split; [right; now left|].
    split; [reflexivity | discriminate].
Defined.

Lemma shares_of_production_raises (k : supplier_key) (excs : list Exchange) :
  In None (map e_production_volume excs) ->
  forall acc, shares_of_production k excs acc = Raise KeyError.
Proof.
  induction excs as [|exc excs IH]; intros Hin acc; simpl in *; [contradiction|].
  destruct (e_production_volume exc) as [pv|]; [|reflexivity].
  destruct Hin as [H|H]; [discriminate | now apply IH].
Qed.

Lemma shares_of_production_error (k : supplier_key) (excs : list Exchange) :
  forall acc e, shares_of_production k excs acc = Raise e -> e = KeyError.
Proof.
  induction excs as [|exc excs IH]; intros acc e H; simpl in H; [discriminate|].
  destruct (e_production_volume exc) as [pv|]; [now apply IH in H|].
  now inversion H.
Qed.

(** X7. A production exchange without a 'production volume' makes
    [get_shares_from_production_volume] raise KeyError, whatever the
    other datasets are. *)
Theorem get_shares_missing_volume (ds : list Activity) :
  In None (production_volumes ds) ->
  get_shares_from_production_volume ds = Raise KeyError.
Proof.
  intros Hin. unfold get_shares_from_production_volume.
  assert (H : forall acc, shares_of_datasets ds acc = Raise KeyError).
  { induction ds as [|act ds IH]; intros acc; simpl in *; [contradiction|].
    apply in_app_or in Hin as [Hin|Hin].
    - now rewrite (shares_of_production_raises _ _ Hin).
    - destruct (shares_of_production (key_of act) (ws_production act) acc)
        as [acc1|e] eqn:E; simpl.
      + now apply IH.
      + now rewrite (shares_of_production_error _ _ _ _ E). }
  now rewrite H.
Qed.

Lemma get_shares_missing_volume_witness :
  get_shares_from_production_volume
    [coal_za; supplier "market for hard coal" "hard coal" "RoW" None]
  = Raise KeyError.
Proof.
  apply get_shares_missing_volume. simpl. auto.
Defined.

Lemma sum_Q_nonneg (l : list Q) : Forall (fun x => 0 <= x) l -> 0 <= sum_Q l.
Proof.
  induction 1 as [|x l Hx _ IH]; simpl; [apply Qle_refl | lra].
Qed.

Lemma sum_Q_upper (l : list Q) (x : Q) :
  Forall (fun y => 0 <= y) l -> In x l -> x <= sum_Q l.
Proof.
  induction 1 as [|y l Hy Hl IH]; intros Hin; simpl in *; [contradiction|].
  pose proof (sum_Q_nonneg l Hl). destruct Hin as [->|Hin].
  - lra.
  - specialize (IH Hin). lra.
Qed.

(** X8. Shares are fractions.  For suppliers with pairwise distinct keys and
    one production exchange each, with non-negative production volumes
    that are not all zero, every share lies between 0 and 1. *)
Theorem get_shares_fractions (ds : list Activity) (pvs : list Q) :
  Forall2 produces ds pvs ->
  NoDup (map key_of ds) ->
  Forall (fun pv => 0 <= pv) pvs ->
  0 < sum_Q pvs ->
  exists m,
    get_shares_from_production_volume ds = Ok m /\
    Forall (fun share => 0 <= share /\ share <= 1) (values m).
Proof.
  intros Hp Hnd Hpos Hsum. unfold get_shares_from_production_volume.
  rewrite (shares_of_datasets_single ds pvs Hp ([], 0)) by exact Hnd.
  cbn [bind fst snd app].
  assert (Hlen : length (map key_of ds) = length pvs)
    by (rewrite length_map; eapply Forall2_length; eauto).
  assert (Ht : fold_left Qplus pvs 0 == sum_Q pvs)
    by (rewrite fold_left_Qplus; ring).
  unfold normalise.
  destruct (combine (map key_of ds) pvs) as [|kv rest] eqn:Ec.
  { destruct pvs as [|pv pvs]; [simpl in Hsum; lra|].
    destruct ds; simpl in *; discriminate. }
  destruct (Qeq_bool (fold_left Qplus pvs 0) 0) eqn:Eb.
  { apply Qeq_bool_iff in Eb. lra. }
  rewrite <- Ec. eexists. split; [reflexivity|].
  unfold values. rewrite map_map. cbn [snd].
  rewrite Forall_forall. intros s Hs. apply in_map_iff in Hs as ([k pv] & <- & Hin).
  cbn [snd]. apply in_combine_r in Hin.
  assert (H0 : 0 <= pv) by (rewrite Forall_forall in Hpos; now apply Hpos).
  pose proof (sum_Q_upper pvs pv Hpos Hin) as Hup.
  assert (HT : 0 < fold_left Qplus pvs 0) by lra.
  split.
  - apply Qle_shift_div_l; [exact HT | lra].
  - apply Qle_shift_div_r; [exact HT | lra].
Qed.

Lemma get_shares_fractions_witness :
  exists m,
    get_shares_from_production_volume [coal_row; coal_za] = Ok m /\
    Forall (fun share => 0 <= share /\ share <= 1) (values m).
Proof.
  apply (get_shares_fractions [coal_row; coal_za] [2; 6]).
  - repeat constructor; eexists; split; reflexivity.
  - repeat constructor; simpl; intuition discriminate.
  - repeat constructor; vm_compute; discriminate.
  - vm_compute. reflexivity.
Defined.

(** ** Fuel exchanges *)

Section FuelFacts.
Variable geo : Geomap.
Variable rmd : RemindData.
Variable tab : Tables.

Lemma existsb_eqb_flip (x : string) (l : list string) :
  existsb (fun y => x =? y) l = true <-> In x l.
Proof.
  rewrite existsb_exists. split.
  - intros (y & Hy & E). apply String.eqb_eq in E. now subst.
  - intros H. exists x. split; [assumption | apply String.eqb_refl].
Qed.

Lemma get_suppliers_of_a_region_spec (db : list Activity)
      (region : string) (technologies : list string) (product : string)
      (act : Activity) :
  In act (get_suppliers_of_a_region geo db region technologies product) <->
  In act db /\ In (a_name act) technologies /\
  In (a_location act) (remind_to_ecoinvent_location geo region) /\
  a_unit act = "kilogram" /\ a_reference_product act = product.
Proof.
  unfold get_suppliers_of_a_region, get_many.
  rewrite filter_In, !andb_true_iff, !existsb_eqb_flip, !String.eqb_eq. tauto.
Qed.

Lemma fuel_suppliers_of_keys (db : list Activity) (k fuel0 fuel1 fuel2 : string)
      (m : dict supplier_key Q) :
  fuel_suppliers_of geo tab db k (fuel0, fuel1, fuel2) = Ok m ->
  forall key, In key (keys m) ->
    exists act, In act db /\ key = key_of act /\
                In (a_name act) (fuel_map tab fuel0) /\
                a_unit act = "kilogram" /\ a_reference_product act = fuel1 /\
                (In (a_location act) (remind_to_ecoinvent_location geo k) \/
                 In (a_location act) (remind_to_ecoinvent_location geo fuel2)).
Proof.
  unfold fuel_suppliers_of.
  destruct (get_shares_from_production_volume
              (get_suppliers_of_a_region geo db k (fuel_map tab fuel0) fuel1))
    as [m1|e] eqn:E1; [|discriminate].
  cbn [bind]. destruct (length m1 =? 0)%nat.
  - intros E2 key Hk.
    destruct (get_shares_keys_from _ _ E2 key Hk) as (act & Hin & -> & _).
    apply get_suppliers_of_a_region_spec in Hin. exists act. tauto.
  - intros H. inversion H; subst. intros key Hk.
    destruct (get_shares_keys_from _ _ E1 key Hk) as (act & Hin & -> & _).
    apply get_suppliers_of_a_region_spec in Hin. exists act. tauto.
Qed.

(** What the fuel loop appends, for any list of fuels whose reference
    products are among the three fuel products. *)
Lemma add_fuel_exchanges_appends (db : list Activity) (k : string)
      (todo : list (string * string * string)) :
  forall excs excs',
    incl (map (fun f => snd (fst f)) todo) fuel_products ->
    add_fuel_exchanges geo rmd tab db k todo excs = Ok excs' ->
    exists new,
      excs' = excs ++ new /\ Forall (refers_to_fuel db) new.
Proof.
  induction todo as [|[[f0 f1] f2] todo IH]; intros excs excs' Hincl H;
    cbn [add_fuel_exchanges] in H.
  - inversion H; subst. exists []. rewrite app_nil_r. auto.
  - destruct (fuel_suppliers_of geo tab db k (f0, f1, f2)) as [m|e] eqn:E;
      cbn [bind] in H; [|discriminate].
    destruct (IH _ _ (fun x Hx => Hincl x (or_intror Hx)) H) as (new & -> & Hnew).
    exists (new_fuel_exchanges rmd tab k m ++ new). rewrite app_assoc.
    split; [reflexivity|]. apply Forall_app. split; [|exact Hnew].
    unfold new_fuel_exchanges. rewrite Forall_forall.
    intros exc Hexc. apply in_map_iff in Hexc as ([key share] & <- & Hin).
    assert (Hk : In key (keys m))
      by (unfold keys; change key with (fst (key, share)); now apply in_map).
    destruct (fuel_suppliers_of_keys _ _ _ _ _ _ E key Hk)
      as (act & Hact & -> & _ & Hu & Hp & _).
    unfold refers_to_fuel, key_of. cbn [fst snd fuel_exchange].
    split; [reflexivity|]. split; [exact Hu|].
    exists act. repeat split; try assumption.
    rewrite Hp. apply Hincl. now left.
Qed.

(** X9. The fuel exchanges refer to datasets of the database.  The fuel loop
    of [build_clinker_production_datasets] leaves the exchanges it finds
    as they are and appends technosphere exchanges in kilograms, each
    carrying the name, the reference product and the location of a
    dataset of the database whose reference product is one of the three
    fuel products. *)
Theorem fuel_exchanges_resolve (db : list Activity) (k : string)
        (excs excs' : list Exchange) :
  add_fuel_exchanges geo rmd tab db k fuels excs = Ok excs' ->
  exists new,
    excs' = excs ++ new /\ Forall (refers_to_fuel db) new.
Proof.
  intros H. apply (add_fuel_exchanges_appends db k fuels) in H; [exact H|].
  intros x Hx. exact Hx.
Qed.
End FuelFacts.

Lemma fuel_exchanges_resolve_witness :
  exists new,
    add_fuel_exchanges geo_row rmd_ex tab_ex [waste_row; coal_row] "CAZ" fuels []
    = Ok ([] ++ new) /\
    Forall (fun exc => exists act, In act [waste_row; coal_row] /\
                                   e_name exc = a_name act) new.
Proof.
  destruct (add_fuel_exchanges geo_row rmd_ex tab_ex [waste_row; coal_row] "CAZ"
                               fuels []) as [excs'|e] eqn:E;
    [|vm_compute in E; discriminate].
  destruct (fuel_exchanges_resolve geo_row rmd_ex tab_ex _ _ _ _ E)
    as (new & -> & Hnew).
  exists new. split; [reflexivity|].
  eapply Forall_impl; [|exact Hnew].
  intros exc (_ & _ & act & Hin & Hn & _). eauto.
Defined.

(** ** More on the pollutants *)

Section PollutantFacts.
Variable rmd : RemindData.
Variable tab : Tables.

(** X10. A flow with a nonzero amount is brought to the level of the
    scenario, and its uncertainty is removed; nothing else of it
    changes. *)
Theorem update_pollutant_reaches_level (location label : string)
        (exc : Exchange) (v : Q) :
  dict_get String.eqb (e_name exc) (emissions_map tab) = Some label ->
  remind_emission_of rmd location label = Ok v ->
  ~ e_amount exc == 0 ->
  exists exc',
    update_pollutant_exchange rmd tab location exc = Ok exc' /\
    e_amount exc' == v /\
    e_uncertainty_type exc' = 0%Z /\
    e_loc exc' = Some (e_amount exc') /\
    e_uncertainty_fields exc' = [] /\
    (e_type exc', e_name exc', e_product exc', e_location exc', e_unit exc',
     e_production_volume exc')
    = (e_type exc, e_name exc, e_product exc, e_location exc, e_unit exc,
       e_production_volume exc).
Proof.
  intros Hl Hv Hnz. unfold update_pollutant_exchange. rewrite Hl, Hv.
  cbn [bind]. destruct (Qeq_bool (e_amount exc) 0) eqn:E.
  - apply Qeq_bool_iff in E. contradiction.
  - eexists. split; [reflexivity|]. cbn.
    split; [now field|]. repeat split.
Qed.

Lemma update_pollutant_exchange_error (location : string) (exc : Exchange)
      (e : exn) :
  update_pollutant_exchange rmd tab location exc = Raise e -> e = KeyError.
Proof.
  unfold update_pollutant_exchange, remind_emission_of.
  destruct (dict_get String.eqb (e_name exc) (emissions_map tab)) as [label|];
    [|intros H; now inversion H].
  destruct (cement_emissions rmd location label) as [v|].
  - cbn [bind]. destruct (Qeq_bool (e_amount exc) 0); discriminate.
  - destruct (cement_emissions rmd "CHA" label) as [v|]; cbn [bind].
    + destruct (Qeq_bool (e_amount exc) 0); discriminate.
    + intros H. now inversion H.
Qed.

Lemma update_pollutant_exchanges_error (location : string)
      (excs : list Exchange) (e : exn) :
  update_pollutant_exchanges rmd tab location excs = Raise e -> e = KeyError.
Proof.
  induction excs as [|exc excs IH]; simpl; [discriminate|].
  destruct (is_mapped_pollutant tab exc).
  - destruct (update_pollutant_exchange rmd tab location exc) as [exc'|e1] eqn:E1;
      cbn [bind].
    + destruct (update_pollutant_exchanges rmd tab location excs) as [r|e2];
        cbn [bind]; [discriminate|].
      intros H. inversion H; subst. now apply IH.
    + intros H. inversion H; subst.
      now apply (update_pollutant_exchange_error _ _ _ E1).
  - destruct (update_pollutant_exchanges rmd tab location excs) as [r|e2];
      cbn [bind]; [discriminate|].
    intros H. inversion H; subst. now apply IH.
Qed.

(** X11. The flows are selected by [contains] and looked up by equality: a
    biosphere flow whose name contains a name of the emission map
    without being one makes [update_pollutant_emissions] raise KeyError
    for the dataset. *)
Theorem update_pollutant_partial_name (ds : Activity) (exc : Exchange) :
  In exc (a_exchanges ds) ->
  is_mapped_pollutant tab exc = true ->
  dict_get String.eqb (e_name exc) (emissions_map tab) = None ->
  update_pollutant_emissions rmd tab ds = Raise KeyError.
Proof.
  intros Hin Hm Hg. unfold update_pollutant_emissions.
  assert (H : update_pollutant_exchanges rmd tab (a_location ds) (a_exchanges ds)
              = Raise KeyError).
  { revert Hin. generalize (a_exchanges ds) as l.
    induction l as [|x excs IH]; intros Hin; [contradiction|]. simpl.
    destruct Hin as [->|Hin].
    - rewrite Hm. unfold update_pollutant_exchange. now rewrite Hg.
    - specialize (IH Hin). rewrite IH.
      destruct (is_mapped_pollutant tab x); [|reflexivity].
      destruct (update_pollutant_exchange rmd tab (a_location ds) x)
        as [x'|e] eqn:E; cbn [bind]; [reflexivity|].
      now rewrite (update_pollutant_exchange_error _ _ _ E). }
  now rewrite H.
Qed.

(** X12. [update_pollutant_emissions] keeps the dataset and the list of its
    exchanges in place: a flow that is not selected is unchanged, and a
    selected flow keeps its type, name, product, location, unit and
    production volume. *)
Theorem update_pollutant_keeps_shape (ds ds' : Activity) :
  update_pollutant_emissions rmd tab ds = Ok ds' ->
  (a_name ds', a_reference_product ds', a_location ds', a_unit ds', a_code ds')
  = (a_name ds, a_reference_product ds, a_location ds, a_unit ds, a_code ds) /\
  Forall2 (fun exc exc' =>
             (is_mapped_pollutant tab exc = false -> exc' = exc) /\
             (e_type exc', e_name exc', e_product exc', e_location exc',
              e_unit exc', e_production_volume exc')
             = (e_type exc, e_name exc, e_product exc, e_location exc,
                e_unit exc, e_production_volume exc))
          (a_exchanges ds) (a_exchanges ds').
Proof.
  unfold update_pollutant_emissions.
  destruct (update_pollutant_exchanges rmd tab (a_location ds) (a_exchanges ds))
    as [excs'|e] eqn:E; [|discriminate].
  cbn [bind]. intros H. inversion H; subst; clear H. cbn.
  split; [reflexivity|].
  revert excs' E. generalize (a_location ds) as location.
  induction (a_exchanges ds) as [|exc excs IH]; intros location excs' E;
    cbn [update_pollutant_exchanges] in E.
  - inversion E. constructor.
  - destruct (is_mapped_pollutant tab exc) eqn:Hm.
    + destruct (update_pollutant_exchange rmd tab location exc) as [exc'|e1] eqn:E1;
        cbn [bind] in E; [|discriminate].
      destruct (update_pollutant_exchanges rmd tab location excs) as [r|e2] eqn:E2;
        cbn [bind] in E; [|discriminate].
      inversion E; subst; clear E.
      constructor; [|now apply (IH location)].
      split; [intros Hf; congruence|].
      unfold update_pollutant_exchange in E1.
      destruct (dict_get String.eqb (e_name exc) (emissions_map tab)) as [label|];
        [|discriminate].
      destruct (remind_emission_of rmd location label); cbn [bind] in E1;
        [|discriminate].
      destruct (Qeq_bool (e_amount exc) 0); inversion E1; reflexivity.
    + destruct (update_pollutant_exchanges rmd tab location excs) as [r|e2] eqn:E2;
        cbn [bind] in E; [|discriminate].
      inversion E; subst; clear E.
      constructor; [|now apply (IH location)]. auto.
Qed.
End PollutantFacts.

Lemma update_pollutant_reaches_level_witness :
  exists exc',
    update_pollutant_exchange
      rmd_ex tab_ex "CAZ"
      (mkExchange "biosphere" "Sulfur dioxide" None None "kilogram" (13 # 10)
                  None 2%Z (Some (13 # 10)) [("scale", 1 # 10)])
    = Ok exc' /\
    e_amount exc' == 52 # 10.
Proof.
  destruct (update_pollutant_reaches_level
              rmd_ex tab_ex "CAZ" "SO2"
              (mkExchange "biosphere" "Sulfur dioxide" None None "kilogram"
                          (13 # 10) None 2%Z (Some (13 # 10)) [("scale", 1 # 10)])
              (52 # 10))
    as (exc' & E & Ha & _); try reflexivity.
  - vm_compute. discriminate.
  - exists exc'. split; assumption.
Defined.

Lemma update_pollutant_partial_name_witness :
  update_pollutant_emissions
    rmd_ex tab_ex
    (mkActivity "clinker production" "clinker" "CAZ" "kilogram" "u0"
       [mkExchange "biosphere" "Sulfur dioxide, low population" None None
                   "kilogram" 1 None 0%Z None []])
  = Raise KeyError.
Proof.
  eapply update_pollutant_partial_name.
  - left. reflexivity.
  - reflexivity.
  - reflexivity.
Defined.

Lemma update_pollutant_keeps_shape_witness :
  exists ds',
    update_pollutant_emissions rmd_ex tab_ex clinker_caz = Ok ds' /\
    map e_name (a_exchanges ds') = map e_name (a_exchanges clinker_caz).
Proof.
  destruct (update_pollutant_emissions rmd_ex tab_ex clinker_caz)
    as [ds'|e] eqn:E; [|vm_compute in E; discriminate].
  exists ds'. split; [reflexivity|].
  destruct (update_pollutant_keeps_shape rmd_ex tab_ex _ _ E) as [_ H].
  induction H as [|x y l l' [_ Hxy] _ IH]; simpl; [reflexivity|].
  inversion Hxy. now rewrite IH.
Defined.

(** ** The recomputation of a clinker dataset *)

Lemma clip01_range (x : Q) : 0 <= clip01 x /\ clip01 x <= 1.
Proof.
  unfold clip01.
  destruct (Q.max_spec x 0) as [[H1 E1]|[H1 E1]];
    destruct (Q.min_spec (Qmax x 0) 1) as [[H2 E2]|[H2 E2]];
    rewrite E2; rewrite ?E1 in *; split; lra.
Qed.

(** X13. Clipping and normalising gives fractions of sum 1: for shares
    whose clipped values are not all zero, every entry of
    [x.clip(0, 1) / x.clip(0, 1).sum()] lies between 0 and 1 and the
    entries add up to 1. *)
Theorem clip_normalise_fractions (xs : list Q) :
  ~ sum_Q (map clip01 xs) == 0 ->
  sum_Q (clip_normalise xs) == 1 /\
  Forall (fun x => 0 <= x /\ x <= 1) (clip_normalise xs).
Proof.
  intros Hnz. unfold clip_normalise.
  assert (Hpos : Forall (fun y => 0 <= y) (map clip01 xs)).
  { rewrite Forall_forall. intros y Hy. apply in_map_iff in Hy as (x & <- & _).
    apply clip01_range. }
  pose proof (sum_Q_nonneg _ Hpos) as Hs.
  assert (HS : 0 < sum_Q (map clip01 xs)).
  { destruct (Qlt_le_dec 0 (sum_Q (map clip01 xs))) as [?|Hle]; [assumption|].
    exfalso. apply Hnz. lra. }
  split.
  - rewrite sum_Q_map_div by exact Hnz. now field.
  - rewrite Forall_forall. intros y Hy. apply in_map_iff in Hy as (c & <- & Hc).
    pose proof (sum_Q_upper _ c Hpos Hc) as Hup.
    assert (H0 : 0 <= c) by (rewrite Forall_forall in Hpos; now apply Hpos).
    split.
    + apply Qle_shift_div_l; [exact HS | lra].
    + apply Qle_shift_div_r; [exact HS | lra].
Qed.

Lemma clip_normalise_fractions_witness :
  sum_Q (clip_normalise [2 # 10; 15 # 10; - (3 # 10)]) == 1.
Proof.
  apply (clip_normalise_fractions [2 # 10; 15 # 10; - (3 # 10)]).
  vm_compute. discriminate.
Defined.

Section ClinkerBuildFacts.
Variable geo : Geomap.
Variable rmd : RemindData.
Variable tab : Tables.

(** X14. The fuels carry the energy of the kiln.  For a region with the
    three fuel shares, not all zero once clipped, and nonzero lower
    heating values, the masses of fuel per ton of clinker times the
    heating values add up to the energy input per ton of clinker. *)
Theorem fuel_qty_energy_balance (k : string) (waste biomass fossil : Q) :
  gnr_fuel_mix rmd k = [waste; biomass; fossil] ->
  ~ sum_Q (map clip01 [waste; biomass; fossil]) == 0 ->
  ~ fuels_lhv tab "waste" == 0 ->
  ~ fuels_lhv tab "wood pellet" == 0 ->
  ~ fuels_lhv tab "hard coal" == 0 ->
  sum_Q (mul_arrays (fuel_qty_per_type rmd tab k)
                    (map (fuels_lhv tab) fuel_names))
  == energy_input_per_ton_clinker_sum rmd k.
Proof.
  intros Hmix Hnz Hw Hb Hf.
  unfold fuel_qty_per_type, fuel_mix, clip_normalise. rewrite Hmix.
  generalize (energy_input_per_ton_clinker_sum rmd k) as energy. intros energy.
  cbn [map mul_arrays sum_Q fold_right fuel_names] in *.
  field. repeat split; try assumption.
  intros H. apply Hnz. lra.
Qed.

(** *** The two carbon dioxide flows *)



Lemma set_first_named_none (name : string) (amount : Q) (excs : list Exchange) :
  set_first_named name amount excs = None <-> first_named name excs = None.
Proof.
  unfold first_named. induction excs as [|e excs IH]; simpl; [tauto|].
  destruct (e_name e =? name); [split; discriminate|].
  destruct (set_first_named name amount excs); simpl.
  - split; [discriminate|]. intros H. apply IH in H. discriminate.
  - split; [intros _; now apply IH | reflexivity].
Qed.


Lemma first_named_app (name : string) (l l' : list Exchange) :
  first_named name (l ++ l')
  = match first_named name l with
    | Some e => Some e
    | None => first_named name l'
    end.
Proof.
  unfold first_named. induction l as [|e l IH]; simpl; [reflexivity|].
  destruct (e_name e =? name); [reflexivity | exact IH].
Qed.

Lemma first_named_absent (name : string) (l : list Exchange) :
  (forall exc, In exc l -> e_name exc <> name) -> first_named name l = None.
Proof.
  unfold first_named. induction l as [|e l IH]; intros H; simpl; [reflexivity|].
  destruct (e_name e =? name) eqn:E.
  - apply String.eqb_eq in E. exfalso. now apply (H e (or_introl eq_refl)).
  - apply IH. intros exc Hexc. apply H. now right.
Qed.


(** X16. Without a flow 'Carbon dioxide, fossil' the recomputation of the
    dataset raises IndexError: when the fuel loop has gone through,
    neither the dataset nor the database (whose names the fuel exchanges
    take) holding that name. *)
Theorem build_clinker_missing_fossil_co2 (db : list Activity) (k : string)
        (v : Activity) (excs1 : list Exchange) :
  add_fuel_exchanges geo rmd tab db k fuels (a_exchanges v) = Ok excs1 ->
  first_named "Carbon dioxide, fossil" (a_exchanges v) = None ->
  (forall act, In act db -> a_name act <> "Carbon dioxide, fossil") ->
  build_clinker_production_dataset geo rmd tab db k v = Raise IndexError.
Proof.
  intros E1 Hv Hdb. unfold build_clinker_production_dataset. rewrite E1.
  cbn [bind].
  destruct (add_fuel_exchanges_appends geo rmd tab db k fuels _ _
              (fun x Hx => Hx) E1) as (new & -> & Hnew).
  assert (Hnone : first_named "Carbon dioxide, fossil"
                              ((a_exchanges v ++ new)
                               ++ carbon_capture_exchanges rmd tab k) = None).
  { rewrite !first_named_app, Hv.
    assert (Hn : first_named "Carbon dioxide, fossil" new = None).
    { apply first_named_absent. intros exc Hexc.
      rewrite Forall_forall in Hnew.
      destruct (Hnew exc Hexc) as (_ & _ & act & Hact & Hname & _).
      rewrite Hname. now apply Hdb. }
    rewrite Hn. unfold carbon_capture_exchanges.
    destruct (Qlt_le_dec 0 (emi_cco2_cement rmd k / emi_co2_cement rmd k));
      reflexivity. }
  now rewrite (proj2 (set_first_named_none _ _ _) Hnone).
Qed.

End ClinkerBuildFacts.

Lemma fuel_qty_energy_balance_witness :
  sum_Q (mul_arrays (fuel_qty_per_type rmd_ex tab_ex "CAZ")
                    (map (fuels_lhv tab_ex) fuel_names))
  == energy_input_per_ton_clinker_sum rmd_ex "CAZ".
Proof.
  destruct (gnr_fuel_mix rmd_ex "CAZ") as [|w [|b [|f [|x l]]]] eqn:E;
    try (vm_compute in E; discriminate).
  apply (fuel_qty_energy_balance rmd_ex tab_ex "CAZ" w b f E);
    vm_compute in E; inversion E; subst; vm_compute; discriminate.
Defined.


Lemma build_clinker_missing_fossil_co2_witness :
  build_clinker_production_dataset geo_row rmd_ex tab_ex [waste_row; coal_row]
    "CAZ" (set_a_exchanges [so2_zero] clinker_caz)
  = Raise IndexError.
Proof.
  destruct (add_fuel_exchanges geo_row rmd_ex tab_ex [waste_row; coal_row] "CAZ"
              fuels (a_exchanges (set_a_exchanges [so2_zero] clinker_caz)))
    as [excs1|e] eqn:E; [|vm_compute in E; discriminate].
  apply (build_clinker_missing_fossil_co2 geo_row rmd_ex tab_ex
           [waste_row; coal_row] "CAZ" (set_a_exchanges [so2_zero] clinker_caz)
           excs1 E).
  - reflexivity.
  - intros act [<-|[<-|[]]]; discriminate.
Defined.


(** ** More on [relink_datasets] *)

Section RelinkMore.
Variable geo : Geomap.

(** The loop body, split into its failure and its effect. *)
Lemma relink_exchange_split (name ref_product : string) (exc : Exchange) :
  relink_exchange geo name ref_product exc
  = if unlocated name ref_product exc then Raise KeyError
    else Ok (relink_target geo name ref_product exc).
Proof.
  unfold relink_exchange, unlocated, relink_target.
  change ((e_name exc =? name) && option_string_eqb (e_product exc) ref_product
          && is_technosphere exc) with (relinked name ref_product exc).
  destruct (relinked name ref_product exc); simpl.
  - destruct (e_location exc) as [old_location|]; [|reflexivity].
    destruct (existsb (String.eqb old_location) (list_remind_regions geo));
      reflexivity.
  - destruct (e_location exc); reflexivity.
Qed.

Lemma relink_exchanges_split (name ref_product : string) (excs : list Exchange) :
  relink_exchanges geo name ref_product excs
  = if existsb (unlocated name ref_product) excs then Raise KeyError
    else Ok (map (relink_target geo name ref_product) excs).
Proof.
  induction excs as [|exc excs IH]; simpl; [reflexivity|].
  rewrite relink_exchange_split, IH.
  destruct (unlocated name ref_product exc); simpl; [reflexivity|].
  destruct (existsb (unlocated name ref_product) excs); reflexivity.
Qed.

Lemma relink_datasets_split (name ref_product : string) (db : list Activity) :
  relink_datasets geo name ref_product db
  = if existsb (fun act => existsb (unlocated name ref_product) (a_exchanges act))
               db
    then Raise KeyError
    else Ok (map (relink_targets geo name ref_product) db).
Proof.
  induction db as [|act db IH]; simpl; [reflexivity|].
  rewrite relink_exchanges_split, IH.
  destruct (existsb (unlocated name ref_product) (a_exchanges act)); simpl;
    [reflexivity|].
  destruct (existsb (fun act0 => existsb (unlocated name ref_product)
                                         (a_exchanges act0)) db); reflexivity.
Qed.

(** X18. [relink_datasets] fails in one way only: it raises KeyError, and it
    does so exactly when some dataset has a technosphere exchange of the
    given name and product that has no 'location'. *)
Theorem relink_datasets_key_error (name ref_product : string)
        (db : list Activity) :
  (relink_datasets geo name ref_product db = Raise KeyError <->
   exists act exc,
     In act db /\ In exc (a_exchanges act) /\
     relinked name ref_product exc = true /\ e_location exc = None) /\
  (forall e, relink_datasets geo name ref_product db = Raise e -> e = KeyError).
Proof.
  rewrite relink_datasets_split.
  destruct (existsb (fun act => existsb (unlocated name ref_product)
                                        (a_exchanges act)) db) eqn:E.
  - split; [|intros e H; now inversion H].
    split; [intros _|reflexivity].
    apply existsb_exists in E as (act & Hact & E).
    apply existsb_exists in E as (exc & Hexc & E).
    unfold unlocated in E. apply andb_prop in E as [Hm Hl].
    exists act, exc. repeat split; try assumption.
    destruct (e_location exc); [discriminate | reflexivity].
  - split; [|discriminate]. split; [discriminate|].
    intros (act & exc & Hact & Hexc & Hm & Hl). exfalso.
    assert (H : existsb (fun act => existsb (unlocated name ref_product)
                                            (a_exchanges act)) db = true).
    { apply existsb_exists. exists act. split; [exact Hact|].
      apply existsb_exists. exists exc. split; [exact Hexc|].
      unfold unlocated. now rewrite Hm, Hl. }
    congruence.
Qed.

Lemma set_e_location_same (exc : Exchange) :
  set_e_location (e_location exc) exc = exc.
Proof. now destruct exc. Qed.

Lemma set_a_exchanges_same (act : Activity) :
  set_a_exchanges (a_exchanges act) act = act.
Proof. now destruct act. Qed.

Lemma relink_target_frame (name ref_product : string) (exc : Exchange) :
  set_e_location (e_location exc) (relink_target geo name ref_product exc) = exc /\
  (e_location (relink_target geo name ref_product exc) <> e_location exc ->
   relinked name ref_product exc = true /\
   exists old_location,
     e_location exc = Some old_location /\
     ~ In old_location (list_remind_regions geo) /\
     e_location (relink_target geo name ref_product exc)
     = Some (ecoinvent_to_remind_location geo old_location)).
Proof.
  unfold relink_target.
  destruct (e_location exc) as [old_location|] eqn:El.
  - destruct (relinked name ref_product exc) eqn:Hm; simpl.
    + destruct (existsb (String.eqb old_location) (list_remind_regions geo))
        eqn:Hr; simpl.
      * rewrite <- El. split; [apply set_e_location_same | congruence].
      * split; [rewrite <- El; now destruct exc|].
        intros _. split; [reflexivity|]. exists old_location.
        split; [reflexivity|]. split; [|reflexivity].
        rewrite <- existsb_eqb_In. congruence.
    + rewrite <- El. split; [apply set_e_location_same | congruence].
  - rewrite <- El. split; [apply set_e_location_same | congruence].
Qed.

(** The datasets keep their name, product and location. *)
Lemma relink_datasets_triples (name ref_product : string)
      (db db' : list Activity) :
  relink_datasets geo name ref_product db = Ok db' ->
  map triple db' = map triple db.
Proof.
  rewrite relink_datasets_split.
  destruct (existsb _ db); [discriminate|].
  intros H. inversion H; subst. rewrite map_map. reflexivity.
Qed.

(** X19. [relink_datasets] touches locations of exchanges and nothing else.
    A run that succeeds returns the datasets in their order, each with
    its exchanges in their order; a dataset differs from its original
    in its exchanges only, an exchange in its location only, and a
    location that has changed belonged to a technosphere exchange of
    the given name and product, was not a region, and is now what the
    crosswalk makes of it. *)
Theorem relink_datasets_frame (name ref_product : string)
        (db db' : list Activity) :
  relink_datasets geo name ref_product db = Ok db' ->
  Forall2
    (fun act act' =>
       set_a_exchanges (a_exchanges act) act' = act /\
       Forall2
         (fun exc exc' =>
            set_e_location (e_location exc) exc' = exc /\
            (e_location exc' <> e_location exc ->
             relinked name ref_product exc = true /\
             exists old_location,
               e_location exc = Some old_location /\
               ~ In old_location (list_remind_regions geo) /\
               e_location exc'
               = Some (ecoinvent_to_remind_location geo old_location)))
         (a_exchanges act) (a_exchanges act'))
    db db'.
Proof.
  rewrite relink_datasets_split.
  destruct (existsb _ db); [discriminate|].
  intros H. inversion H; subst; clear H.
  induction db as [|act db IH]; simpl; constructor; [|exact IH].
  split; [now destruct act|].
  unfold relink_targets. cbn [a_exchanges set_a_exchanges].
  induction (a_exchanges act) as [|exc excs IHe]; simpl; constructor;
    [apply relink_target_frame | exact IHe].
Qed.

(** *** Two relinkings *)

Lemma relinked_relink_target (name ref_product name' ref_product' : string)
      (exc : Exchange) :
  relinked name' ref_product' (relink_target geo name ref_product exc)
  = relinked name' ref_product' exc.
Proof.
  unfold relink_target. destruct (e_location exc) as [l|]; [|reflexivity].
  destruct (relinked name ref_product exc && _); reflexivity.
Qed.

Lemma unlocated_relink_target (name ref_product name' ref_product' : string)
      (exc : Exchange) :
  unlocated name' ref_product' (relink_target geo name ref_product exc)
  = unlocated name' ref_product' exc.
Proof.
  unfold unlocated. rewrite relinked_relink_target. f_equal.
  unfold relink_target. destruct (e_location exc) as [l|] eqn:El.
  - destruct (relinked name ref_product exc && _); simpl; now rewrite ?El.
  - now rewrite El.
Qed.

Lemma relink_target_set (name ref_product : string) (exc : Exchange)
      (l : string) :
  relink_target geo name ref_product (set_e_location (Some l) exc)
  = if relinked name ref_product exc
       && negb (existsb (String.eqb l) (list_remind_regions geo))
    then set_e_location (Some (ecoinvent_to_remind_location geo l)) exc
    else set_e_location (Some l) exc.
Proof.
  unfold relink_target. cbn [e_location set_e_location].
  change (relinked name ref_product (set_e_location (Some l) exc))
    with (relinked name ref_product exc).
  destruct (relinked name ref_product exc && _); reflexivity.
Qed.

Lemma relink_target_commute (name1 ref1 name2 ref2 : string) (exc : Exchange) :
  relink_target geo name1 ref1 (relink_target geo name2 ref2 exc)
  = relink_target geo name2 ref2 (relink_target geo name1 ref1 exc).
Proof.
  destruct (e_location exc) as [old|] eqn:El.
  - assert (E : forall name ref_product,
               relink_target geo name ref_product exc
               = if relinked name ref_product exc
                    && negb (existsb (String.eqb old) (list_remind_regions geo))
                 then set_e_location
                        (Some (ecoinvent_to_remind_location geo old)) exc
                 else exc)
      by (intros; unfold relink_target; now rewrite El).
    rewrite (E name1 ref1), (E name2 ref2).
    destruct (relinked name1 ref1 exc) eqn:M1;
      destruct (relinked name2 ref2 exc) eqn:M2;
      destruct (existsb (String.eqb old) (list_remind_regions geo)) eqn:R;
      simpl; rewrite ?relink_target_set, ?M1, ?M2, ?E, ?M1, ?M2, ?R; simpl;
      reflexivity.
  - assert (E : forall name ref_product,
               relink_target geo name ref_product exc = exc)
      by (intros; unfold relink_target; now rewrite El).
    now rewrite !E.
Qed.

Lemma existsb_map {A B : Type} (f : A -> B) (p : B -> bool) (l : list A) :
  existsb p (map f l) = existsb (fun x => p (f x)) l.
Proof.
  induction l as [|x l IH]; simpl; [reflexivity | now rewrite IH].
Qed.

Lemma existsb_ext {A : Type} (p q : A -> bool) (l : list A) :
  (forall x, p x = q x) -> existsb p l = existsb q l.
Proof.
  intros H. induction l as [|x l IH]; simpl; [reflexivity | now rewrite H, IH].
Qed.

Lemma unlocated_relink_targets (name ref_product name' ref_product' : string)
      (db : list Activity) :
  existsb (fun act => existsb (unlocated name' ref_product') (a_exchanges act))
          (map (relink_targets geo name ref_product) db)
  = existsb (fun act => existsb (unlocated name' ref_product') (a_exchanges act))
            db.
Proof.
  rewrite existsb_map. apply existsb_ext. intros act.
  unfold relink_targets. cbn [a_exchanges set_a_exchanges].
  rewrite existsb_map. apply existsb_ext. intros exc.
  apply unlocated_relink_target.
Qed.

(** X20. Two relinkings commute: relinking to one dataset and then to
    another gives what the other order gives, the failures included. *)
Theorem relink_datasets_commute (name1 ref1 name2 ref2 : string)
        (db : list Activity) :
  (db' <- relink_datasets geo name1 ref1 db ;;
   relink_datasets geo name2 ref2 db')
  = (db' <- relink_datasets geo name2 ref2 db ;;
     relink_datasets geo name1 ref1 db').
Proof.
  rewrite (relink_datasets_split name1 ref1 db),
          (relink_datasets_split name2 ref2 db).
  destruct (existsb (fun act => existsb (unlocated name1 ref1) (a_exchanges act))
                    db) eqn:E1;
    destruct (existsb (fun act => existsb (unlocated name2 ref2) (a_exchanges act))
                      db) eqn:E2;
    cbn [bind]; rewrite ?relink_datasets_split, ?unlocated_relink_targets,
                         ?E1, ?E2; try reflexivity.
  f_equal. rewrite !map_map. apply map_ext. intros act.
  destruct act as [n p l u c excs]. unfold relink_targets, set_a_exchanges.
  cbn [a_name a_reference_product a_location a_unit a_code a_exchanges].
  f_equal. rewrite !map_map. apply map_ext. intros exc.
  apply relink_target_commute.
Qed.
End RelinkMore.

Lemma relink_datasets_frame_witness :
  exists db',
    relink_datasets geo_row "clinker production" "clinker" db_row = Ok db' /\
    Forall2 (fun act act' => set_a_exchanges (a_exchanges act) act' = act)
            db_row db'.
Proof.
  destruct (relink_datasets geo_row "clinker production" "clinker" db_row)
    as [db'|e] eqn:E; [|vm_compute in E; discriminate].
  exists db'. split; [reflexivity|].
  eapply Forall2_impl; [|exact (relink_datasets_frame geo_row _ _ _ _ E)].
  intros act act' [H _]. exact H.
Defined.

Lemma relink_datasets_key_error_witness :
  relink_datasets geo_row "clinker production" "clinker"
    [set_a_exchanges
       [mkExchange "technosphere" "clinker production" (Some "clinker") None
                   "kilogram" (9 # 10) None 0%Z None []]
       cement_row]
  = Raise KeyError.
Proof.
  apply (proj1 (relink_datasets_key_error geo_row "clinker production" "clinker"
                  _)).
  eexists. eexists. split; [left; reflexivity|].
  split; [left; reflexivity|]. split; reflexivity.
Defined.

(** ** The cement production datasets and their electricity *)

Section ElectricityFacts.
Variable geo : Geomap.
Variable rmd : RemindData.
Variable uuid4 : nat -> string.

(** The loop of [fetch_proxies] keeps [proxies_ok], whatever the
    database. *)
Lemma fetch_loop_proxies_ok (name ref_prod : string) (db : list Activity)
      (todo : list (string * string)) :
  forall d_act n d' n',
    proxies_ok name ref_prod d_act ->
    fetch_loop uuid4 name ref_prod db todo d_act n = Ok (d', n') ->
    proxies_ok name ref_prod d'.
Proof.
  induction todo as [|[d loc] todo IH]; intros d_act n d' n' Hok H; simpl in H.
  - now inversion H; subst.
  - destruct (get_one (name_ref_loc_is name ref_prod loc) db) as [ds|e] eqn:E.
    + apply get_one_ok in E as [_ Ht]. unfold triple in Ht.
      apply (IH _ _ _ _ (proxies_ok_set name ref_prod d (uuid4 n) ds d_act Hok
                           ltac:(apply name_ref_is_true; now inversion Ht)) H).
    + destruct e; try discriminate. now apply (IH _ _ _ _ Hok H).
Qed.

Lemma fetch_proxies_proxies_ok (name ref_prod : string) (st st' : State)
      (d_act : dict string Activity) :
  fetch_proxies geo uuid4 name ref_prod st = Ok (d_act, st') ->
  proxies_ok name ref_prod d_act.
Proof.
  unfold fetch_proxies.
  destruct (fetch_loop uuid4 name ref_prod (db st)
                       (d_remind_to_eco geo name ref_prod (db st)) []
                       (uuid_count st)) as [[d n]|e] eqn:E; [|discriminate].
  cbn [bind fst snd]. intros H. inversion H; subst.
  assert (H0 : proxies_ok name ref_prod [])
    by (split; [constructor | intros k v []]).
  exact (fetch_loop_proxies_ok _ _ _ _ _ _ _ _ H0 E).
Qed.

Lemma update_electricity_exchanges_in (d_act : dict string Activity)
      (k : string) (act : Activity) :
  In (k, act) (update_electricity_exchanges rmd d_act) ->
  exists act0,
    In (k, act0) d_act /\
    act = set_a_exchanges
            (map (update_electricity_exchange rmd k) (a_exchanges act0)) act0.
Proof.
  unfold update_electricity_exchanges. intros H.
  apply in_map_iff in H as ([k0 act0] & E & Hin). cbn [fst snd] in E.
  inversion E; subst. eauto.
Qed.

(** X21. The electricity of the cement production datasets.  What
    [update_cement_production_datasets] returns under a region is a
    dataset of the given name and product located in that region, and
    every technosphere exchange in kilowatt hours of that dataset has
    as amount the power consumption less the power generation of the
    region, divided by 1000. *)
Theorem update_cement_production_electricity (name ref_prod : string)
        (st st' : State) (d_act : dict string Activity) :
  update_cement_production_datasets geo rmd uuid4 name ref_prod st
  = Ok (d_act, st') ->
  forall k act,
    In (k, act) d_act ->
    triple act = (name, ref_prod, k) /\
    forall exc,
      In exc (a_exchanges act) ->
      is_technosphere exc = true -> e_unit exc = "kilowatt hour" ->
      e_amount exc
      = (gnr_power_consumption rmd (a_location act)
         - gnr_power_generation rmd (a_location act)) / 1000.
Proof.
  unfold update_cement_production_datasets.
  destruct (fetch_proxies geo uuid4 name ref_prod st) as [[d0 st0]|e] eqn:E;
    cbn [bind fst snd]; [|discriminate].
  intros H k act Hin. inversion H; subst; clear H.
  apply fetch_proxies_proxies_ok in E as [_ Hall].
  apply update_electricity_exchanges_in in Hin as (act0 & Hin0 & ->).
  destruct (Hall k act0 Hin0) as (Hl & Hn & Hr).
  split.
  - unfold triple. cbn. now rewrite Hl, Hn, Hr.
  - cbn [a_exchanges a_location set_a_exchanges]. rewrite Hl.
    intros exc Hexc Ht Hu. apply in_map_iff in Hexc as (e0 & <- & _).
    unfold update_electricity_exchange in *.
    destruct (is_technosphere e0 && (e_unit e0 =? "kilowatt hour")) eqn:Eb;
      [reflexivity|].
    apply String.eqb_eq in Hu. rewrite Ht, Hu in Eb. discriminate.
Qed.

Lemma update_electricity_exchange_again (act : string) (exc : Exchange) :
  update_electricity_exchange rmd act (update_electricity_exchange rmd act exc)
  = update_electricity_exchange rmd act exc.
Proof.
  unfold update_electricity_exchange.
  destruct (is_technosphere exc && (e_unit exc =? "kilowatt hour")) eqn:E.
  - change (is_technosphere (set_e_amount _ exc)) with (is_technosphere exc).
    cbn [e_unit set_e_amount]. now rewrite E.
  - now rewrite E.
Qed.

(** X22. Updating the electricity twice is updating it once. *)
Theorem update_electricity_exchanges_idempotent (d_act : dict string Activity) :
  update_electricity_exchanges rmd (update_electricity_exchanges rmd d_act)
  = update_electricity_exchanges rmd d_act.
Proof.
  unfold update_electricity_exchanges. rewrite map_map. apply map_ext.
  intros [k act]. cbn [fst snd]. f_equal.
  destruct act as [n p l u c excs]. unfold set_a_exchanges.
  cbn [a_name a_reference_product a_location a_unit a_code a_exchanges].
  f_equal. rewrite map_map. apply map_ext. intros exc.
  apply update_electricity_exchange_again.
Qed.
End ElectricityFacts.

Lemma update_cement_production_electricity_witness :
  exists d_act st' act,
    update_cement_production_datasets geo_row rmd_ex (fun _ => "u")
      "cement production, Portland" "cement, Portland"
      (mkState [clinker_row; grinding_row] [] 0) = Ok (d_act, st') /\
    In ("CAZ", act) d_act /\
    forall exc,
      In exc (a_exchanges act) ->
      is_technosphere exc = true -> e_unit exc = "kilowatt hour" ->
      e_amount exc = (100 - 10) / 1000.
Proof.
  destruct (update_cement_production_datasets geo_row rmd_ex (fun _ => "u")
              "cement production, Portland" "cement, Portland"
              (mkState [clinker_row; grinding_row] [] 0))
    as [[d_act st']|e] eqn:E; [|vm_compute in E; discriminate].
  assert (Hin : exists act, In ("CAZ", act) d_act).
  { vm_compute in E. inversion E; subst. eexists. left. reflexivity. }
  destruct Hin as [act Hin].
  exists d_act, st', act. split; [reflexivity|]. split; [exact Hin|].
  exact (proj2 (update_cement_production_electricity geo_row rmd_ex _ _ _ _ _ _
                  E "CAZ" act Hin)).
Defined.

(** ** More on [adjust_clinker_ratio] *)

Section AdjustMore.
Variable tab : Tables.

Lemma set_e_amount_same (exc : Exchange) : set_e_amount (e_amount exc) exc = exc.
Proof. now destruct exc. Qed.

(** Writing back the shares that were read changes nothing. *)
Lemma write_back_collected (excs : list Exchange) :
  forall sh ra,
    collect_mix tab excs = Ok (sh, ra) -> write_back excs sh = Ok excs.
Proof.
  induction excs as [|exc excs IH]; intros sh ra; simpl; [reflexivity|].
  destruct (is_cement_supply exc) as [[|]|e]; simpl; try discriminate.
  - destruct (e_location exc) as [loc|]; [|discriminate].
    destruct (dict_get pair_eqb (e_name exc, loc) (clinker_ratio_eco tab))
      as [r|]; [|discriminate].
    destruct (collect_mix tab excs) as [[sh' ra']|e]; simpl; [|discriminate].
    intros H. inversion H; subst. rewrite (IH sh' ra' eq_refl). simpl.
    now rewrite set_e_amount_same.
  - intros H. now rewrite (IH _ _ H).
Qed.

Lemma map_nan_to_num_Some (l : list Q) : map nan_to_num (map Some l) = l.
Proof.
  induction l as [|q l IH]; simpl; [reflexivity | now rewrite IH].
Qed.

(** X23. A dataset that is at its target is left as it is.  When the
    average clinker-to-cement ratio of the suppliers, weighted by their
    shares, is not over the ratio to reach, the loop is not entered and
    [adjust_clinker_ratio] hands the dataset back unchanged. *)
Theorem adjust_clinker_ratio_at_target (d : string) (act : Activity)
        (target : Q) (sh ra : list Q) :
  clinker_ratio_remind tab d = Some target ->
  collect_mix tab (a_exchanges act) = Ok (sh, ra) ->
  weighted_sum (map Some ra) (map Some sh) <= target ->
  forall fuel, adjust_clinker_ratio_of tab fuel d act = Done act.
Proof.
  intros Ht Hc Ha fuel. unfold adjust_clinker_ratio_of. rewrite Ht, Hc.
  assert (El : adjust_loop fuel target (initial_mix sh ra)
               = Done (initial_mix sh ra)).
  { apply Qle_bool_iff in Ha.
    destruct fuel; simpl; unfold initial_mix at 1; cbn [average_ratio];
      now rewrite Ha. }
  rewrite El. cbn [share initial_mix]. rewrite map_nan_to_num_Some.
  rewrite (write_back_collected _ _ _ Hc). now destruct act.
Qed.

Lemma nan_if_zero_Some_inv (s q : Q) : nan_if_zero (Some s) = Some q -> q = s.
Proof.
  simpl. destruct (Qeq_bool s 0); [discriminate|]. intros H. now inversion H.
Qed.

(** X24. No supplier over the floor.  When the average is over the ratio to
    reach and every share is under 0.001, the first pass masks every
    ratio and [np.nanargmax] raises ValueError. *)
Theorem adjust_clinker_ratio_all_masked (d : string) (act : Activity)
        (target : Q) (sh ra : list Q) :
  clinker_ratio_remind tab d = Some target ->
  collect_mix tab (a_exchanges act) = Ok (sh, ra) ->
  target < weighted_sum (map Some ra) (map Some sh) ->
  Forall (fun s => s < 1 # 1000) sh ->
  forall fuel, adjust_clinker_ratio_of tab (S fuel) d act = Failed ValueError.
Proof.
  intros Ht Hc Ha Hlow fuel. unfold adjust_clinker_ratio_of. rewrite Ht, Hc.
  assert (Es : adjust_step (initial_mix sh ra) = Raise ValueError).
  { unfold adjust_step, nanargmax. cbn [share ratio initial_mix].
    destruct (nanmax (mask_ratio (map nan_if_zero (map Some sh)) (map Some ra)))
      as [[h rh]|] eqn:E; [|reflexivity].
    exfalso. apply nanmax_spec in E as [E _].
    apply mask_ratio_some in E as (q & Hq & Hfloor & _).
    rewrite map_map in Hq. apply nth_error_In in Hq.
    apply in_map_iff in Hq as (s & Hs & Hin).
    apply nan_if_zero_Some_inv in Hs. subst q.
    rewrite Forall_forall in Hlow. specialize (Hlow s Hin). lra. }
  cbn [adjust_loop]. unfold initial_mix at 1. cbn [average_ratio].
  destruct (Qle_bool (weighted_sum (map Some ra) (map Some sh)) target) eqn:Eb.
  { apply Qle_bool_iff in Eb. lra. }
  now rewrite Es.
Qed.

(** What [write_back] leaves alone. *)
Lemma write_back_frame (excs : list Exchange) :
  forall sh excs',
    write_back excs sh = Ok excs' ->
    Forall2 (fun exc exc' =>
               set_e_amount (e_amount exc) exc' = exc /\
               (is_cement exc = false -> exc' = exc))
            excs excs'.
Proof.
  induction excs as [|exc excs IH]; intros sh excs'; simpl.
  - intros H. inversion H. constructor.
  - destruct (is_cement_supply exc) as [[|]|e] eqn:Ec; simpl; try discriminate.
    + destruct sh as [|s sh]; [discriminate|].
      destruct (write_back excs sh) as [rest|e] eqn:Er; simpl; [|discriminate].
      intros H. inversion H; subst. constructor; [|now apply (IH sh)].
      split; [now destruct exc|]. unfold is_cement. rewrite Ec. discriminate.
    + destruct (write_back excs sh) as [rest|e] eqn:Er; simpl; [|discriminate].
      intros H. inversion H; subst. constructor; [|now apply (IH sh)].
      split; [apply set_e_amount_same | reflexivity].
Qed.

Lemma adjust_clinker_ratio_of_frame (fuel : nat) (d : string)
      (act act' : Activity) :
  adjust_clinker_ratio_of tab fuel d act = Done act' ->
  set_a_exchanges (a_exchanges act) act' = act /\
  Forall2 (fun exc exc' =>
             set_e_amount (e_amount exc) exc' = exc /\
             (is_cement exc = false -> exc' = exc))
          (a_exchanges act) (a_exchanges act').
Proof.
  unfold adjust_clinker_ratio_of.
  destruct (clinker_ratio_remind tab d) as [target|]; [|discriminate].
  destruct (collect_mix tab (a_exchanges act)) as [[sh ra]|e]; [|discriminate].
  destruct (adjust_loop fuel target (initial_mix sh ra)) as [m|e|];
    try discriminate.
  destruct (write_back (a_exchanges act) (map nan_to_num (share m)))
    as [excs|e] eqn:Ew; [|discriminate].
  intros H. inversion H; subst. split; [now destruct act|].
  cbn [a_exchanges set_a_exchanges]. now apply (write_back_frame _ _ _ Ew).
Qed.

(** X25. [adjust_clinker_ratio] touches amounts of cement supplies and
    nothing else.  A run that ends returns the same regions in the same
    order; a dataset differs from its original in its exchanges only,
    an exchange in its amount only, and the exchanges that are not
    technosphere exchanges of a product with 'cement' in its name are
    the same. *)
Theorem adjust_clinker_ratio_frame (fuel : nat)
        (d_act d_act' : dict string Activity) :
  adjust_clinker_ratio tab fuel d_act = Done d_act' ->
  Forall2
    (fun kv kv' =>
       fst kv' = fst kv /\
       set_a_exchanges (a_exchanges (snd kv)) (snd kv') = snd kv /\
       Forall2 (fun exc exc' =>
                  set_e_amount (e_amount exc) exc' = exc /\
                  (is_cement exc = false -> exc' = exc))
               (a_exchanges (snd kv)) (a_exchanges (snd kv')))
    d_act d_act'.
Proof.
  revert d_act'. induction d_act as [|[d act] rest IH]; intros d_act'; simpl.
  - intros H. inversion H. constructor.
  - destruct (adjust_clinker_ratio_of tab fuel d act) as [act'|e|] eqn:E;
      try discriminate.
    destruct (adjust_clinker_ratio tab fuel rest) as [rest'|e|];
      try discriminate.
    intros H. inversion H; subst. constructor; [|now apply IH].
    cbn [fst snd]. split; [reflexivity|].
    now apply (adjust_clinker_ratio_of_frame fuel d).
Qed.
End AdjustMore.

Lemma adjust_clinker_ratio_at_target_witness :
  adjust_clinker_ratio_of
    (mkTables (fuels_lhv tab_ex) (fuels_co2 tab_ex) (fuels_bio_share tab_ex)
              (fuel_map tab_ex) (emissions_map tab_ex) (clinker_ratio_eco tab_ex)
              (fun _ => Some (9 # 10)))
    5 "CAZ" market_caz
  = Done market_caz.
Proof.
  apply (adjust_clinker_ratio_at_target _ "CAZ" market_caz (9 # 10)
           [9 # 10; 1 # 10] [9 # 10; 5 # 10]).
  - reflexivity.
  - reflexivity.
  - vm_compute. discriminate.
Defined.

Lemma adjust_clinker_ratio_all_masked_witness :
  adjust_clinker_ratio_of
    (mkTables (fuels_lhv tab_ex) (fuels_co2 tab_ex) (fuels_bio_share tab_ex)
              (fuel_map tab_ex) (emissions_map tab_ex) (clinker_ratio_eco tab_ex)
              (fun _ => Some 0))
    1 "CAZ"
    (set_a_exchanges
       [mkExchange "technosphere" "cement production, Portland"
                   (Some "cement, Portland") (Some "CAZ") "kilogram"
                   (5 # 10000) None 0%Z None []]
       market_caz)
  = Failed ValueError.
Proof.
  apply (adjust_clinker_ratio_all_masked _ "CAZ" _ 0 [5 # 10000] [9 # 10]).
  - reflexivity.
  - reflexivity.
  - vm_compute. reflexivity.
  - repeat constructor.
Defined.

Lemma adjust_clinker_ratio_frame_witness :
  exists d_act',
    adjust_clinker_ratio tab_ex 20 [("CAZ", market_caz)] = Done d_act' /\
    map (fun kv => map e_name (a_exchanges (snd kv))) d_act'
    = [map e_name (a_exchanges market_caz)].
Proof.
  destruct (adjust_clinker_ratio tab_ex 20 [("CAZ", market_caz)])
    as [d_act'|e|] eqn:E; try (vm_compute in E; discriminate).
  exists d_act'. split; [reflexivity|].
  pose proof (adjust_clinker_ratio_frame tab_ex _ _ _ E) as H.
  inversion H as [|kv kv' l l' (_ & _ & Hx) Hr]; subst.
  inversion Hr; subst. cbn [map snd]. f_equal.
  clear - Hx. cbn [snd] in Hx.
  induction Hx as [|exc exc' l l' [Hs _] _ IH]; simpl; [reflexivity|].
  f_equal; [|exact IH]. rewrite <- Hs. reflexivity.
Defined.

(** ** [add_datasets_to_database] *)

Section AddDatasetsTrace.
Variable geo : Geomap.
Variable rmd : RemindData.
Variable tab : Tables.
Variable uuid4 : nat -> string.

(** *** What the steps do to the proxies *)

Lemma transformed_same (families : list (string * string))
      (d_act : dict string Activity) :
  transformed families d_act d_act.
Proof.
  unfold transformed. induction d_act as [|kv d IH]; constructor; [|exact IH].
  split; [reflexivity|]. split; [reflexivity|]. eauto.
Qed.

Lemma Forall2_In_r {A B : Type} (R : A -> B -> Prop) (l : list A) (l' : list B)
      (b : B) :
  Forall2 R l l' -> In b l' -> exists a, In a l /\ R a b.
Proof.
  induction 1 as [|x y l l' Hxy _ IH]; intros Hin; [contradiction|].
  destruct Hin as [<-|Hin].
  - exists x. split; [now left | exact Hxy].
  - destruct (IH Hin) as (a & Ha & Hab). exists a. split; [now right | exact Hab].
Qed.

(** A change of amounts only is such a step. *)
Lemma reamounted_exchanges (excs excs' : list Exchange) (exc' : Exchange)
      (i : string * string) :
  Forall2 (fun exc exc' => set_e_amount (e_amount exc) exc' = exc) excs excs' ->
  In exc' excs' -> relinked (fst i) (snd i) exc' = true ->
  exists exc,
    In exc excs /\ relinked (fst i) (snd i) exc = true /\
    e_location exc = e_location exc'.
Proof.
  intros HF Hin Hm. destruct (Forall2_In_r _ _ _ _ HF Hin) as (exc & He & Hs).
  exists exc. split; [exact He|]. rewrite <- Hs. split; [exact Hm | reflexivity].
Qed.

Lemma transformed_adjust (families : list (string * string)) (fuel : nat)
      (d_act d_act' : dict string Activity) :
  adjust_clinker_ratio tab fuel d_act = Done d_act' ->
  transformed families d_act d_act'.
Proof.
  unfold transformed. revert d_act'.
  induction d_act as [|[d act] rest IH]; intros d_act'; simpl.
  - intros H. inversion H. constructor.
  - destruct (adjust_clinker_ratio_of tab fuel d act) as [act'|e|] eqn:E;
      try discriminate.
    destruct (adjust_clinker_ratio tab fuel rest) as [rest'|e|];
      try discriminate.
    intros H. inversion H; subst. constructor; [|now apply IH].
    cbn [fst snd]. split; [reflexivity|].
    destruct (adjust_clinker_ratio_of_frame tab fuel d _ _ E) as [Hs HF].
    split; [rewrite <- Hs; reflexivity|].
    intros exc' i Hin _ Hm.
    apply (reamounted_exchanges (a_exchanges act) (a_exchanges act'));
      try assumption.
    eapply Forall2_impl; [|exact HF]. intros a b [Hab _]. exact Hab.
Qed.

Lemma transformed_electricity (families : list (string * string))
      (d_act : dict string Activity) :
  transformed families d_act (update_electricity_exchanges rmd d_act).
Proof.
  unfold transformed, update_electricity_exchanges.
  induction d_act as [|[k act] rest IH]; simpl; constructor; [|exact IH].
  cbn [fst snd a_exchanges set_a_exchanges]. split; [reflexivity|].
  split; [reflexivity|].
  intros exc' i Hin _ Hm. apply in_map_iff in Hin as (exc & <- & Hin).
  exists exc. split; [exact Hin|].
  unfold update_electricity_exchange in *.
  destruct (is_technosphere exc && (e_unit exc =? "kilowatt hour"));
    split; try exact Hm; reflexivity.
Qed.

Lemma build_clinker_loop_triples (db : list Activity)
      (d_act d_act' : dict string Activity) :
  build_clinker_loop geo rmd tab db d_act = Ok d_act' ->
  transformed [] d_act d_act'.
Proof.
  unfold transformed. revert d_act'.
  induction d_act as [|[k v] rest IH]; intros d_act'; simpl.
  - intros H. inversion H. constructor.
  - destruct (build_clinker_production_dataset geo rmd tab db k v) as [v'|e] eqn:E;
      cbn [bind]; [|discriminate].
    destruct (build_clinker_loop geo rmd tab db rest) as [rest'|e];
      cbn [bind]; [|discriminate].
    intros H. inversion H; subst. constructor; [|now apply IH].
    cbn [fst snd]. split; [reflexivity|]. split; [|intros exc' i _ []].
    unfold build_clinker_production_dataset in E.
    destruct (add_fuel_exchanges geo rmd tab db k fuels (a_exchanges v));
      cbn [bind] in E; [|discriminate].
    destruct (set_first_named _ _ _); [|discriminate].
    destruct (set_first_named _ _ _); inversion E; reflexivity.
Qed.

Lemma update_pollutant_loop_triples (d_act d_act' : dict string Activity) :
  update_pollutant_loop rmd tab d_act = Ok d_act' ->
  transformed [] d_act d_act'.
Proof.
  unfold transformed. revert d_act'.
  induction d_act as [|[k v] rest IH]; intros d_act'; simpl.
  - intros H. inversion H. constructor.
  - unfold update_pollutant_emissions.
    destruct (update_pollutant_exchanges rmd tab (a_location v) (a_exchanges v))
      as [excs|e]; cbn [bind]; [|discriminate].
    destruct (update_pollutant_loop rmd tab rest) as [rest'|e];
      cbn [bind]; [|discriminate].
    intros H. inversion H; subst. constructor; [|now apply IH].
    cbn [fst snd]. split; [reflexivity|]. split; [reflexivity|].
    intros exc' i _ [].
Qed.

Lemma transformed_trans (d1 d2 d3 : dict string Activity) :
  transformed [] d1 d2 -> transformed [] d2 d3 -> transformed [] d1 d3.
Proof.
  unfold transformed. intros H. revert d3.
  induction H as [|a b l l' (Hk & Ht & _) _ IH]; intros d3 H3;
    inversion H3 as [|b' c l2 l3 (Hk' & Ht' & _) Hr]; subst; constructor.
  - split; [congruence|]. split; [congruence|]. intros exc' i _ [].
  - now apply IH.
Qed.

Lemma build_clinker_production_datasets_fetch (st st' : State)
      (d_act' : dict string Activity) :
  build_clinker_production_datasets geo rmd tab uuid4 st = Ok (d_act', st') ->
  exists d_act,
    fetch_proxies geo uuid4 "clinker production" "clinker" st = Ok (d_act, st') /\
    transformed [] d_act d_act'.
Proof.
  unfold build_clinker_production_datasets.
  destruct (fetch_proxies geo uuid4 "clinker production" "clinker" st)
    as [[d0 st0]|e]; cbn [bind fst snd]; [|discriminate].
  destruct (build_clinker_loop geo rmd tab (db st0)
              (map (fun kv => (fst kv, remove_exchanges list_fuels (snd kv))) d0))
    as [d1|e] eqn:E1; cbn [bind]; [|discriminate].
  destruct (update_pollutant_loop rmd tab d1) as [d2|e] eqn:E2; cbn [bind];
    [|discriminate].
  intros H. inversion H; subst. exists d0. split; [reflexivity|].
  apply transformed_trans with
    (d2 := map (fun kv => (fst kv, remove_exchanges list_fuels (snd kv))) d0).
  - unfold transformed. clear. induction d0 as [|[k v] d IH]; simpl; constructor;
      [|exact IH].
    cbn [fst snd]. split; [reflexivity|]. split; [reflexivity|].
    intros exc' i _ [].
  - apply transformed_trans with (d2 := d1).
    + now apply build_clinker_loop_triples with (db := db st').
    + now apply update_pollutant_loop_triples.
Qed.

(** *** An invariant of the whole run

    [P fetched relinked st created] is kept by a replacement of the
    datasets of one family by regional copies and by a relinking. *)

Variable P : list (string * string) -> list (string * string) -> State ->
             list (string * string * string) -> Prop.

Hypothesis P_fetch :
  forall fetched relinked st created name ref_prod d_act st1 d_act',
    P fetched relinked st created ->
    fetch_proxies geo uuid4 name ref_prod st = Ok (d_act, st1) ->
    transformed relinked d_act d_act' ->
    P (fetched ++ [(name, ref_prod)]) relinked (extend_db d_act' st1)
      (created ++ map triple (values d_act')).

Hypothesis P_relink :
  forall fetched relinked st created name ref_prod st',
    P fetched relinked st created ->
    relink_db geo name ref_prod st = Ok st' ->
    P fetched (relinked ++ [(name, ref_prod)]) st' created.

Lemma add_cement_families_keep
      (make : string -> string -> State -> res (dict string Activity * State))
      (families : list (string * string)) :
  (forall relinked name ref_prod st d_act' st1,
      make name ref_prod st = Ok (d_act', st1) ->
      exists d_act,
        fetch_proxies geo uuid4 name ref_prod st = Ok (d_act, st1) /\
        transformed relinked d_act d_act') ->
  forall fetched relinked w w',
    P fetched relinked (fst w) (snd w) ->
    add_cement_families geo make families w = Ok w' ->
    P (fetched ++ families) (relinked ++ families) (fst w') (snd w').
Proof.
  intros Hmake. induction families as [|[name ref_prod] rest IH];
    intros fetched relinked w w' HP H; simpl in H.
  - inversion H; subst. now rewrite !app_nil_r.
  - unfold add_cement_family in H. cbn [fst snd] in H.
    destruct (make name ref_prod (fst w)) as [[d' st1]|e] eqn:Em;
      cbn [bind fst snd] in H; [|discriminate].
    destruct (relink_db geo name ref_prod (extend_db d' st1)) as [st2|e] eqn:Er;
      cbn [bind] in H; [|discriminate].
    destruct (Hmake relinked _ _ _ _ _ Em) as (d & Ef & Ht).
    pose proof (P_fetch _ _ _ _ _ _ _ _ _ HP Ef Ht) as HP1.
    pose proof (P_relink _ _ _ _ _ _ _ HP1 Er) as HP2.
    specialize (IH _ _ (st2, snd w ++ map triple (values d')) w' HP2 H).
    now rewrite <- !app_assoc in IH.
Qed.

Lemma relink_all_keep (pairs : list (string * string)) :
  forall fetched relinked st st' created,
    P fetched relinked st created ->
    relink_all geo pairs st = Ok st' ->
    P fetched (relinked ++ pairs) st' created.
Proof.
  induction pairs as [|[name ref_prod] rest IH];
    intros fetched relinked st st' created HP H; simpl in H.
  - inversion H; subst. now rewrite app_nil_r.
  - destruct (relink_db geo name ref_prod st) as [st1|e] eqn:Er;
      cbn [bind] in H; [|discriminate].
    pose proof (P_relink _ _ _ _ _ _ _ HP Er) as HP1.
    specialize (IH _ _ _ _ _ HP1 H). now rewrite <- app_assoc in IH.
Qed.

Lemma add_datasets_keep (fuel : nat) (version_35 : bool) (st : State)
      (db' : list Activity) (created : list (string * string * string)) :
  P [] [] st [] ->
  add_datasets_to_database geo rmd tab uuid4 fuel version_35 st
  = Done (db', created) ->
  exists st',
    db st' = db' /\
    P (fetched_families version_35) (relinked_families version_35) st' created.
Proof.
  intros HP. unfold add_datasets_to_database.
  destruct (build_clinker_production_datasets geo rmd tab uuid4 st)
    as [[d1 st1]|e] eqn:E1; cbn [of_res and_then fst snd]; [|discriminate].
  destruct (build_clinker_production_datasets_fetch _ _ _ E1) as (d1' & F1 & T1).
  pose proof (P_fetch _ _ _ _ _ _ _ _ _ HP F1 T1) as HP1.
  unfold build_clinker_market_datasets.
  destruct (fetch_proxies geo uuid4 "market for clinker" "clinker"
                          (extend_db d1 st1))
    as [[d2 st2]|e] eqn:E2; cbn [of_res and_then fst snd]; [|discriminate].
  pose proof (P_fetch _ _ _ _ _ _ _ _ _ HP1 E2 (transformed_same _ _)) as HP2.
  destruct (fetch_proxies geo uuid4 (fst (cement_unspecified version_35))
                          (snd (cement_unspecified version_35))
                          (extend_db d2 st2))
    as [[d3 st3]|e] eqn:E3; cbn [of_res and_then fst snd]; [|discriminate].
  destruct (adjust_clinker_ratio tab fuel d3) as [d3'|e|] eqn:A3;
    cbn [and_then]; try discriminate.
  pose proof (P_fetch _ _ _ _ _ _ _ _ _ HP2 E3 (transformed_adjust _ _ _ _ A3))
    as HP3.
  destruct (relink_db geo (fst (cement_unspecified version_35))
                      (snd (cement_unspecified version_35))
                      (extend_db d3' st3))
    as [st4|e] eqn:R3; cbn [of_res and_then]; [|discriminate].
  pose proof (P_relink _ _ _ _ _ _ _ HP3 R3) as HP4.
  destruct (add_cement_families geo
              (update_cement_production_datasets geo rmd uuid4)
              (cement_production version_35) _) as [w4|e] eqn:E4;
    cbn [of_res and_then]; [|discriminate].
  apply add_cement_families_keep
    with (fetched := ([] ++ [("clinker production", "clinker")])
                     ++ [("market for clinker", "clinker")]
                     ++ [(fst (cement_unspecified version_35),
                          snd (cement_unspecified version_35))])
         (relinked := [] ++ [(fst (cement_unspecified version_35),
                              snd (cement_unspecified version_35))]) in E4.
  2:{ intros relinked name ref_prod s d' s1 Hm.
      unfold update_cement_production_datasets in Hm.
      destruct (fetch_proxies geo uuid4 name ref_prod s) as [[d0 s0]|e];
        cbn [bind fst snd] in Hm; [|discriminate].
      inversion Hm; subst. exists d0. split; [reflexivity|].
      apply transformed_electricity. }
  2:{ cbn [fst snd]. rewrite <- app_assoc in HP4. exact HP4. }
  destruct (add_cement_families geo (fetch_proxies geo uuid4)
                                (cement_markets version_35) w4) as [w5|e] eqn:E5;
    cbn [of_res and_then]; [|discriminate].
  apply add_cement_families_keep
    with (1 := fun relinked name ref_prod s d' s1 Hm =>
                 ex_intro _ d' (conj Hm (transformed_same relinked d')))
         (2 := E4) in E5.
  destruct (relink_all geo final_relinks (fst w5)) as [st6|e] eqn:E6;
    cbn [of_res and_then]; [|discriminate].
  apply relink_all_keep with (1 := E5) in E6.
  intros H. inversion H; subst. exists st6. split; [reflexivity|].
  unfold fetched_families, relinked_families.
  destruct (cement_unspecified version_35) as [n r]. cbn [fst snd] in E6.
  simpl app in E6 |- *. rewrite <- !app_assoc in E6. exact E6.
Qed.
End AddDatasetsTrace.

(** *** The steps of the run *)

Section AddDatasetsSteps.
Variable geo : Geomap.
Variable uuid4 : nat -> string.

(** What [fetch_proxies] leaves in the database, and what it returns. *)
Lemma fetch_proxies_inv (name ref_prod : string) (st st1 : State)
      (d_act : dict string Activity) :
  fetch_proxies geo uuid4 name ref_prod st = Ok (d_act, st1) ->
  db st1 = filter (fun act => negb (name_ref_is name ref_prod act)) (db st) /\
  proxies_ok name ref_prod d_act /\
  forall k v,
    In (k, v) d_act ->
    In k (list_remind_regions geo) /\
    exists ds code, In ds (db st) /\ v = proxy k code ds.
Proof.
  intros H. pose proof (fetch_proxies_proxies_ok geo uuid4 _ _ _ _ _ H) as Hok.
  unfold fetch_proxies in H.
  destruct (fetch_loop uuid4 name ref_prod (db st)
                       (d_remind_to_eco geo name ref_prod (db st)) []
                       (uuid_count st)) as [[d n]|e] eqn:E; [|discriminate].
  cbn [bind fst snd] in H. inversion H; subst; clear H. cbn [db].
  split; [reflexivity|]. split; [exact Hok|].
  destruct (fetch_loop_entries uuid4 _ _ _ _ _ _ _ _ E) as (H1 & _).
  destruct (d_remind_to_eco_spec geo name ref_prod (db st)) as (_ & S2 & _).
  intros k v Hkv.
  destruct (H1 k v Hkv) as [[]|(loc & ds & m & Hl & Hs & _ & Hv)].
  destruct (S2 k loc Hl) as [_ Hr]. split; [exact Hr|]. eauto.
Qed.

Lemma transformed_values (families : list (string * string))
      (d_act d_act' : dict string Activity) :
  transformed families d_act d_act' ->
  map triple (values d_act') = map triple (values d_act).
Proof.
  unfold transformed, values.
  induction 1 as [|kv kv' l l' (_ & Ht & _) _ IH]; simpl; [reflexivity|].
  now rewrite Ht, IH.
Qed.

Lemma in_same_triple (db db' : list Activity) (act : Activity) :
  map triple db' = map triple db -> In act db' ->
  exists act0, In act0 db /\ triple act0 = triple act.
Proof.
  intros H Hin. apply (in_map triple) in Hin. rewrite H in Hin.
  apply in_map_iff in Hin as (act0 & Ht & Hin0). eauto.
Qed.

(** The datasets after [self.db.extend]: those of the other families,
    and the copies, which carry the name and the product of the family
    and sit in regions. *)
Lemma extend_db_datasets (families : list (string * string))
      (name ref_prod : string) (st st1 : State)
      (d_act d_act' : dict string Activity) :
  fetch_proxies geo uuid4 name ref_prod st = Ok (d_act, st1) ->
  transformed families d_act d_act' ->
  (forall act,
      In act (db (extend_db d_act' st1)) <->
      (In act (db st) /\ name_ref_is name ref_prod act = false) \/
      In act (values d_act')) /\
  (forall act,
      In act (values d_act') ->
      name_ref_is name ref_prod act = true /\
      In (a_location act) (list_remind_regions geo)).
Proof.
  intros Hf Ht. destruct (fetch_proxies_inv _ _ _ _ _ Hf) as (Hdb & Hok & Hreg).
  split.
  - intros act. unfold extend_db. cbn [db]. rewrite in_app_iff, Hdb, filter_In.
    rewrite negb_true_iff. reflexivity.
  - intros act Hin.
    destruct (in_same_triple _ _ _ (transformed_values _ _ _ Ht) Hin)
      as (act0 & Hin0 & Heq).
    unfold values in Hin0. apply in_map_iff in Hin0 as ([k v] & <- & Hkv).
    cbn [snd] in Heq. destruct Hok as [_ Hall].
    destruct (Hall k v Hkv) as (Hl & Hn & Hr).
    destruct (Hreg k v Hkv) as [Hk _].
    unfold triple in Heq. injection Heq as En Er El.
    split; [apply name_ref_is_true; split; congruence|].
    rewrite <- El, Hl. exact Hk.
Qed.

Lemma relink_db_triples (name ref_prod : string) (st st' : State) :
  relink_db geo name ref_prod st = Ok st' ->
  map triple (db st') = map triple (db st).
Proof.
  unfold relink_db.
  destruct (relink_datasets geo name ref_prod (db st)) as [db'|e] eqn:E;
    cbn [bind]; [|discriminate].
  intros H. inversion H; subst. cbn [db].
  now apply (relink_datasets_triples geo name ref_prod).
Qed.

Lemma unique_triples_extend (families : list (string * string))
      (name ref_prod : string) (st st1 : State)
      (d_act d_act' : dict string Activity) :
  unique_triples (db st) ->
  fetch_proxies geo uuid4 name ref_prod st = Ok (d_act, st1) ->
  transformed families d_act d_act' ->
  unique_triples (db (extend_db d_act' st1)).
Proof.
  intros Hu Hf Ht. destruct (fetch_proxies_inv _ _ _ _ _ Hf) as (Hdb & Hok & _).
  unfold unique_triples, extend_db. cbn [db].
  rewrite map_app, (transformed_values _ _ _ Ht), (proxies_ok_triples _ _ _ Hok).
  rewrite Hdb. apply NoDup_app_disjoint.
  - now apply unique_triples_filter_keep.
  - apply NoDup_map_injective; [|apply Hok]. intros x y H. now inversion H.
  - intros t Hin Hin'. apply in_map_iff in Hin as (a & <- & Ha).
    apply in_map_iff in Hin' as (k & Hk & _).
    apply filter_In in Ha as [_ Ha]. apply negb_true_iff in Ha.
    unfold triple in Hk. inversion Hk.
    assert (name_ref_is name ref_prod a = true)
      by (apply name_ref_is_true; auto).
    congruence.
Qed.
End AddDatasetsSteps.

(** *** The database that [add_datasets_to_database] returns *)

Section AddDatasetsFacts.
Variable geo : Geomap.
Variable rmd : RemindData.
Variable tab : Tables.
Variable uuid4 : nat -> string.

(** X26. No duplicates are created.  On a database with unique (name,
    reference product, location) triples, a run of
    [add_datasets_to_database] that ends returns a database with unique
    triples. *)
Theorem add_datasets_unique_triples (fuel : nat) (version_35 : bool)
        (st : State) (db' : list Activity)
        (created : list (string * string * string)) :
  unique_triples (db st) ->
  add_datasets_to_database geo rmd tab uuid4 fuel version_35 st
  = Done (db', created) ->
  unique_triples db'.
Proof.
  intros Hu H.
  apply (add_datasets_keep geo rmd tab uuid4
           (fun _ _ s _ => unique_triples (db s))) in H
    as (st' & <- & HP); [exact HP| | |exact Hu].
  - intros fetched relinked s c name ref_prod d s1 d' Hs Hf Ht.
    now apply (unique_triples_extend geo uuid4 relinked name ref_prod s s1 d d').
  - intros fetched relinked s c name ref_prod s' Hs Hr.
    unfold unique_triples. now rewrite (relink_db_triples geo _ _ _ _ Hr).
Qed.

(** X27. The families are regional.  In the database that a run returns,
    every dataset of one of the families that were replaced (clinker
    production, the clinker market, the unspecified cement, the cement
    production datasets and the cement markets of the version) sits in
    a region. *)
Theorem add_datasets_regional (fuel : nat) (version_35 : bool)
        (st : State) (db' : list Activity)
        (created : list (string * string * string)) :
  add_datasets_to_database geo rmd tab uuid4 fuel version_35 st
  = Done (db', created) ->
  regional geo (fetched_families version_35) db'.
Proof.
  intros H.
  apply (add_datasets_keep geo rmd tab uuid4
           (fun fetched _ s _ => regional geo fetched (db s))) in H
    as (st' & <- & HP); [exact HP| | |intros act _ []].
  - intros fetched relinked s c name ref_prod d s1 d' Hs Hf Ht.
    destruct (extend_db_datasets geo uuid4 _ _ _ _ _ _ _ Hf Ht) as [Hin Hnew].
    intros act Hact Hfam. apply Hin in Hact as [[Hact Hno]|Hact].
    + apply (Hs act Hact). apply in_app_or in Hfam as [Hfam|[E|[]]];
        [exact Hfam|].
      inversion E; subst.
      rewrite (proj2 (name_ref_is_true _ _ act) (conj eq_refl eq_refl)) in Hno.
      discriminate.
    + apply (Hnew act Hact).
  - intros fetched relinked s c name ref_prod s' Hs Hr act Hact Hfam.
    destruct (in_same_triple _ _ _ (relink_db_triples geo _ _ _ _ Hr) Hact)
      as (act0 & Hin0 & Heq).
    unfold triple in Heq. injection Heq as En Er El.
    rewrite <- El. apply (Hs act0 Hin0). now rewrite En, Er.
Qed.
End AddDatasetsFacts.

Lemma pair_eqb_eq (a b : string * string) : pair_eqb a b = true <-> a = b.
Proof.
  destruct a as [a1 a2], b as [b1 b2]. unfold pair_eqb. cbn [fst snd].
  rewrite andb_true_iff, !String.eqb_eq. split.
  - intros [-> ->]. reflexivity.
  - intros H. inversion H. auto.
Qed.

Lemma distinct_pairs_NoDup (l : list (string * string)) :
  distinct_pairs l = true -> NoDup l.
Proof.
  induction l as [|i l IH]; simpl; intros H; constructor;
    apply andb_prop in H as [Hi Hl]; [|now apply IH].
  intros Hin. apply negb_true_iff in Hi.
  assert (E : existsb (pair_eqb i) l = true).
  { apply existsb_exists. exists i. split; [exact Hin | now apply pair_eqb_eq]. }
  congruence.
Qed.

Lemma fetched_families_NoDup (version_35 : bool) :
  NoDup (fetched_families version_35).
Proof.
  apply distinct_pairs_NoDup. destruct version_35; vm_compute; reflexivity.
Qed.

Section AddDatasetsLog.
Variable geo : Geomap.
Variable rmd : RemindData.
Variable tab : Tables.
Variable uuid4 : nat -> string.

(** X28. The log of created datasets.  The rows that a run writes to the log
    are the (name, reference product, location) of the datasets of the
    replaced families that are in the database it returns: what was
    created is still there, and nothing of these families is there
    that was not created. *)
Theorem add_datasets_created_log (fuel : nat) (version_35 : bool)
        (st : State) (db' : list Activity)
        (created : list (string * string * string)) :
  add_datasets_to_database geo rmd tab uuid4 fuel version_35 st
  = Done (db', created) ->
  forall t,
    In t created <->
    In t (map triple db') /\
    In (fst (fst t), snd (fst t)) (fetched_families version_35).
Proof.
  intros H.
  apply (add_datasets_keep geo rmd tab uuid4
           (fun fetched _ s c =>
              NoDup fetched ->
              forall t, In t c <->
                        In t (map triple (db s)) /\
                        In (fst (fst t), snd (fst t)) fetched)) in H
    as (st' & <- & HP);
    [exact (HP (fetched_families_NoDup version_35))| | |].
  - intros fetched relinked s c name ref_prod d s1 d' Hs Hf Ht Hnd t.
    assert (Hnd' : NoDup fetched /\ ~ In (name, ref_prod) fetched).
    { clear - Hnd. induction fetched as [|i l IH]; simpl in *.
      - split; [constructor | tauto].
      - inversion Hnd as [|x xs Hx Hl]; subst. destruct (IH Hl) as [H1 H2].
        split.
        + constructor; [|exact H1]. intros Hin. apply Hx.
          apply in_or_app. now left.
        + intros [->|Hin]; [|tauto]. apply Hx. apply in_or_app. right. now left. }
    destruct Hnd' as [Hnd0 Hnew]. specialize (Hs Hnd0).
    destruct (extend_db_datasets geo uuid4 _ _ _ _ _ _ _ Hf Ht) as [Hin Hcopies].
    rewrite in_app_iff. split.
    + intros [Hc|Hc].
      * apply Hs in Hc as [Hdb Hfam]. split; [|apply in_or_app; now left].
        apply in_map_iff in Hdb as (act & <- & Hact).
        apply in_map, Hin. left. split; [exact Hact|].
        destruct (name_ref_is name ref_prod act) eqn:E; [|reflexivity].
        apply name_ref_is_true in E as [<- <-]. contradiction.
      * split.
        -- apply in_map_iff in Hc as (act & <- & Hact).
           apply in_map, Hin. now right.
        -- apply in_map_iff in Hc as (act & <- & Hact).
           destruct (Hcopies act Hact) as [E _].
           apply name_ref_is_true in E as [En Er].
           unfold triple. cbn [fst snd]. rewrite En, Er.
           apply in_or_app. right. now left.
    + intros [Hdb Hfam]. apply in_map_iff in Hdb as (act & <- & Hact).
      apply Hin in Hact as [[Hact Hno]|Hact].
      * left. apply Hs. split; [now apply in_map|].
        apply in_app_or in Hfam as [Hfam|[E|[]]]; [exact Hfam|].
        cbn [triple fst snd] in E. inversion E; subst.
        rewrite (proj2 (name_ref_is_true _ _ act) (conj eq_refl eq_refl)) in Hno.
        discriminate.
      * right. now apply in_map.
  - intros fetched relinked s c name ref_prod s' Hs Hr Hnd t.
    rewrite (relink_db_triples geo _ _ _ _ Hr). now apply Hs.
  - intros _ t. simpl. tauto.
Qed.
End AddDatasetsLog.

(** *** The links after the run *)

Section AddDatasetsLinks.
Variable geo : Geomap.
Variable rmd : RemindData.
Variable tab : Tables.
Variable uuid4 : nat -> string.

(** The contract of the crosswalk: a location that is not a region is
    sent to a region. *)
Hypothesis crosswalk_to_region :
  forall loc, ~ In loc (list_remind_regions geo) ->
              In (ecoinvent_to_remind_location geo loc) (list_remind_regions geo).

Lemma relink_target_in_region (name ref_product : string) (exc : Exchange) :
  in_region geo exc -> in_region geo (relink_target geo name ref_product exc).
Proof.
  intros (loc & Hl & Hr). unfold relink_target. rewrite Hl.
  rewrite (proj2 (existsb_eqb_In _ _) Hr), andb_false_r.
  exists loc. auto.
Qed.

Lemma relink_target_links (name ref_product : string) (exc : Exchange) :
  unlocated name ref_product exc = false ->
  relinked name ref_product exc = true ->
  in_region geo (relink_target geo name ref_product exc).
Proof.
  unfold unlocated, relink_target. intros Hu Hm. rewrite Hm in *.
  destruct (e_location exc) as [old|] eqn:El; [|discriminate].
  destruct (existsb (String.eqb old) (list_remind_regions geo)) eqn:Er; simpl.
  - exists old. split; [exact El | now apply existsb_eqb_In].
  - eexists. split; [reflexivity|]. apply crosswalk_to_region.
    rewrite <- existsb_eqb_In. congruence.
Qed.

Lemma links_regional_relink (families : list (string * string))
      (name ref_prod : string) (st st' : State) :
  links_regional geo families (db st) ->
  relink_db geo name ref_prod st = Ok st' ->
  links_regional geo (families ++ [(name, ref_prod)]) (db st').
Proof.
  intros HL. unfold relink_db. rewrite relink_datasets_split.
  destruct (existsb (fun act => existsb (unlocated name ref_prod)
                                        (a_exchanges act)) (db st)) eqn:E;
    cbn [bind]; [discriminate|].
  intros H. inversion H; subst; clear H. cbn [db].
  intros act' exc' i Hact Hexc Hi Hm.
  apply in_map_iff in Hact as (act & <- & Hact).
  unfold relink_targets in Hexc. cbn [a_exchanges set_a_exchanges] in Hexc.
  apply in_map_iff in Hexc as (exc & <- & Hexc).
  rewrite relinked_relink_target in Hm.
  apply in_app_or in Hi as [Hi|[<-|[]]].
  - apply relink_target_in_region. now apply (HL act exc i).
  - cbn [fst snd] in Hm. apply relink_target_links; [|exact Hm].
    destruct (unlocated name ref_prod exc) eqn:Hu; [|reflexivity].
    assert (existsb (fun act => existsb (unlocated name ref_prod)
                                        (a_exchanges act)) (db st) = true).
    { apply existsb_exists. exists act. split; [exact Hact|].
      apply existsb_exists. exists exc. auto. }
    congruence.
Qed.

Lemma links_regional_extend (families : list (string * string))
      (name ref_prod : string) (st st1 : State)
      (d_act d_act' : dict string Activity) :
  links_regional geo families (db st) ->
  fetch_proxies geo uuid4 name ref_prod st = Ok (d_act, st1) ->
  transformed families d_act d_act' ->
  links_regional geo families (db (extend_db d_act' st1)).
Proof.
  intros HL Hf Ht.
  destruct (fetch_proxies_inv geo uuid4 _ _ _ _ _ Hf) as (Hdb & _ & Hreg).
  intros act' exc' i Hact Hexc Hi Hm.
  unfold extend_db in Hact. cbn [db] in Hact. rewrite Hdb in Hact.
  apply in_app_or in Hact as [Hact|Hact].
  - apply filter_In in Hact as [Hact _]. now apply (HL act' exc' i).
  - unfold values in Hact. apply in_map_iff in Hact as ([k' v'] & <- & Hkv').
    cbn [snd] in Hexc.
    destruct (Forall2_In_r _ _ _ _ Ht Hkv') as ([k v] & Hkv & _ & _ & Hback).
    cbn [fst snd] in Hback.
    destruct (Hback exc' i Hexc Hi Hm) as (exc & Hin & Hm0 & Hloc).
    destruct (Hreg k v Hkv) as [_ (ds & code & Hds & ->)].
    unfold proxy in Hin. cbn [a_exchanges] in Hin.
    apply in_map_iff in Hin as (e0 & He0 & Hin0).
    assert (E : exc = e0).
    { destruct (is_production e0) eqn:Ep; [|now symmetry].
      exfalso. subst exc. unfold relinked in Hm0.
      apply andb_prop in Hm0 as [_ Htech].
      unfold is_technosphere, is_production in *.
      cbn [e_type set_e_location] in Htech.
      apply String.eqb_eq in Htech, Ep. congruence. }
    subst e0.
    destruct (HL ds exc i Hds Hin0 Hi Hm0) as (loc & Hl & Hr).
    exists loc. split; [congruence | exact Hr].
Qed.

(** X29. The links point to regions.  When the crosswalk sends every
    location that is not a region to a region, then in the database
    that a run returns every technosphere exchange that names the
    unspecified cement, a cement production dataset or a cement market
    of the version, clinker production or the clinker market is located
    in a region. *)
Theorem add_datasets_links_regional (fuel : nat) (version_35 : bool)
        (st : State) (db' : list Activity)
        (created : list (string * string * string)) :
  add_datasets_to_database geo rmd tab uuid4 fuel version_35 st
  = Done (db', created) ->
  links_regional geo (relinked_families version_35) db'.
Proof.
  intros H.
  apply (add_datasets_keep geo rmd tab uuid4
           (fun _ relinked s _ => links_regional geo relinked (db s))) in H
    as (st' & <- & HP); [exact HP| | |].
  - intros fetched relinked s c name ref_prod d s1 d' Hs Hf Ht.
    now apply (links_regional_extend relinked name ref_prod s s1 d d').
  - intros fetched relinked s c name ref_prod s' Hs Hr.
    now apply (links_regional_relink relinked name ref_prod s s').
  - intros act exc i _ _ [].
Qed.
End AddDatasetsLinks.

Lemma add_datasets_unique_triples_witness :
  exists db' created,
    add_datasets_to_database geo_row rmd_ex tab_ex (fun _ => "u") 5 false
                             (mkState db_plant [] 0) = Done (db', created) /\
    unique_triples db'.
Proof.
  destruct (add_datasets_to_database geo_row rmd_ex tab_ex (fun _ => "u") 5 false
                                     (mkState db_plant [] 0))
    as [[db' created]|e|] eqn:E; try (vm_compute in E; discriminate).
  exists db', created. split; [reflexivity|].
  apply (add_datasets_unique_triples geo_row rmd_ex tab_ex (fun _ => "u") 5 false
           (mkState db_plant [] 0) db' created); [|exact E].
  unfold unique_triples. simpl. repeat constructor; simpl; intuition discriminate.
Defined.

Lemma add_datasets_regional_witness :
  exists db' created,
    add_datasets_to_database geo_row rmd_ex tab_ex (fun _ => "u") 5 false
                             (mkState db_plant [] 0) = Done (db', created) /\
    regional geo_row (fetched_families false) db'.
Proof.
  destruct (add_datasets_to_database geo_row rmd_ex tab_ex (fun _ => "u") 5 false
                                     (mkState db_plant [] 0))
    as [[db' created]|e|] eqn:E; try (vm_compute in E; discriminate).
  exists db', created. split; [reflexivity|].
  exact (add_datasets_regional geo_row rmd_ex tab_ex (fun _ => "u") 5 false
           (mkState db_plant [] 0) db' created E).
Defined.

Lemma add_datasets_created_log_witness :
  exists db' created,
    add_datasets_to_database geo_row rmd_ex tab_ex (fun _ => "u") 5 true
                             (mkState db_plant [] 0) = Done (db', created) /\
    forall t,
      In t created <->
      In t (map triple db') /\
      In (fst (fst t), snd (fst t)) (fetched_families true).
Proof.
  destruct (add_datasets_to_database geo_row rmd_ex tab_ex (fun _ => "u") 5 true
                                     (mkState db_plant [] 0))
    as [[db' created]|e|] eqn:E; try (vm_compute in E; discriminate).
  exists db', created. split; [reflexivity|].
  exact (add_datasets_created_log geo_row rmd_ex tab_ex (fun _ => "u") 5 true
           (mkState db_plant [] 0) db' created E).
Defined.

Lemma add_datasets_links_regional_witness :
  exists db' created,
    add_datasets_to_database geo_row rmd_ex tab_ex (fun _ => "u") 5 false
                             (mkState db_plant [] 0) = Done (db', created) /\
    links_regional geo_row (relinked_families false) db'.
Proof.
  destruct (add_datasets_to_database geo_row rmd_ex tab_ex (fun _ => "u") 5 false
                                     (mkState db_plant [] 0))
    as [[db' created]|e|] eqn:E; try (vm_compute in E; discriminate).
  exists db', created. split; [reflexivity|].
  apply (add_datasets_links_regional geo_row rmd_ex tab_ex (fun _ => "u"))
    with (fuel := 5%nat) (st := mkState db_plant [] 0) (created := created);
    [|exact E].
  intros loc _. simpl. destruct (loc =? "CH"); simpl; auto.
Defined.

(** *** The failures of a run *)

Section AddDatasetsFailures.
Variable geo : Geomap.
Variable rmd : RemindData.
Variable tab : Tables.
Variable uuid4 : nat -> string.

Lemma get_shares_error (ds : list Activity) (e : exn) :
  get_shares_from_production_volume ds = Raise e -> no_lookup_error e.
Proof.
  unfold get_shares_from_production_volume.
  assert (G : forall l acc e0, shares_of_datasets l acc = Raise e0 ->
                               e0 = KeyError).
  { induction l as [|act l IH]; intros acc e0; simpl; [discriminate|].
    destruct (shares_of_production (key_of act) (ws_production act) acc)
      as [acc1|e1] eqn:E1; cbn [bind].
    - apply IH.
    - intros H. inversion H; subst.
      now apply (shares_of_production_error _ _ _ _ E1). }
  destruct (shares_of_datasets ds ([], 0)) as [acc|e0] eqn:E; cbn [bind].
  - unfold normalise. destruct (fst acc); [discriminate|].
    destruct (Qeq_bool (snd acc) 0); [|discriminate].
    intros H. inversion H. split; discriminate.
  - intros H. inversion H; subst. rewrite (G _ _ _ E). split; discriminate.
Qed.

Lemma add_fuel_exchanges_error (db : list Activity) (k : string)
      (todo : list (string * string * string)) :
  forall excs e,
    add_fuel_exchanges geo rmd tab db k todo excs = Raise e ->
    no_lookup_error e.
Proof.
  induction todo as [|[[f0 f1] f2] todo IH]; intros excs e;
    cbn [add_fuel_exchanges]; [discriminate|].
  destruct (fuel_suppliers_of geo tab db k (f0, f1, f2)) as [m|e1] eqn:E1;
    cbn [bind]; [apply IH|].
  intros H. inversion H; subst. unfold fuel_suppliers_of in E1.
  destruct (get_shares_from_production_volume
              (get_suppliers_of_a_region geo db k (fuel_map tab f0) f1))
    as [m|e0] eqn:E0; cbn [bind] in E1.
  - destruct (length m =? 0)%nat; [|discriminate].
    now apply get_shares_error in E1.
  - inversion E1; subst. now apply get_shares_error in E0.
Qed.

Lemma build_clinker_production_dataset_error (db : list Activity) (k : string)
      (v : Activity) (e : exn) :
  build_clinker_production_dataset geo rmd tab db k v = Raise e ->
  no_lookup_error e.
Proof.
  unfold build_clinker_production_dataset.
  destruct (add_fuel_exchanges geo rmd tab db k fuels (a_exchanges v))
    as [excs1|e1] eqn:E1; cbn [bind].
  - destruct (set_first_named _ _ _).
    + destruct (set_first_named _ _ _); discriminate.
    + intros H. inversion H. split; discriminate.
  - intros H. inversion H; subst. now apply add_fuel_exchanges_error in E1.
Qed.

Lemma build_clinker_production_datasets_error (st : State) (e : exn) :
  build_clinker_production_datasets geo rmd tab uuid4 st = Raise e ->
  fetch_proxies geo uuid4 "clinker production" "clinker" st = Raise e \/
  no_lookup_error e.
Proof.
  unfold build_clinker_production_datasets.
  destruct (fetch_proxies geo uuid4 "clinker production" "clinker" st)
    as [[d0 st0]|e0]; cbn [bind fst snd]; [|now left].
  intros H. right.
  assert (G1 : forall d e1, build_clinker_loop geo rmd tab (db st0) d = Raise e1 ->
                            no_lookup_error e1).
  { induction d as [|[k v] d IH]; intros e1; simpl; [discriminate|].
    destruct (build_clinker_production_dataset geo rmd tab (db st0) k v)
      as [v'|e2] eqn:E2; cbn [bind].
    - destruct (build_clinker_loop geo rmd tab (db st0) d) as [r|e3];
        cbn [bind]; [discriminate|].
      intros H1. inversion H1; subst. now apply IH.
    - intros H1. inversion H1; subst.
      now apply build_clinker_production_dataset_error in E2. }
  assert (G2 : forall d e1, update_pollutant_loop rmd tab d = Raise e1 ->
                            no_lookup_error e1).
  { induction d as [|[k v] d IH]; intros e1; simpl; [discriminate|].
    unfold update_pollutant_emissions.
    destruct (update_pollutant_exchanges rmd tab (a_location v) (a_exchanges v))
      as [excs|e2] eqn:E2; cbn [bind].
    - destruct (update_pollutant_loop rmd tab d) as [r|e3];
        cbn [bind]; [discriminate|].
      intros H1. inversion H1; subst. now apply IH.
    - intros H1. inversion H1; subst.
      rewrite (update_pollutant_exchanges_error _ _ _ _ _ E2).
      split; discriminate. }
  destruct (build_clinker_loop geo rmd tab (db st0) _) as [d1|e1] eqn:E1;
    cbn [bind] in H.
  - destruct (update_pollutant_loop rmd tab d1) as [d2|e2] eqn:E2;
      cbn [bind] in H; [discriminate|].
    inversion H; subst. now apply G2 in E2.
  - inversion H; subst. now apply G1 in E1.
Qed.

Lemma collect_mix_error (excs : list Exchange) (e : exn) :
  collect_mix tab excs = Raise e -> no_lookup_error e.
Proof.
  induction excs as [|exc excs IH]; simpl; [discriminate|].
  unfold is_cement_supply. destruct (e_product exc) as [p|]; cbn [bind].
  - destruct (str_in "cement" p && is_technosphere exc); [|exact IH].
    destruct (e_location exc) as [loc|];
      [|intros H; inversion H; split; discriminate].
    destruct (dict_get pair_eqb (e_name exc, loc) (clinker_ratio_eco tab));
      [|intros H; inversion H; split; discriminate].
    destruct (collect_mix tab excs) as [sr|e1]; cbn [bind]; [discriminate|].
    intros H. inversion H; subst. now apply IH.
  - intros H. inversion H. split; discriminate.
Qed.

Lemma write_back_error (excs : list Exchange) :
  forall sh e, write_back excs sh = Raise e -> no_lookup_error e.
Proof.
  induction excs as [|exc excs IH]; intros sh e; simpl; [discriminate|].
  unfold is_cement_supply. destruct (e_product exc) as [p|]; cbn [bind].
  - destruct (str_in "cement" p && is_technosphere exc).
    + destruct sh as [|s sh]; [intros H; inversion H; split; discriminate|].
      destruct (write_back excs sh) as [r|e1] eqn:E1; cbn [bind];
        [discriminate|].
      intros H. inversion H; subst. now apply (IH sh).
    + destruct (write_back excs sh) as [r|e1] eqn:E1; cbn [bind];
        [discriminate|].
      intros H. inversion H; subst. now apply (IH sh).
  - intros H. inversion H. split; discriminate.
Qed.

Lemma adjust_loop_error (fuel : nat) (target : Q) :
  forall m e, adjust_loop fuel target m = Failed e -> e = ValueError.
Proof.
  induction fuel as [|fuel IH]; intros m e; simpl;
    destruct (Qle_bool (average_ratio m) target); try discriminate.
  destruct (adjust_step m) as [m1|e1] eqn:E1; [apply IH|].
  intros H. inversion H; subst. unfold adjust_step, nanargmax, nanargmin in E1.
  destruct (nanmax _) as [[h rh]|]; cbn [bind] in E1; [|now inversion E1].
  destruct (nanmin _) as [[l rl]|]; cbn [bind] in E1; [discriminate|].
  now inversion E1.
Qed.

Lemma adjust_clinker_ratio_error (fuel : nat) (d_act : dict string Activity)
      (e : exn) :
  adjust_clinker_ratio tab fuel d_act = Failed e -> no_lookup_error e.
Proof.
  induction d_act as [|[d act] rest IH]; simpl; [discriminate|].
  destruct (adjust_clinker_ratio_of tab fuel d act) as [act'|e1|] eqn:E1;
    try discriminate.
  - destruct (adjust_clinker_ratio tab fuel rest) as [r|e2|]; try discriminate.
    intros H. inversion H; subst. now apply IH.
  - intros H. inversion H; subst. unfold adjust_clinker_ratio_of in E1.
    destruct (clinker_ratio_remind tab d) as [target|];
      [|inversion E1; split; discriminate].
    destruct (collect_mix tab (a_exchanges act)) as [[sh ra]|e0] eqn:Ec;
      [|inversion E1; subst; now apply collect_mix_error in Ec].
    destruct (adjust_loop fuel target (initial_mix sh ra)) as [m|e0|] eqn:El;
      try discriminate.
    + destruct (write_back (a_exchanges act) (map nan_to_num (share m)))
        as [excs|e0] eqn:Ew; [discriminate|].
      inversion E1; subst. now apply write_back_error in Ew.
    + inversion E1; subst. rewrite (adjust_loop_error _ _ _ _ El).
      split; discriminate.
Qed.

Lemma relink_db_error (name ref_prod : string) (st : State) (e : exn) :
  relink_db geo name ref_prod st = Raise e -> no_lookup_error e.
Proof.
  unfold relink_db. rewrite relink_datasets_split.
  destruct (existsb _ (db st)); cbn [bind]; [|discriminate].
  intros H. inversion H. split; discriminate.
Qed.

Lemma fetch_proxies_returns (name ref_prod : string) (st : State) :
  unique_triples (db st) ->
  exists d_act st1, fetch_proxies geo uuid4 name ref_prod st = Ok (d_act, st1).
Proof.
  intros Hu. unfold fetch_proxies.
  destruct (fetch_loop_ok uuid4 name ref_prod (db st)
              (d_remind_to_eco geo name ref_prod (db st)) Hu [] (uuid_count st))
    as (d & n & E & _); [split; [constructor | intros k v []]|].
  rewrite E. cbn [bind]. eauto.
Qed.

Lemma add_cement_families_failures
      (make : string -> string -> State -> res (dict string Activity * State))
      (families : list (string * string)) :
  (forall name ref_prod st d_act st1,
      fetch_proxies geo uuid4 name ref_prod st = Ok (d_act, st1) ->
      exists d_act',
        make name ref_prod st = Ok (d_act', st1) /\
        transformed [] d_act d_act') ->
  forall w,
    unique_triples (db (fst w)) ->
    match add_cement_families geo make families w with
    | Ok w' => unique_triples (db (fst w'))
    | Raise e => no_lookup_error e
    end.
Proof.
  intros Hmake. induction families as [|[name ref_prod] rest IH]; intros w Hu;
    simpl; [exact Hu|].
  unfold add_cement_family. cbn [fst snd].
  destruct (fetch_proxies_returns name ref_prod (fst w) Hu) as (d & st1 & Ef).
  destruct (Hmake _ _ _ _ _ Ef) as (d' & Em & Ht). rewrite Em. cbn [bind fst snd].
  pose proof (unique_triples_extend geo uuid4 _ _ _ _ _ _ _ Hu Ef Ht) as Hu1.
  destruct (relink_db geo name ref_prod (extend_db d' st1)) as [st2|e] eqn:Er;
    cbn [bind].
  - apply IH. cbn [fst]. unfold unique_triples.
    now rewrite (relink_db_triples geo _ _ _ _ Er).
  - now apply relink_db_error in Er.
Qed.

Lemma relink_all_error (pairs : list (string * string)) :
  forall st e, relink_all geo pairs st = Raise e -> no_lookup_error e.
Proof.
  induction pairs as [|[name ref_prod] rest IH]; intros st e; simpl;
    [discriminate|].
  destruct (relink_db geo name ref_prod st) as [st1|e1] eqn:Er; cbn [bind];
    [apply IH|].
  intros H. inversion H; subst. now apply relink_db_error in Er.
Qed.

(** X30. Unique triples keep the lookups quiet.  On a database with unique
    (name, reference product, location) triples, a run of
    [add_datasets_to_database] does not fail with NoResults or
    MultipleResults, the two exceptions of [wurst.get_one]: when it
    fails, it is with one of the other exceptions. *)
Theorem add_datasets_no_lookup_error (fuel : nat) (version_35 : bool)
        (st : State) (e : exn) :
  unique_triples (db st) ->
  add_datasets_to_database geo rmd tab uuid4 fuel version_35 st = Failed e ->
  e <> NoResults /\ e <> MultipleResults.
Proof.
  intros Hu. change (e <> NoResults /\ e <> MultipleResults)
    with (no_lookup_error e).
  unfold add_datasets_to_database.
  destruct (fetch_proxies_returns "clinker production" "clinker" st Hu)
    as (d1 & st1 & F1).
  destruct (build_clinker_production_datasets geo rmd tab uuid4 st)
    as [[d1' st1']|e1] eqn:E1; cbn [of_res and_then fst snd].
  2:{ intros H. inversion H; subst.
      apply build_clinker_production_datasets_error in E1 as [E1|E1];
        [congruence | exact E1]. }
  destruct (build_clinker_production_datasets_fetch geo rmd tab uuid4 _ _ _ E1)
    as (d0 & F0 & T1).
  pose proof (unique_triples_extend geo uuid4 _ _ _ _ _ _ _ Hu F0 T1) as Hu1.
  unfold build_clinker_market_datasets.
  destruct (fetch_proxies_returns "market for clinker" "clinker" _ Hu1)
    as (d2 & st2 & F2). rewrite F2. cbn [of_res and_then fst snd].
  pose proof (unique_triples_extend geo uuid4 _ _ _ _ _ _ _ Hu1 F2
                (transformed_same [] d2)) as Hu2.
  destruct (fetch_proxies_returns (fst (cement_unspecified version_35))
              (snd (cement_unspecified version_35)) _ Hu2) as (d3 & st3 & F3).
  rewrite F3. cbn [of_res and_then fst snd].
  destruct (adjust_clinker_ratio tab fuel d3) as [d3'|e3|] eqn:A3;
    cbn [and_then]; [| |discriminate].
  2:{ intros H. inversion H; subst. now apply adjust_clinker_ratio_error in A3. }
  pose proof (unique_triples_extend geo uuid4 _ _ _ _ _ _ _ Hu2 F3
                (transformed_adjust tab [] _ _ _ A3)) as Hu3.
  destruct (relink_db geo _ _ (extend_db d3' st3)) as [st4|e4] eqn:R4;
    cbn [of_res and_then].
  2:{ intros H. inversion H; subst. now apply relink_db_error in R4. }
  assert (Hu4 : unique_triples (db st4))
    by (unfold unique_triples; now rewrite (relink_db_triples geo _ _ _ _ R4)).
  match goal with
  | |- context [add_cement_families geo ?mk ?l ?w] =>
      pose proof (add_cement_families_failures mk l) as H5;
      specialize (fun Hm => H5 Hm w);
      destruct (add_cement_families geo mk l w) as [w5|e5]
  end; cbn [of_res and_then].
  2:{ intros H. inversion H; subst. apply H5; [|exact Hu4].
      intros name ref_prod s d s1 Hf. eexists. split.
      - unfold update_cement_production_datasets. rewrite Hf. reflexivity.
      - apply transformed_electricity. }
  assert (Hu5 : unique_triples (db (fst w5))).
  { apply H5; [|exact Hu4].
    intros name ref_prod s d s1 Hf. eexists. split.
    - unfold update_cement_production_datasets. rewrite Hf. reflexivity.
    - apply transformed_electricity. }
  clear H5.
  pose proof (add_cement_families_failures (fetch_proxies geo uuid4)
                (cement_markets version_35)
                (fun name ref_prod s d s1 Hf =>
                   ex_intro _ d (conj Hf (transformed_same [] d)))
                w5 Hu5) as H6.
  destruct (add_cement_families geo (fetch_proxies geo uuid4)
                                (cement_markets version_35) w5) as [w6|e6];
    cbn [of_res and_then].
  2:{ intros H. inversion H; subst. exact H6. }
  destruct (relink_all geo final_relinks (fst w6)) as [st7|e7] eqn:R7;
    cbn [of_res and_then]; [discriminate|].
  intros H. inversion H; subst. now apply relink_all_error in R7.
Qed.
End AddDatasetsFailures.

Lemma add_datasets_no_lookup_error_witness :
  exists e,
    add_datasets_to_database geo_row rmd_ex tab_ex (fun _ => "u") 5 false
                             (mkState [set_a_exchanges [] clinker_row] [] 0)
    = Failed e /\
    e <> NoResults /\ e <> MultipleResults.
Proof.
  destruct (add_datasets_to_database geo_row rmd_ex tab_ex (fun _ => "u") 5 false
              (mkState [set_a_exchanges [] clinker_row] [] 0))
    as [r|e|] eqn:E; try (vm_compute in E; discriminate).
  exists e. split; [reflexivity|].
  apply (add_datasets_no_lookup_error geo_row rmd_ex tab_ex (fun _ => "u") 5 false
           (mkState [set_a_exchanges [] clinker_row] [] 0) e); [|exact E].
  unfold unique_triples. simpl. repeat constructor. intros [].
Defined.
